(** * Voice-agent performance optimiser: core of the test / evaluate / optimise loop

    A shallow embedding of the TypeScript backend: the pass-rate calculator
    ([utils/pass-rate.ts]), the two status state machines
    ([utils/state-machine.ts]), the line diff ([utils/diff.ts]), the retry
    helper of the LLM service ([services/llm-service.ts]), the result
    evaluator, the prompt optimizer and the cycle orchestrator
    ([services/*.ts]).

    Conventions of the embedding:
    - a JavaScript string is the list of its UTF-16 code units;
    - a JavaScript number is an exact rational or one of the three IEEE
      specials ([NaN], [+Infinity], [-Infinity]); rounding is not modelled;
    - asynchronous code is written in a state-and-exception monad over the
      process state; every [await] of a collaborator is a point where other
      requests (cancel, pause, resume) may be served. *)

From Stdlib Require Import QArith String.
From Equations Require Import Equations.
From stdpp Require Import base option list numbers gmap pretty.

Open Scope Z_scope.

(** ** JavaScript values *)

(** UTF-16 code units; a string literal of the source is turned into code
    units with [lit]. *)
Abbreviation jsstring := (list N).

Definition lit (s : String.string) : jsstring :=
  map Ascii.N_of_ascii (String.list_ascii_of_string s).
Arguments lit s%_string.

(** The double quote of the source's template literals. *)
Definition dquote : jsstring := [34%N].
Definition newline : N := 10%N.

(** [WhiteSpace] and [LineTerminator] code points of ECMAScript, the ones
    [String.prototype.trim] strips. *)
Definition isWhiteSpace (c : N) : bool :=
  bool_decide (c ∈ [9; 10; 11; 12; 13; 32; 160; 5760; 8192; 8193; 8194; 8195;
                    8196; 8197; 8198; 8199; 8200; 8201; 8202; 8232; 8233;
                    8239; 8287; 12288; 65279]%N).

Fixpoint trimStart (s : jsstring) : jsstring :=
  match s with
  | c :: s' => if isWhiteSpace c then trimStart s' else s
  | [] => []
  end.

Definition trimEnd (s : jsstring) : jsstring := reverse (trimStart (reverse s)).

Definition trim (s : jsstring) : jsstring := trimEnd (trimStart s).

(** [s.split('\n')]: never empty, [''.split('\n')] is [['']]. *)
Fixpoint split_lines (s : jsstring) : list jsstring :=
  match s with
  | [] => [[]]
  | c :: s' =>
      if decide (c = newline) then [] :: split_lines s'
      else match split_lines s' with
           | l :: ls => (c :: l) :: ls
           | [] => [[c]]
           end
  end.

(** [lines.join('\n')]. *)
Fixpoint join_lines (ls : list jsstring) : jsstring :=
  match ls with
  | [] => []
  | [l] => l
  | l :: ls' => l ++ newline :: join_lines ls'
  end.

(** Numbers. *)
Inductive number : Type :=
  | Finite (q : Q)
  | PosInfinity
  | NegInfinity
  | NaN.

Definition number_of_nat (n : nat) : number := Finite (inject_Z (Z.of_nat n)).

(** [x / y] on numbers that are finite, as the sources only divide counts:
    [0 / 0] is [NaN], [x / 0] is an infinity. *)
Definition number_div (x y : number) : number :=
  match x, y with
  | Finite a, Finite b =>
      if Qeq_bool b 0 then
        if Qeq_bool a 0 then NaN
        else if Qle_bool 0 a then PosInfinity else NegInfinity
      else Finite (a / b)
  | Finite _, (PosInfinity | NegInfinity) => Finite 0
  | PosInfinity, Finite b => if Qle_bool 0 b then PosInfinity else NegInfinity
  | NegInfinity, Finite b => if Qle_bool 0 b then NegInfinity else PosInfinity
  | _, _ => NaN
  end.

(** [x >= y]; every comparison with [NaN] is false. *)
Definition number_ge (x y : number) : bool :=
  match x, y with
  | Finite a, Finite b => Qle_bool b a
  | PosInfinity, (Finite _ | PosInfinity | NegInfinity) => true
  | (Finite _ | NegInfinity), NegInfinity => true
  | _, _ => false
  end.


(** What a rejected promise or a [throw] carries. The sources tell an
    [Error] from the rest with [instanceof Error], stringify what is not one
    with [String(value)], and read [.message] of whatever they catch: that
    is the message of an [Error], the [message] property of another object
    that has one (a string), [undefined] for a value without one, and a
    [TypeError] for [undefined] and [null]. *)
Inductive thrown : Type :=
  | ErrorObject (message : jsstring)
  | NotAnError (stringified : jsstring)
  | ObjectWithMessage (stringified message : jsstring)
  | Undefined
  | Null.

(** ** Domain types ([types/index.ts]) *)

Record SuccessCriterion : Type := {
  sc_id : jsstring;
  description : jsstring;
  evaluationPrompt : jsstring;
}.

Record UserInput : Type := {
  ui_turn : nat;
  ui_utterance : jsstring;
}.

Record TestCase : Type := {
  tc_id : jsstring;
  userInputSequence : list UserInput;
  successCriteria : list SuccessCriterion;
}.

Record AgentResponse : Type := {
  turn : nat;
  utterance : jsstring;
}.

(** [explanation] is [None] when the property is missing ([undefined] or
    [null]) at run time, which the declared type [string] does not prevent:
    the value comes out of [JSON.parse]. *)
Record CriterionResult : Type := {
  criterionId : jsstring;
  passed : bool;
  explanation : option jsstring;
}.

Inductive TestCaseStatus : Type := case_completed | case_error.

Record TestCaseResult : Type := {
  testCaseId : jsstring;
  agentResponses : list AgentResponse;
  criterionResults : list CriterionResult;
  status : TestCaseStatus;
  errorMessage : option jsstring;
}.

Record PromptChange : Type := {
  pc_description : jsstring;
  pc_rationale : jsstring;
}.

Record OptimizationResult : Type := {
  or_originalPrompt : jsstring;
  or_revisedPrompt : jsstring;
  or_changes : list PromptChange;
  or_targetedFailures : list jsstring;
}.

#[global] Instance TestCaseStatus_eq_dec : EqDecision TestCaseStatus.
Proof. solve_decision. Defined.

(** ** Pass rate ([utils/pass-rate.ts]) *)

Definition calculatePassRate (testCaseResults : list TestCaseResult) : number :=
  let completedResults :=
    filter (λ r, status r = case_completed) testCaseResults in
  let allCriteria := completedResults ≫= criterionResults in
  if decide (length allCriteria = 0%nat) then Finite 0
  else
    let passed_ := length (filter (λ c, passed c = true) allCriteria) in
    number_div (number_of_nat passed_) (number_of_nat (length allCriteria)).

(** The two counts of the specification, written result by result. *)
Fixpoint completedCriteria (rs : list TestCaseResult) : nat :=
  match rs with
  | [] => 0
  | r :: rs' =>
      match status r with
      | case_completed => length (criterionResults r) + completedCriteria rs'
      | case_error => completedCriteria rs'
      end
  end%nat.

Fixpoint countPassed (cs : list CriterionResult) : nat :=
  match cs with
  | [] => 0
  | c :: cs' => if passed c then S (countPassed cs') else countPassed cs'
  end.

Fixpoint completedPassed (rs : list TestCaseResult) : nat :=
  match rs with
  | [] => 0
  | r :: rs' =>
      match status r with
      | case_completed => countPassed (criterionResults r) + completedPassed rs'
      | case_error => completedPassed rs'
      end
  end%nat.

(** ** Status state machines ([utils/state-machine.ts]) *)

Inductive OptimizationStatus : Type := generated | accepted | rejected.
Inductive CycleStatus : Type := running | paused | completed | cancelled.

#[global] Instance OptimizationStatus_eq_dec : EqDecision OptimizationStatus.
Proof. solve_decision. Defined.
#[global] Instance CycleStatus_eq_dec : EqDecision CycleStatus.
Proof. solve_decision. Defined.

Definition OPTIMIZATION_TRANSITIONS (s : OptimizationStatus) : list OptimizationStatus :=
  match s with
  | generated => [accepted; rejected]
  | accepted => []
  | rejected => []
  end.

Definition CYCLE_TRANSITIONS (s : CycleStatus) : list CycleStatus :=
  match s with
  | running => [paused; cancelled; completed]
  | paused => [running; cancelled]
  | completed => []
  | cancelled => []
  end.

(** The two [Error]s the transition functions throw; the message embeds both
    statuses. *)
Inductive TransitionError : Type :=
  | InvalidOptimizationTransition (current next : OptimizationStatus)
  | InvalidCycleTransition (current next : CycleStatus).

Definition transitionOptimizationStatus (current next : OptimizationStatus)
  : TransitionError + OptimizationStatus :=
  let allowed := OPTIMIZATION_TRANSITIONS current in
  if bool_decide (next ∈ allowed) then inr next
  else inl (InvalidOptimizationTransition current next).

Definition transitionCycleStatus (current next : CycleStatus)
  : TransitionError + CycleStatus :=
  let allowed := CYCLE_TRANSITIONS current in
  if bool_decide (next ∈ allowed) then inr next
  else inl (InvalidCycleTransition current next).

(** The edges the specification lists. *)
Definition optimization_edge (c n : OptimizationStatus) : bool :=
  match c, n with
  | generated, accepted | generated, rejected => true
  | _, _ => false
  end.

Definition cycle_edge (c n : CycleStatus) : bool :=
  match c, n with
  | running, paused | running, cancelled | running, completed
  | paused, running | paused, cancelled => true
  | _, _ => false
  end.

(** ** Line diff ([utils/diff.ts]) *)

Inductive ChangeType : Type := added | removed | context.

Record DiffChange : Type := {
  type : ChangeType;
  lineNumber : nat;
  content : jsstring;
}.

#[global] Instance ChangeType_eq_dec : EqDecision ChangeType.
Proof. solve_decision. Defined.

(** [a[i]] on a [string[]]: [None] is [undefined], and [===] on two such
    reads is equality of options. [line_at] is the read where the source has
    already checked the index. *)
Definition line_at (a : list jsstring) (i : nat) : jsstring := default [] (a !! i).

(** The table [dp] of [buildLCS], an array of [m + 1] rows of [n + 1]
    numbers. *)
Definition dp_get (dp : list (list nat)) (i j : nat) : nat :=
  default 0%nat (dp !! i ≫= (.!! j)).

Definition dp_set (dp : list (list nat)) (i j : nat) (v : nat) : list (list nat) :=
  alter (<[j := v]>) i dp.

Definition lcs_cell (a b : list jsstring) (dp : list (list nat)) (i j : nat) : nat :=
  if decide (a !! (i - 1)%nat = b !! (j - 1)%nat)
  then (dp_get dp (i - 1) (j - 1) + 1)%nat
  else (dp_get dp (i - 1) j `max` dp_get dp i (j - 1))%nat.

Definition lcs_table (a b : list jsstring) : list (list nat) :=
  let m := length a in
  let n := length b in
  let dp := replicate (m + 1) (replicate (n + 1) 0%nat) in
  foldl (λ dp i,
           foldl (λ dp j, dp_set dp i j (lcs_cell a b dp i j)) dp (seq 1 n))
        dp (seq 1 m).

(** The walk back through the table, [result.unshift] being a cons. *)
Equations? lcs_walk (a b : list jsstring) (dp : list (list nat))
  (i j : nat) (result : list jsstring) : list jsstring by wf (i + j)%nat lt :=
  lcs_walk a b dp i j result with decide (0 < i ∧ 0 < j)%nat := {
    | left _ =>
        if decide (a !! (i - 1)%nat = b !! (j - 1)%nat) then
          lcs_walk a b dp (i - 1)%nat (j - 1)%nat (line_at a (i - 1) :: result)
        else if bool_decide (dp_get dp i (j - 1) < dp_get dp (i - 1) j)%nat then
          lcs_walk a b dp (i - 1)%nat j result
        else
          lcs_walk a b dp i (j - 1)%nat result
    | right _ => result }.
Proof.
  all: lia.
Qed.

Definition buildLCS (a b : list jsstring) : list jsstring :=
  lcs_walk a b (lcs_table a b) (length a) (length b) [].

(** The loop of [computeDiff]. An iteration in which none of the three
    branches fires changes nothing, so the source would spin; [None] is the
    loop still running when the fuel is spent. *)
Fixpoint diff_loop (fuel : nat) (originalLines revisedLines lcs : list jsstring)
  (oi ri li : nat) (changes : list DiffChange) : option (list DiffChange) :=
  if bool_decide (oi < length originalLines)%nat
     || bool_decide (ri < length revisedLines)%nat then
    match fuel with
    | O => None
    | S fuel' =>
        if bool_decide (li < length lcs)%nat
           && bool_decide (oi < length originalLines)%nat
           && bool_decide (ri < length revisedLines)%nat
           && bool_decide (originalLines !! oi = lcs !! li)
           && bool_decide (revisedLines !! ri = lcs !! li) then
          diff_loop fuel' originalLines revisedLines lcs (oi + 1) (ri + 1) (li + 1)
            (changes ++ [{| type := context; lineNumber := ri + 1;
                            content := line_at lcs li |}])
        else if bool_decide (oi < length originalLines)%nat
                && (bool_decide (length lcs <= li)%nat
                    || bool_decide (originalLines !! oi ≠ lcs !! li)) then
          diff_loop fuel' originalLines revisedLines lcs (oi + 1) ri li
            (changes ++ [{| type := removed; lineNumber := oi + 1;
                            content := line_at originalLines oi |}])
        else if bool_decide (ri < length revisedLines)%nat
                && (bool_decide (length lcs <= li)%nat
                    || bool_decide (revisedLines !! ri ≠ lcs !! li)) then
          diff_loop fuel' originalLines revisedLines lcs oi (ri + 1) li
            (changes ++ [{| type := added; lineNumber := ri + 1;
                            content := line_at revisedLines ri |}])
        else
          diff_loop fuel' originalLines revisedLines lcs oi ri li changes
    end
  else Some changes.

Definition computeDiff (fuel : nat) (original revised : jsstring)
  : option (list DiffChange) :=
  if decide (original = revised) then Some []
  else
    let originalLines := split_lines original in
    let revisedLines := split_lines revised in
    let lcs := buildLCS originalLines revisedLines in
    diff_loop fuel originalLines revisedLines lcs 0 0 0 [].

(** The two sides of a change list: what it says the original was, and what
    it says the revision is. *)
Definition original_side (changes : list DiffChange) : list jsstring :=
  content <$> filter (λ c, type c = context ∨ type c = removed) changes.

Definition revised_side (changes : list DiffChange) : list jsstring :=
  content <$> filter (λ c, type c = context ∨ type c = added) changes.

(** The fuel that is always enough for [computeDiff]: one step per line of
    either input. *)
Definition diff_fuel (original revised : jsstring) : nat :=
  length (split_lines original) + length (split_lines revised).

(** ** Asynchronous code: state and exceptions

    A computation reads and writes the process state [St] and either returns
    or throws; what it wrote before throwing stays written. *)

Inductive outcome (A : Type) : Type :=
  | Returned (a : A)
  | Threw (e : thrown).
Arguments Returned {A} a.
Arguments Threw {A} e.

Definition M (St A : Type) : Type := St → outcome A * St.

#[global] Instance M_ret {St} : MRet (M St) := λ A a s, (Returned a, s).

#[global] Instance M_bind {St} : MBind (M St) := λ A B f m s,
  match m s with
  | (Returned a, s') => f a s'
  | (Threw e, s') => (Threw e, s')
  end.

Definition throw {St A} (e : thrown) : M St A := λ s, (Threw e, s).

(** [try { return m } catch (error) { handler error }]. *)
Definition try_catch {St A} (m : M St A) (handler : thrown → M St A) : M St A := λ s,
  match m s with
  | (Returned a, s') => (Returned a, s')
  | (Threw e, s') => handler e s'
  end.

Definition get_state {St} : M St St := λ s, (Returned s, s).
Definition modify_state {St} (f : St → St) : M St unit := λ s, (Returned (), f s).

(** ** Retry with exponential backoff ([services/llm-service.ts]) *)

(** [error instanceof Error ? error : new Error(String(error))]. *)
Definition asError (error : thrown) : thrown :=
  match error with
  | ErrorObject message => ErrorObject message
  | NotAnError stringified => ErrorObject stringified
  | ObjectWithMessage stringified _ => ErrorObject stringified
  | Undefined => ErrorObject (lit "undefined")
  | Null => ErrorObject (lit "null")
  end.

Section retry.
Context {St T : Type}.
Variable fn : M St T.
Variable maxRetries : Z.
Variable initialDelayMs : Z.
Variable sleepFn : Z → M St unit.

(** The [for] loop with [remaining] iterations left, that is, with
    [attempt, attempt + 1, ..., maxRetries] still to try. After the loop
    comes [throw lastError!]. *)
Fixpoint retry_attempts (remaining : nat) (attempt : Z) (lastError : option thrown)
  : M St T :=
  match remaining with
  | O => throw (default Undefined lastError)
  | S remaining' =>
      try_catch fn (λ error,
        let lastError := asError error in
        _ ← (if bool_decide (attempt < maxRetries)
             then sleepFn (initialDelayMs * 2 ^ attempt)
             else mret ());
        retry_attempts remaining' (attempt + 1) (Some lastError))
  end.

Definition retryWithBackoff : M St T :=
  retry_attempts (Z.to_nat (maxRetries + 1)) 0 None.

End retry.

(** A recording stub for [fn] and [sleepFn]: the state is the list of what
    happened so far, and the [a]-th call of [fn] (counting from 0) ends as
    [outcomes a] says. *)
Inductive RetryEvent : Type :=
  | Attempted (attempt : nat)
  | Slept (ms : Z).

Fixpoint attempts_made (log : list RetryEvent) : nat :=
  match log with
  | [] => 0
  | Attempted _ :: log' => S (attempts_made log')
  | Slept _ :: log' => attempts_made log'
  end.

Definition recorded_fn {T} (outcomes : nat → thrown + T) : M (list RetryEvent) T :=
  λ log,
    let a := attempts_made log in
    (match outcomes a with inr v => Returned v | inl e => Threw e end,
     log ++ [Attempted a]).

Definition recorded_sleep (ms : Z) : M (list RetryEvent) unit :=
  λ log, (Returned (), log ++ [Slept ms]).

(** The first [k] attempts failing, each followed by its backoff. *)
Definition failed_attempts (initialDelayMs : Z) (k : nat) : list RetryEvent :=
  seq 0 k ≫= λ a, [Attempted a; Slept (initialDelayMs * 2 ^ Z.of_nat a)].

(** Monadic left fold: a [for (const x of l)] loop whose body may throw. *)
Fixpoint foldM {St A B} (f : B → A → M St B) (b : B) (l : list A) : M St B :=
  match l with
  | [] => mret b
  | a :: l' => b' ← f b a; foldM f b' l'
  end.

(** [`${n}`] for a non-negative integer. *)
Definition decimal (n : nat) : jsstring := lit (pretty n).

(** ** Collaborators

    The generative-model client ([LLMService]) and the voice agent are
    outside the program. Each is a stateful oracle over a hidden state [Σ]:
    a call returns or throws, and may answer differently the next time. *)

Class LLMService (Σ : Type) : Type := {
  llm_evaluateCriterion : jsstring → SuccessCriterion → M Σ CriterionResult;
  llm_optimizePrompt :
    jsstring → list CriterionResult → list CriterionResult → M Σ OptimizationResult;
}.

Class AgentApi (Σ : Type) : Type := {
  simulateAgentResponse : jsstring → jsstring → nat → M Σ AgentResponse;
}.

(** [MockLLMService] and the mock agent of [TestExecutorService]. *)
Definition MockLLMService : LLMService unit := {|
  llm_evaluateCriterion _response criterion :=
    mret {| criterionId := sc_id criterion; passed := true;
            explanation := Some (lit "Mock evaluation passed") |};
  llm_optimizePrompt original _failures _passes :=
    mret {| or_originalPrompt := original;
            or_revisedPrompt := original ++ [newline] ++ lit "[optimized]";
            or_changes := []; or_targetedFailures := [] |};
|}.

Definition MockAgentApi : AgentApi unit := {|
  simulateAgentResponse utterance_ _agentPrompt turn_ :=
    mret {| turn := turn_;
            utterance := lit "[Mock agent response to " ++ dquote ++ utterance_
                         ++ dquote ++ lit " based on prompt]" |};
|}.

(** ** The database ([database.ts]) and the process state *)

Record Agent : Type := { currentPrompt : jsstring }.

Inductive TestRunStatus : Type := run_running | run_completed | run_error.

Record TestRunRow : Type := {
  tr_testSuiteId : jsstring;
  tr_agentId : jsstring;
  promptSnapshot : jsstring;
  overallPassRate : option number;
  tr_status : TestRunStatus;
}.

Record TestCaseResultRow : Type := {
  tcr_id : jsstring;
  tcr_testRunId : jsstring;
  tcr_testCaseId : jsstring;
  tcr_agentResponses : list AgentResponse;
  tcr_status : TestCaseStatus;
  tcr_errorMessage : option jsstring;
}.

Record CriterionResultRow : Type := {
  crr_id : jsstring;
  crr_testCaseResultId : jsstring;
  crr_criterionId : jsstring;
  crr_passed : bool;
  crr_explanation : jsstring;
}.

Record OptimizationRecordRow : Type := {
  opt_testRunId : jsstring;
  opt_agentId : jsstring;
  opt_originalPrompt : jsstring;
  opt_revisedPrompt : jsstring;
  opt_changes : list PromptChange;
  opt_status : OptimizationStatus;
}.

Record CycleRecord : Type := {
  cyc_agentId : jsstring;
  cycleCount : Z;
  startingPassRate : number;
  endingPassRate : number;
  cyc_targetThreshold : number;
  cyc_maxCycles : Z;
  cyc_status : CycleStatus;
  testRunIds : list jsstring;
  optimizationIds : list jsstring;
}.

(** The tables the orchestrator touches; time stamps are left out. The test
    cases of a suite are kept with their criteria, each row paired with its
    [testSuiteId]. *)
Record Database : Type := {
  Agent_t : gmap jsstring Agent;
  TestSuite_t : list jsstring;
  TestCase_t : list (jsstring * TestCase);
  TestRun_t : gmap jsstring TestRunRow;
  TestCaseResult_t : list TestCaseResultRow;
  CriterionResult_t : list CriterionResultRow;
  OptimizationRecord_t : gmap jsstring OptimizationRecordRow;
  CycleRecord_t : gmap jsstring CycleRecord;
}.

Inductive CycleEvent : Type :=
  | cycle_start (cycleNumber : Z)
  | cycle_complete (cycleNumber : Z)
  | test_run_complete (cycleNumber : Z) (passRate : number)
  | optimization_complete (cycleNumber : Z)
  | finished (status : CycleStatus) (passRate : option number)
  | error (message : option jsstring).

(** What the HTTP layer may ask of a cycle while its loop is suspended.
    These are the requests that reach the orchestrator. The other routes of
    the server are not part of this model: no prompt update and no
    optimization applied by hand is served while a loop runs. *)
Inductive Request : Type :=
  | CancelRequest (cycleId : jsstring)
  | PauseRequest (cycleId : jsstring)
  | ResumeRequest (cycleId : jsstring).

(** Calls out of [runCycleLoop], recorded where they are made. *)
Inductive Call : Type :=
  | Call_executeTestRun
  | Call_optimizePrompt.

#[global] Instance Call_eq_dec : EqDecision Call.
Proof. solve_decision. Defined.

(** The state of the process: the collaborators' hidden state, the supply
    of [uuidv4], the requests that will arrive at the awaits to come (one
    batch per await), the database, and the two maps and what the
    orchestrator emitted. *)
Record World (Σ : Type) : Type := {
  oracle : Σ;
  uuids : nat;
  inbox : list (list Request);
  database : Database;
  stateFlags : gmap jsstring CycleStatus;
  emitted : list (jsstring * CycleEvent);
  calls : list Call;
}.
Arguments oracle {Σ} _.
Arguments uuids {Σ} _.
Arguments inbox {Σ} _.
Arguments database {Σ} _.
Arguments stateFlags {Σ} _.
Arguments emitted {Σ} _.
Arguments calls {Σ} _.

Section world.
Context {Σ : Type}.

Definition set_oracle (σ : Σ) (w : World Σ) : World Σ :=
  {| oracle := σ; uuids := uuids w; inbox := inbox w; database := database w;
     stateFlags := stateFlags w; emitted := emitted w; calls := calls w |}.
Definition set_uuids (n : nat) (w : World Σ) : World Σ :=
  {| oracle := oracle w; uuids := n; inbox := inbox w; database := database w;
     stateFlags := stateFlags w; emitted := emitted w; calls := calls w |}.
Definition set_inbox (i : list (list Request)) (w : World Σ) : World Σ :=
  {| oracle := oracle w; uuids := uuids w; inbox := i; database := database w;
     stateFlags := stateFlags w; emitted := emitted w; calls := calls w |}.
Definition set_database (d : Database) (w : World Σ) : World Σ :=
  {| oracle := oracle w; uuids := uuids w; inbox := inbox w; database := d;
     stateFlags := stateFlags w; emitted := emitted w; calls := calls w |}.
Definition set_stateFlags (f : gmap jsstring CycleStatus) (w : World Σ) : World Σ :=
  {| oracle := oracle w; uuids := uuids w; inbox := inbox w; database := database w;
     stateFlags := f; emitted := emitted w; calls := calls w |}.
Definition set_emitted (e : list (jsstring * CycleEvent)) (w : World Σ) : World Σ :=
  {| oracle := oracle w; uuids := uuids w; inbox := inbox w; database := database w;
     stateFlags := stateFlags w; emitted := e; calls := calls w |}.
Definition set_calls (c : list Call) (w : World Σ) : World Σ :=
  {| oracle := oracle w; uuids := uuids w; inbox := inbox w; database := database w;
     stateFlags := stateFlags w; emitted := emitted w; calls := c |}.

Definition set_Agent_t (t : gmap jsstring Agent) (d : Database) : Database :=
  {| Agent_t := t; TestSuite_t := TestSuite_t d; TestCase_t := TestCase_t d;
     TestRun_t := TestRun_t d; TestCaseResult_t := TestCaseResult_t d;
     CriterionResult_t := CriterionResult_t d;
     OptimizationRecord_t := OptimizationRecord_t d;
     CycleRecord_t := CycleRecord_t d |}.
Definition set_TestRun_t (t : gmap jsstring TestRunRow) (d : Database) : Database :=
  {| Agent_t := Agent_t d; TestSuite_t := TestSuite_t d; TestCase_t := TestCase_t d;
     TestRun_t := t; TestCaseResult_t := TestCaseResult_t d;
     CriterionResult_t := CriterionResult_t d;
     OptimizationRecord_t := OptimizationRecord_t d;
     CycleRecord_t := CycleRecord_t d |}.
Definition set_TestCaseResult_t (t : list TestCaseResultRow) (d : Database) : Database :=
  {| Agent_t := Agent_t d; TestSuite_t := TestSuite_t d; TestCase_t := TestCase_t d;
     TestRun_t := TestRun_t d; TestCaseResult_t := t;
     CriterionResult_t := CriterionResult_t d;
     OptimizationRecord_t := OptimizationRecord_t d;
     CycleRecord_t := CycleRecord_t d |}.
Definition set_CriterionResult_t (t : list CriterionResultRow) (d : Database) : Database :=
  {| Agent_t := Agent_t d; TestSuite_t := TestSuite_t d; TestCase_t := TestCase_t d;
     TestRun_t := TestRun_t d; TestCaseResult_t := TestCaseResult_t d;
     CriterionResult_t := t;
     OptimizationRecord_t := OptimizationRecord_t d;
     CycleRecord_t := CycleRecord_t d |}.
Definition set_OptimizationRecord_t (t : gmap jsstring OptimizationRecordRow)
  (d : Database) : Database :=
  {| Agent_t := Agent_t d; TestSuite_t := TestSuite_t d; TestCase_t := TestCase_t d;
     TestRun_t := TestRun_t d; TestCaseResult_t := TestCaseResult_t d;
     CriterionResult_t := CriterionResult_t d;
     OptimizationRecord_t := t;
     CycleRecord_t := CycleRecord_t d |}.
Definition set_CycleRecord_t (t : gmap jsstring CycleRecord) (d : Database) : Database :=
  {| Agent_t := Agent_t d; TestSuite_t := TestSuite_t d; TestCase_t := TestCase_t d;
     TestRun_t := TestRun_t d; TestCaseResult_t := TestCaseResult_t d;
     CriterionResult_t := CriterionResult_t d;
     OptimizationRecord_t := OptimizationRecord_t d;
     CycleRecord_t := t |}.

(** Reading and writing the database inside a computation. *)
Definition db : M (World Σ) Database := λ w, (Returned (database w), w).
Definition write_db (f : Database → Database) : M (World Σ) unit :=
  modify_state (λ w, set_database (f (database w)) w).

(** A statement that SQLite refuses throws a [SqliteError], an [Error] with
    the message of SQLite, and writes nothing. A row is checked for its
    [NOT NULL] columns, then for its key, and the foreign keys are checked
    when the statement ends. *)
Inductive Constraint : Type :=
  | NotNullConstraint (column : jsstring)
  | UniqueConstraint (column : jsstring)
  | ForeignKeyConstraint.

Definition SqliteError (c : Constraint) : thrown :=
  ErrorObject
    match c with
    | NotNullConstraint column => lit "NOT NULL constraint failed: " ++ column
    | UniqueConstraint column => lit "UNIQUE constraint failed: " ++ column
    | ForeignKeyConstraint => lit "FOREIGN KEY constraint failed"
    end.

(** The key of [table] is free ([unique]) and the rows it refers to exist
    ([foreign]), or the statement is refused. *)
Definition constrain (table : jsstring) (unique foreign : bool) : M (World Σ) unit :=
  if unique && foreign then mret ()
  else throw (SqliteError (if unique then ForeignKeyConstraint
                           else UniqueConstraint (table ++ lit ".id"))).

(** [uuidv4()]: a fresh identifier. *)
Definition uuid_of (n : nat) : jsstring := lit "uuid-" ++ decimal n.

Definition uuidv4 : M (World Σ) jsstring :=
  λ w, (Returned (uuid_of (uuids w)), set_uuids (S (uuids w)) w).

End world.

(** ** The services *)

Record CycleConfig : Type := {
  agentId : jsstring;
  testSuiteId : jsstring;
  targetThreshold : number;
  maxCycles : Z;
}.

Record StoredOptimizationRecord : Type := {
  sor_id : jsstring;
  sor_testRunId : jsstring;
  sor_agentId : jsstring;
  originalPrompt : jsstring;
  revisedPrompt : jsstring;
  changes : list PromptChange;
  targetedFailures : list jsstring;
  sor_status : OptimizationStatus;
}.

(** The local variables of [runCycleLoop] that live across iterations. *)
Record LoopState : Type := {
  ls_cycleCount : Z;
  ls_currentPassRate : number;
  ls_testRunIds : list jsstring;
  ls_optimizationIds : list jsstring;
}.

(** How an iteration of the [while] loop ends: at the end of its body, or
    at a [return]. *)
Inductive LoopStep : Type :=
  | NextIteration (st : LoopState)
  | ReturnFromLoop.

Definition cycle_status_name (s : CycleStatus) : jsstring :=
  match s with
  | running => lit "running"
  | paused => lit "paused"
  | completed => lit "completed"
  | cancelled => lit "cancelled"
  end.

Definition optimization_status_name (s : OptimizationStatus) : jsstring :=
  match s with
  | generated => lit "generated"
  | accepted => lit "accepted"
  | rejected => lit "rejected"
  end.

(** The message of the [Error] a refused transition throws; 8594 is the
    arrow between the two quoted statuses. *)
Definition transition_error_message (e : TransitionError) : jsstring :=
  match e with
  | InvalidOptimizationTransition c n =>
      lit "Invalid optimization status transition: '" ++ optimization_status_name c
      ++ lit "' " ++ [8594%N] ++ lit " '" ++ optimization_status_name n ++ lit "'"
  | InvalidCycleTransition c n =>
      lit "Invalid cycle status transition: '" ++ cycle_status_name c
      ++ lit "' " ++ [8594%N] ++ lit " '" ++ cycle_status_name n ++ lit "'"
  end.

(** Reading [.currentPrompt] of a row that was not found. *)
Definition TypeError : thrown :=
  ErrorObject (lit "Cannot read properties of undefined (reading 'currentPrompt')").

(** Reading [.message] of a caught [undefined] or [null]. *)
Definition MessageTypeError : thrown :=
  ErrorObject (lit "Cannot read properties of undefined (reading 'message')").
Definition NullMessageTypeError : thrown :=
  ErrorObject (lit "Cannot read properties of null (reading 'message')").

Section services.
Context {Σ : Type} `{!LLMService Σ} `{!AgentApi Σ}.

Definition checked {A} (r : TransitionError + A) : M (World Σ) A :=
  match r with
  | inl e => throw (ErrorObject (transition_error_message e))
  | inr a => mret a
  end.

(** *** Requests on a cycle ([cancelCycle], [pauseCycle], [resumeCycle]) *)

Definition set_flag (cycleId : jsstring) (s : CycleStatus) : M (World Σ) unit :=
  modify_state (λ w, set_stateFlags (<[cycleId := s]> (stateFlags w)) w).

Definition cancelCycle (cycleId : jsstring) : M (World Σ) unit :=
  d ← db;
  match CycleRecord_t d !! cycleId with
  | Some record =>
      _ ← checked (transitionCycleStatus (cyc_status record) cancelled);
      set_flag cycleId cancelled
  | None => mret ()
  end.

Definition pauseCycle (cycleId : jsstring) : M (World Σ) unit :=
  d ← db;
  match CycleRecord_t d !! cycleId with
  | Some record =>
      _ ← checked (transitionCycleStatus (cyc_status record) paused);
      set_flag cycleId paused
  | None => mret ()
  end.

Definition resumeCycle (cycleId : jsstring) : M (World Σ) unit :=
  d ← db;
  match CycleRecord_t d !! cycleId with
  | Some record =>
      _ ← checked (transitionCycleStatus (cyc_status record) running);
      set_flag cycleId running
  | None => mret ()
  end.

(** *** Awaiting a collaborator

    While the loop is suspended in a call to a collaborator the process
    serves the requests that arrive; what a request throws goes to its own
    caller, not to the loop. *)
Definition serve (r : Request) (w : World Σ) : World Σ :=
  match r with
  | CancelRequest cycleId => (cancelCycle cycleId w).2
  | PauseRequest cycleId => (pauseCycle cycleId w).2
  | ResumeRequest cycleId => (resumeCycle cycleId w).2
  end.

Definition arrivals (w : World Σ) : World Σ :=
  match inbox w with
  | [] => w
  | batch :: rest => foldl (λ w r, serve r w) (set_inbox rest w) batch
  end.

Definition await {A} (call : M Σ A) : M (World Σ) A := λ w,
  let '(r, σ) := call (oracle w) in (r, arrivals (set_oracle σ w)).

(** *** Test executor ([services/test-executor.ts]) *)

Definition executeTestCase (testCase : TestCase) (agentPrompt : jsstring)
  : M (World Σ) TestCaseResult :=
  try_catch
    (agentResponses_ ←
       foldM (λ agentResponses_ input,
                response ← await (simulateAgentResponse (ui_utterance input)
                                    agentPrompt (ui_turn input));
                mret (agentResponses_ ++ [response]))
             [] (userInputSequence testCase);
     mret {| testCaseId := tc_id testCase; agentResponses := agentResponses_;
             criterionResults := []; status := case_completed;
             errorMessage := None |})
    (λ err,
       match err with
       | Undefined => throw MessageTypeError
       | Null => throw NullMessageTypeError
       | ErrorObject message | ObjectWithMessage _ message =>
           mret {| testCaseId := tc_id testCase; agentResponses := [];
                   criterionResults := []; status := case_error;
                   errorMessage :=
                     Some (if decide (message = []) then lit "Unknown execution error"
                           else message) |}
       | NotAnError _ =>
           mret {| testCaseId := tc_id testCase; agentResponses := [];
                   criterionResults := []; status := case_error;
                   errorMessage := Some (lit "Unknown execution error") |}
       end).

(** *** Result evaluator ([services/result-evaluator.ts]) *)

Definition synthesized_explanation (criterion : SuccessCriterion) : jsstring :=
  lit "Criterion " ++ dquote ++ description criterion ++ dquote
  ++ lit " was not met by the agent response.".

(** [!result.explanation || result.explanation.trim() === ''] *)
Definition blank_explanation (e : option jsstring) : bool :=
  match e with
  | None => true
  | Some s => bool_decide (s = []) || bool_decide (trim s = [])
  end.

Definition evaluateCriterion (agentResponses_ : list AgentResponse)
  (criterion : SuccessCriterion) : M (World Σ) CriterionResult :=
  let responseText :=
    join_lines ((λ r, lit "Turn " ++ decimal (turn r) ++ lit ": " ++ utterance r)
                <$> agentResponses_) in
  result ← await (llm_evaluateCriterion responseText criterion);
  if negb (passed result) && blank_explanation (explanation result) then
    mret {| criterionId := criterionId result; passed := passed result;
            explanation := Some (synthesized_explanation criterion) |}
  else mret result.

Definition evaluateAllCriteria (agentResponses_ : list AgentResponse)
  (criteria : list SuccessCriterion) : M (World Σ) (list CriterionResult) :=
  foldM (λ results criterion,
           result ← evaluateCriterion agentResponses_ criterion;
           mret (results ++ [result]))
        [] criteria.

(** *** Prompt optimizer ([services/prompt-optimizer.ts]) *)

Definition insert_OptimizationRecord (id_ : jsstring) (row : OptimizationRecordRow)
  : M (World Σ) unit :=
  d ← db;
  _ ← constrain (lit "OptimizationRecord")
        (bool_decide (OptimizationRecord_t d !! id_ = None))
        (bool_decide (is_Some (TestRun_t d !! opt_testRunId row))
         && bool_decide (is_Some (Agent_t d !! opt_agentId row)));
  write_db (λ d, set_OptimizationRecord_t (<[id_ := row]> (OptimizationRecord_t d)) d).

Definition optimizePrompt (testRunId agentId_ originalPrompt_ : jsstring)
  (failures passes : list CriterionResult) : M (World Σ) StoredOptimizationRecord :=
  result ← await (llm_optimizePrompt originalPrompt_ failures passes);
  id_ ← uuidv4;
  _ ← insert_OptimizationRecord id_
        {| opt_testRunId := testRunId; opt_agentId := agentId_;
           opt_originalPrompt := originalPrompt_;
           opt_revisedPrompt := or_revisedPrompt result;
           opt_changes := or_changes result; opt_status := generated |};
  mret {| sor_id := id_; sor_testRunId := testRunId; sor_agentId := agentId_;
          originalPrompt := originalPrompt_;
          revisedPrompt := or_revisedPrompt result;
          changes := or_changes result;
          targetedFailures := or_targetedFailures result;
          sor_status := generated |}.

(** *** Cycle orchestrator ([services/cycle-orchestrator.ts]) *)

(** The writes of the loop, as functions on the state. *)
Definition emitting (cycleId : jsstring) (event : CycleEvent) (w : World Σ) : World Σ :=
  set_emitted (emitted w ++ [(cycleId, event)]) w.

Definition recording (c : Call) (w : World Σ) : World Σ :=
  set_calls (calls w ++ [c]) w.

Definition persisting (cycleId : jsstring) (cycleCount_ : Z)
  (startingPassRate_ endingPassRate_ : number) (status_ : CycleStatus)
  (testRunIds_ optimizationIds_ : list jsstring) (w : World Σ) : World Σ :=
  set_database
    (set_CycleRecord_t
       (alter (λ r, {| cyc_agentId := cyc_agentId r; cycleCount := cycleCount_;
                       startingPassRate := startingPassRate_;
                       endingPassRate := endingPassRate_;
                       cyc_targetThreshold := cyc_targetThreshold r;
                       cyc_maxCycles := cyc_maxCycles r; cyc_status := status_;
                       testRunIds := testRunIds_;
                       optimizationIds := optimizationIds_ |})
              cycleId (CycleRecord_t (database w))) (database w)) w.

(** [UPDATE Agent SET currentPrompt = ? WHERE id = ?] *)
Definition applying (agentId_ revisedPrompt_ : jsstring) (w : World Σ) : World Σ :=
  set_database
    (set_Agent_t
       (alter (λ _, {| currentPrompt := revisedPrompt_ |}) agentId_
              (Agent_t (database w))) (database w)) w.

(** [UPDATE OptimizationRecord SET status = 'accepted' WHERE id = ?] *)
Definition accepting (optimizationId : jsstring) (w : World Σ) : World Σ :=
  set_database
    (set_OptimizationRecord_t
       (alter (λ r, {| opt_testRunId := opt_testRunId r;
                       opt_agentId := opt_agentId r;
                       opt_originalPrompt := opt_originalPrompt r;
                       opt_revisedPrompt := opt_revisedPrompt r;
                       opt_changes := opt_changes r;
                       opt_status := accepted |})
              optimizationId (OptimizationRecord_t (database w))) (database w)) w.

Definition emit (cycleId : jsstring) (event : CycleEvent) : M (World Σ) unit :=
  modify_state (emitting cycleId event).

Definition record_call (c : Call) : M (World Σ) unit :=
  modify_state (recording c).

Definition updateCycleRecord (cycleId : jsstring) (cycleCount_ : Z)
  (startingPassRate_ endingPassRate_ : number) (status_ : CycleStatus)
  (testRunIds_ optimizationIds_ : list jsstring) : M (World Σ) unit :=
  modify_state (persisting cycleId cycleCount_ startingPassRate_ endingPassRate_
                  status_ testRunIds_ optimizationIds_).

Definition getTestCases (testSuiteId_ : jsstring) (d : Database) : list TestCase :=
  snd <$> filter (λ row, row.1 = testSuiteId_) (TestCase_t d).

Definition getResultsForRun (testRunId : jsstring) (d : Database)
  : list CriterionResult * list CriterionResult :=
  let rows :=
    cr ← CriterionResult_t d;
    _ ← filter (λ tcr, crr_testCaseResultId cr = tcr_id tcr
                       ∧ tcr_testRunId tcr = testRunId
                       ∧ tcr_status tcr = case_completed)
               (TestCaseResult_t d);
    [cr] in
  foldl (λ '(failures, passes) r,
           let result := {| criterionId := crr_criterionId r;
                            passed := crr_passed r;
                            explanation := Some (crr_explanation r) |} in
           if passed result then (failures, passes ++ [result])
           else (failures ++ [result], passes))
        ([], []) rows.

Definition insert_TestRun (id_ : jsstring) (row : TestRunRow) : M (World Σ) unit :=
  d ← db;
  _ ← constrain (lit "TestRun")
        (bool_decide (TestRun_t d !! id_ = None))
        (bool_decide (tr_testSuiteId row ∈ TestSuite_t d)
         && bool_decide (is_Some (Agent_t d !! tr_agentId row)));
  write_db (λ d, set_TestRun_t (<[id_ := row]> (TestRun_t d)) d).

Definition insert_TestCaseResult (row : TestCaseResultRow) : M (World Σ) unit :=
  d ← db;
  _ ← constrain (lit "TestCaseResult")
        (bool_decide (tcr_id row ∉ tcr_id <$> TestCaseResult_t d))
        (bool_decide (is_Some (TestRun_t d !! tcr_testRunId row))
         && bool_decide (tcr_testCaseId row ∈ (tc_id ∘ snd) <$> TestCase_t d));
  write_db (λ d, set_TestCaseResult_t (TestCaseResult_t d ++ [row]) d).

Definition insert_CriterionResult (id_ testCaseResultId criterionId_ : jsstring)
  (passed_ : bool) (explanation_ : option jsstring) : M (World Σ) unit :=
  d ← db;
  match explanation_ with
  | None => throw (SqliteError (NotNullConstraint (lit "CriterionResult.explanation")))
  | Some text =>
      _ ← constrain (lit "CriterionResult")
            (bool_decide (id_ ∉ crr_id <$> CriterionResult_t d))
            (bool_decide (testCaseResultId ∈ tcr_id <$> TestCaseResult_t d)
             && bool_decide (criterionId_ ∈
                  sc_id <$> (TestCase_t d ≫= λ row, successCriteria row.2)));
      write_db (λ d,
        set_CriterionResult_t
          (CriterionResult_t d
           ++ [{| crr_id := id_; crr_testCaseResultId := testCaseResultId;
                  crr_criterionId := criterionId_; crr_passed := passed_;
                  crr_explanation := text |}]) d)
  end.

Definition insert_CycleRecord (id_ : jsstring) (row : CycleRecord) : M (World Σ) unit :=
  d ← db;
  _ ← constrain (lit "CycleRecord")
        (bool_decide (CycleRecord_t d !! id_ = None))
        (bool_decide (is_Some (Agent_t d !! cyc_agentId row)));
  write_db (λ d, set_CycleRecord_t (<[id_ := row]> (CycleRecord_t d)) d).

(** The body of the [for (const tc of testCases)] loop of [executeTestRun]. *)
Definition executeTestRun_case (testRunId agentPrompt : jsstring)
  (allResults : list TestCaseResult) (tc : TestCase)
  : M (World Σ) (list TestCaseResult) :=
  result ← executeTestCase tc agentPrompt;
  result ← match status result with
            | case_completed =>
                evaluated ← evaluateAllCriteria (agentResponses result)
                              (successCriteria tc);
                mret {| testCaseId := testCaseId result;
                        agentResponses := agentResponses result;
                        criterionResults := evaluated;
                        status := status result;
                        errorMessage := errorMessage result |}
            | case_error => mret result
            end;
  resultId ← uuidv4;
  _ ← insert_TestCaseResult
        {| tcr_id := resultId; tcr_testRunId := testRunId;
           tcr_testCaseId := tc_id tc;
           tcr_agentResponses := agentResponses result;
           tcr_status := status result;
           tcr_errorMessage := errorMessage result |};
  _ ← foldM (λ _ cr,
               id_ ← uuidv4;
               insert_CriterionResult id_ resultId (criterionId cr)
                 (passed cr) (explanation cr))
            () (criterionResults result);
  mret (allResults ++ [result]).

(** [UPDATE TestRun SET overallPassRate = ?, status = 'completed' WHERE id = ?] *)
Definition complete_TestRun (testRunId : jsstring) (passRate : number)
  : M (World Σ) unit :=
  write_db (λ d,
    set_TestRun_t
      (alter (λ r, {| tr_testSuiteId := tr_testSuiteId r;
                      tr_agentId := tr_agentId r;
                      promptSnapshot := promptSnapshot r;
                      overallPassRate := Some passRate;
                      tr_status := run_completed |})
             testRunId (TestRun_t d)) d).

Definition executeTestRun (config : CycleConfig) : M (World Σ) jsstring :=
  testRunId ← uuidv4;
  d ← db;
  let agent := Agent_t d !! agentId config in
  agentPrompt ← match agent with
                 | Some a => mret (currentPrompt a)
                 | None => throw TypeError
                 end;
  _ ← insert_TestRun testRunId
        {| tr_testSuiteId := testSuiteId config; tr_agentId := agentId config;
           promptSnapshot := agentPrompt; overallPassRate := None;
           tr_status := run_running |};
  d ← db;
  let testCases := getTestCases (testSuiteId config) d in
  allResults ← foldM (executeTestRun_case testRunId agentPrompt) [] testCases;
  let passRate := calculatePassRate allResults in
  _ ← complete_TestRun testRunId passRate;
  mret testRunId.

(** One pass through the body of the [while] loop of [runCycleLoop]. *)
Definition cycle_iteration (cycleId : jsstring) (config : CycleConfig)
  (st : LoopState) : M (World Σ) LoopStep :=
  let startingPassRate_ := Finite 0 in
  w ← get_state;
  let flag := stateFlags w !! cycleId in
  if decide (flag = Some cancelled) then
    _ ← updateCycleRecord cycleId (ls_cycleCount st) startingPassRate_
          (ls_currentPassRate st) cancelled (ls_testRunIds st)
          (ls_optimizationIds st);
    _ ← emit cycleId (finished cancelled None);
    mret ReturnFromLoop
  else if decide (flag = Some paused) then
    _ ← updateCycleRecord cycleId (ls_cycleCount st) startingPassRate_
          (ls_currentPassRate st) paused (ls_testRunIds st)
          (ls_optimizationIds st);
    _ ← emit cycleId (finished paused None);
    mret ReturnFromLoop
  else
    let cycleCount_ := ls_cycleCount st + 1 in
    _ ← emit cycleId (cycle_start cycleCount_);
    _ ← record_call Call_executeTestRun;
    testRunId ← executeTestRun config;
    let testRunIds_ := ls_testRunIds st ++ [testRunId] in
    d ← db;
    let currentPassRate :=
      default (Finite 0) (TestRun_t d !! testRunId ≫= overallPassRate) in
    _ ← emit cycleId (test_run_complete cycleCount_ currentPassRate);
    if number_ge currentPassRate (targetThreshold config) then
      _ ← updateCycleRecord cycleId cycleCount_ startingPassRate_ currentPassRate
            completed testRunIds_ (ls_optimizationIds st);
      _ ← emit cycleId (finished completed (Some currentPassRate));
      mret ReturnFromLoop
    else if bool_decide (cycleCount_ < maxCycles config) then
      d ← db;
      let agent := Agent_t d !! agentId config in
      let '(failures, passes) := getResultsForRun testRunId d in
      if bool_decide (0 < length failures)%nat then
        agentPrompt ← match agent with
                       | Some a => mret (currentPrompt a)
                       | None => throw TypeError
                       end;
        _ ← record_call Call_optimizePrompt;
        optRecord ← optimizePrompt testRunId (agentId config) agentPrompt
                      failures passes;
        let optimizationIds_ := ls_optimizationIds st ++ [sor_id optRecord] in
        _ ← modify_state (applying (agentId config) (revisedPrompt optRecord));
        _ ← modify_state (accepting (sor_id optRecord));
        _ ← emit cycleId (optimization_complete cycleCount_);
        mret (NextIteration {| ls_cycleCount := cycleCount_;
                               ls_currentPassRate := currentPassRate;
                               ls_testRunIds := testRunIds_;
                               ls_optimizationIds := optimizationIds_ |})
      else
        mret (NextIteration {| ls_cycleCount := cycleCount_;
                               ls_currentPassRate := currentPassRate;
                               ls_testRunIds := testRunIds_;
                               ls_optimizationIds := ls_optimizationIds st |})
    else
      mret (NextIteration {| ls_cycleCount := cycleCount_;
                             ls_currentPassRate := currentPassRate;
                             ls_testRunIds := testRunIds_;
                             ls_optimizationIds := ls_optimizationIds st |}).

(** The [while] loop and what follows it. [None] is the loop still running
    when the fuel is spent. *)
Fixpoint cycle_loop (fuel : nat) (cycleId : jsstring) (config : CycleConfig)
  (st : LoopState) (w : World Σ) : option (outcome unit * World Σ) :=
  if bool_decide (ls_cycleCount st < maxCycles config) then
    match fuel with
    | O => None
    | S fuel' =>
        match cycle_iteration cycleId config st w with
        | (Returned (NextIteration st'), w') => cycle_loop fuel' cycleId config st' w'
        | (Returned ReturnFromLoop, w') => Some (Returned (), w')
        | (Threw e, w') => Some (Threw e, w')
        end
    end
  else
    Some ((_ ← updateCycleRecord cycleId (ls_cycleCount st) (Finite 0)
                 (ls_currentPassRate st) completed (ls_testRunIds st)
                 (ls_optimizationIds st);
           emit cycleId (finished completed (Some (ls_currentPassRate st)))) w).

Definition runCycleLoop (fuel : nat) (cycleId : jsstring) (config : CycleConfig)
  : World Σ → option (outcome unit * World Σ) :=
  cycle_loop fuel cycleId config
    {| ls_cycleCount := 0; ls_currentPassRate := Finite 0;
       ls_testRunIds := []; ls_optimizationIds := [] |}.

(** [startCycle] followed by the loop it starts in the background, run to
    its end: an error that escapes the loop is caught and emitted. *)
Definition startCycle (fuel : nat) (config : CycleConfig) (w : World Σ)
  : option (outcome jsstring * World Σ) :=
  match (cycleId ← uuidv4;
         _ ← insert_CycleRecord cycleId
               {| cyc_agentId := agentId config; cycleCount := 0;
                  startingPassRate := Finite 0; endingPassRate := Finite 0;
                  cyc_targetThreshold := targetThreshold config;
                  cyc_maxCycles := maxCycles config; cyc_status := running;
                  testRunIds := []; optimizationIds := [] |};
         _ ← set_flag cycleId running;
         mret cycleId) w with
  | (Threw e, w') => Some (Threw e, w')
  | (Returned cycleId, w') =>
      match runCycleLoop fuel cycleId config w' with
      | None => None
      | Some (Returned _, w'') => Some (Returned cycleId, w'')
      | Some (Threw err, w'') =>
          Some (Returned cycleId,
                match err with
                | ErrorObject message | ObjectWithMessage _ message =>
                    (emit cycleId (error (Some message)) w'').2
                | NotAnError _ => (emit cycleId (error None) w'').2
                | Undefined | Null => w''
                end)
      end
  end.

End services.

(** ** What the loop's callees leave alone *)

Definition request_target (r : Request) : jsstring * CycleStatus :=
  match r with
  | CancelRequest cycleId => (cycleId, cancelled)
  | PauseRequest cycleId => (cycleId, paused)
  | ResumeRequest cycleId => (cycleId, running)
  end.

(** The flag map after a request, given the persisted cycle records. *)
Definition request_flag (records : gmap jsstring CycleRecord)
  (flags : gmap jsstring CycleStatus) (r : Request) : gmap jsstring CycleStatus :=
  match records !! (request_target r).1 with
  | Some record =>
      if cycle_edge (cyc_status record) (request_target r).2
      then <[(request_target r).1 := (request_target r).2]> flags
      else flags
  | None => flags
  end.

(** [quiet w w']: from [w] to [w'] nothing was emitted, no call of the loop
    was recorded, no cycle record was written, and the flags changed only by
    the requests that arrived, a prefix of the inbox. *)
Definition quiet {Σ} (w w' : World Σ) : Prop :=
  CycleRecord_t (database w') = CycleRecord_t (database w)
  ∧ emitted w' = emitted w
  ∧ calls w' = calls w
  ∧ ∃ served, inbox w = served ++ inbox w'
      ∧ stateFlags w' = foldl (request_flag (CycleRecord_t (database w)))
                              (stateFlags w) (concat served).

(** A computation all of whose runs are related by [R]. *)
Definition preserves {St A} (R : relation St) (m : M St A) : Prop :=
  ∀ s, R s (m s).2.

(** [same_runs w w']: the tables of test runs, agents and optimization
    records were not written. *)
Definition same_runs {Σ} (w w' : World Σ) : Prop :=
  TestRun_t (database w') = TestRun_t (database w)
  ∧ Agent_t (database w') = Agent_t (database w)
  ∧ OptimizationRecord_t (database w') = OptimizationRecord_t (database w).

(** The world in which iteration [n] of a cycle calls [executeTestRun]:
    [cycle_start] has been emitted and the call recorded. *)
Definition entering {Σ} (cycleId : jsstring) (n : Z) (w : World Σ) : World Σ :=
  recording Call_executeTestRun (emitting cycleId (cycle_start n) w).

(** [run?.overallPassRate ?? 0] *)
Definition measured {Σ} (testRunId : jsstring) (w : World Σ) : number :=
  default (Finite 0) (TestRun_t (database w) !! testRunId ≫= overallPassRate).

(** The persisted record of a cycle. *)
Definition cycle_record {Σ} (cycleId : jsstring) (w : World Σ) : option CycleRecord :=
  CycleRecord_t (database w) !! cycleId.

(** The world after a [return] of the loop: the record written with
    [status_], then [finished] emitted. *)
Definition finishing {Σ} (cycleId : jsstring) (cycleCount_ : Z) (rate : number)
  (status_ : CycleStatus) (runs opts : list jsstring) (shown : option number)
  (w : World Σ) : World Σ :=
  emitting cycleId (finished status_ shown)
    (persisting cycleId cycleCount_ (Finite 0) rate status_ runs opts w).

(** [steady w w']: no cycle record was written and the flags changed only by
    the requests that arrived in between, [served] batch by batch. *)
Definition steady {Σ} (served : list (list Request)) (w w' : World Σ) : Prop :=
  CycleRecord_t (database w') = CycleRecord_t (database w)
  ∧ inbox w = served ++ inbox w'
  ∧ stateFlags w' = foldl (request_flag (CycleRecord_t (database w)))
                          (stateFlags w) (concat served).

(** The flag of the cycle does not stop the loop at its next check. *)
Definition running_flag {Σ} (cycleId : jsstring) (w : World Σ) : Prop :=
  stateFlags w !! cycleId ≠ Some cancelled ∧ stateFlags w !! cycleId ≠ Some paused.



(** The record [updateCycleRecord] leaves behind. *)
Definition persisted (cycleCount_ : Z) (rate : number) (status_ : CycleStatus)
  (runs opts : list jsstring) (r : CycleRecord) : CycleRecord :=
  {| cyc_agentId := cyc_agentId r; cycleCount := cycleCount_;
     startingPassRate := Finite 0; endingPassRate := rate;
     cyc_targetThreshold := cyc_targetThreshold r;
     cyc_maxCycles := cyc_maxCycles r; cyc_status := status_;
     testRunIds := runs; optimizationIds := opts |}.

(** ** Test doubles and sample data for the concrete runs *)

Definition sample_criteria : list SuccessCriterion :=
  [ {| sc_id := lit "sc-1-1"; description := lit "Greets the caller";
       evaluationPrompt := lit "Does the agent greet?" |};
    {| sc_id := lit "sc-1-2"; description := lit "Asks for the name";
       evaluationPrompt := lit "Does the agent ask for the name?" |} ].

Definition sample_case : TestCase :=
  {| tc_id := lit "tc-1";
     userInputSequence := [ {| ui_turn := 1; ui_utterance := lit "Hello" |} ];
     successCriteria := sample_criteria |}.

Definition sample_database : Database :=
  {| Agent_t := {[ lit "agent-1" := {| currentPrompt := lit "Be nice" |} ]};
     TestSuite_t := [lit "suite-1"];
     TestCase_t := [(lit "suite-1", sample_case)];
     TestRun_t := ∅; TestCaseResult_t := []; CriterionResult_t := [];
     OptimizationRecord_t := ∅; CycleRecord_t := ∅ |}.

Definition sample_world {Σ} (σ : Σ) (requests : list (list Request)) : World Σ :=
  {| oracle := σ; uuids := 0; inbox := requests; database := sample_database;
     stateFlags := ∅; emitted := []; calls := [] |}.

Definition sample_config (T : number) (m : Z) : CycleConfig :=
  {| agentId := lit "agent-1"; testSuiteId := lit "suite-1";
     targetThreshold := T; maxCycles := m |}.

(** A client that fails every criterion, with the given explanation, and
    revises a prompt by appending an exclamation mark. *)
Definition FailingLLM (explanation_ : option jsstring) : LLMService unit := {|
  llm_evaluateCriterion _response criterion :=
    mret {| criterionId := sc_id criterion; passed := false;
            explanation := explanation_ |};
  llm_optimizePrompt original _failures _passes :=
    mret {| or_originalPrompt := original;
            or_revisedPrompt := original ++ lit "!";
            or_changes := []; or_targetedFailures := [] |};
|}.

(** A client whose revision is the original prompt, unchanged. *)
Definition EchoLLM : LLMService unit := {|
  llm_evaluateCriterion _response criterion :=
    mret {| criterionId := sc_id criterion; passed := false; explanation := None |};
  llm_optimizePrompt original _failures _passes :=
    mret {| or_originalPrompt := original; or_revisedPrompt := original;
            or_changes := []; or_targetedFailures := [] |};
|}.

(** The sample database after one completed test run [run-1]. *)
Definition sample_database_with_run : Database :=
  set_TestRun_t
    {[ lit "run-1" := {| tr_testSuiteId := lit "suite-1"; tr_agentId := lit "agent-1";
                         promptSnapshot := lit "Be nice";
                         overallPassRate := Some (Finite 0);
                         tr_status := run_completed |} ]}
    sample_database.

Definition sample_failure : CriterionResult :=
  {| criterionId := lit "sc-1-1"; passed := false;
     explanation := Some (lit "The agent did not greet the caller.") |}.

(** The sample database with the record of a cycle [cycle-1] that has just
    been started. *)
Definition sample_cycle_record (T : number) (m : Z) : CycleRecord :=
  {| cyc_agentId := lit "agent-1"; cycleCount := 0; startingPassRate := Finite 0;
     endingPassRate := Finite 0; cyc_targetThreshold := T; cyc_maxCycles := m;
     cyc_status := running; testRunIds := []; optimizationIds := [] |}.

Definition started_world {Σ} (σ : Σ) (T : number) (m : Z)
  (requests : list (list Request)) : World Σ :=
  {| oracle := σ; uuids := 0; inbox := requests;
     database := set_CycleRecord_t {[ lit "cycle-1" := sample_cycle_record T m ]}
                   sample_database;
     stateFlags := {[ lit "cycle-1" := running ]}; emitted := []; calls := [] |}.

(** The claim on identical revisions, as the specification states it: with
    a non-empty list of failures, a client revision equal to the original
    makes [optimizePrompt] throw. *)
Definition rejects_identical_revision : Prop :=
  ∀ (Σ : Type) (llm : LLMService Σ)
    (testRunId agentId_ originalPrompt_ : jsstring)
    (failures passes : list CriterionResult) (w : World Σ)
    (result : OptimizationResult) (σ' : Σ),
    failures ≠ [] →
    llm_optimizePrompt originalPrompt_ failures passes (oracle w) = (Returned result, σ') →
    or_revisedPrompt result = originalPrompt_ →
    ∃ e w', optimizePrompt testRunId agentId_ originalPrompt_ failures passes w
            = (Threw e, w').

(** The claim on cancellation, as the specification states it: if a cancel
    request for a running cycle arrives during an iteration, the record the
    loop finally persists has status [cancelled]. *)
Definition cancel_always_persists_cancelled : Prop :=
  ∀ (Σ : Type) (llm : LLMService Σ) (agent : AgentApi Σ)
    (fuel : nat) (cycleId : jsstring) (config : CycleConfig) (st : LoopState)
    (w w1 w' : World Σ) (step : LoopStep) (record : CycleRecord)
    (served : list (list Request)),
    ls_cycleCount st < maxCycles config →
    cycle_record cycleId w = Some record →
    cyc_status record = running →
    running_flag cycleId w →
    cycle_iteration cycleId config st w = (Returned step, w1) →
    inbox w = served ++ inbox w1 →
    CancelRequest cycleId ∈ concat served →
    PauseRequest cycleId ∉ concat served →
    cycle_loop fuel cycleId config st w = Some (Returned (), w') →
    cyc_status <$> cycle_record cycleId w' = Some cancelled.


(** Two timeouts, then an answer: three attempts, sleeps of 1000 and 2000. *)
Definition flaky_outcomes (a : nat) : thrown + nat :=
  if bool_decide (a < 2)%nat then inl (ErrorObject (lit "timeout")) else inr 42%nat.


(** A world with the sample database after the test run [run-1]. *)
Definition world_after_run {Σ} (σ : Σ) : World Σ :=
  {| oracle := σ; uuids := 0; inbox := []; database := sample_database_with_run;
     stateFlags := ∅; emitted := []; calls := [] |}.

(** An explanation is blank when it is missing or made of white space only. *)
Definition whitespace_only (s : jsstring) : Prop :=
  Forall (λ c, isWhiteSpace c = true) s.

(** What a finished loop leaves to be seen of a cycle: how it ended, the
    flag, the persisted status and count, the events and the calls. *)
Definition cycle_outcome {Σ} (cycleId : jsstring)
  (r : option (outcome unit * World Σ))
  : option (outcome unit * option CycleStatus * option CycleStatus * option Z
            * list (jsstring * CycleEvent) * list Call) :=
  match r with
  | Some (res, w') =>
      Some (res, stateFlags w' !! cycleId, cyc_status <$> cycle_record cycleId w',
            cycleCount <$> cycle_record cycleId w', emitted w', calls w')
  | None => None
  end.

(** ** Further definitions for the properties of the code *)

(** Sample results for the pass rate. *)
Definition sample_passing_result : TestCaseResult :=
  {| testCaseId := lit "case-1"; agentResponses := [];
     criterionResults :=
       [{| criterionId := lit "crit-1"; passed := true;
           explanation := Some (lit "ok") |}];
     status := case_completed; errorMessage := None |}.

Definition sample_error_result : TestCaseResult :=
  {| testCaseId := lit "case-2"; agentResponses := [];
     criterionResults :=
       [{| criterionId := lit "crit-2"; passed := false;
           explanation := Some (lit "never evaluated") |}];
     status := case_error; errorMessage := Some (lit "agent unreachable") |}.

(** A [sleepFn] that is recorded and then throws. *)
Definition failing_sleep (e : thrown) (ms : Z) : M (list RetryEvent) unit :=
  λ log, (Threw e, log ++ [Slept ms]).

(** The milliseconds slept in a log. *)
Fixpoint total_slept (log : list RetryEvent) : Z :=
  match log with
  | [] => 0
  | Attempted _ :: log' => total_slept log'
  | Slept ms :: log' => ms + total_slept log'
  end.

Definition always_failing (a : nat) : thrown + nat :=
  inl (ErrorObject (lit "rate limited")).

(** What the two loops of [buildLCS] establish of the table: the first row
    and the first column hold 0, and every other cell within [i0] rows (all
    of them when [i0] exceeds the number of rows) holds what was assigned to
    it, given the cells it was computed from. [filled i0 j0 i j] says that
    cell [(i, j)] has been assigned when the loops are about to assign
    [(i0, j0)]. *)
Definition filled (i0 j0 i j : nat) : Prop :=
  (i < i0 ∨ (i = i0 ∧ j < j0))%nat.

Definition lcs_table_upto (a b : list jsstring) (dp : list (list nat))
  (i0 j0 : nat) : Prop :=
  (∀ i, (i ≤ length a)%nat →
        ∃ row, dp !! i = Some row ∧ length row = (length b + 1)%nat)
  ∧ (∀ i j, (i = 0 ∨ j = 0)%nat → dp_get dp i j = 0%nat)
  ∧ (∀ i j, (1 ≤ i ≤ length a)%nat → (1 ≤ j ≤ length b)%nat → filled i0 j0 i j →
            dp_get dp i j = lcs_cell a b dp i j).

(** The contents of the [context] entries of a change list, and its edits. *)
Definition context_side (changes : list DiffChange) : list jsstring :=
  content <$> filter (λ c, type c = context) changes.

Definition edits (changes : list DiffChange) : list DiffChange :=
  filter (λ c, type c ≠ context) changes.

(** The line number of an entry, given where the loop stood when it started
    and what it had emitted before the entry. *)
Definition numbered_from (oi ri : nat) (out : list DiffChange) : Prop :=
  ∀ k c, out !! k = Some c →
    lineNumber c
    = match type c with
      | removed => S (oi + length (original_side (take k out)))
      | _ => S (ri + length (revised_side (take k out)))
      end.

(** Two prompts that differ in their second and third lines. *)
Definition sample_original : jsstring :=
  lit "Be nice" ++ [newline] ++ lit "Be brief" ++ [newline] ++ lit "Say goodbye".

Definition sample_revised : jsstring :=
  lit "Be nice" ++ [newline] ++ lit "Ask for the name" ++ [newline]
  ++ lit "Say goodbye" ++ [newline] ++ lit "Hang up".

(** The status asked for by the last cancel or pause request for a cycle in
    a list of requests, if there is one. *)
Definition stop_step (cycleId : jsstring) (acc : option CycleStatus) (r : Request)
  : option CycleStatus :=
  match r with
  | CancelRequest id_ => if decide (id_ = cycleId) then Some cancelled else acc
  | PauseRequest id_ => if decide (id_ = cycleId) then Some paused else acc
  | ResumeRequest _ => acc
  end.

Definition last_stop (cycleId : jsstring) (requests : list Request)
  : option CycleStatus :=
  foldl (stop_step cycleId) None requests.

(** What the local variables of [runCycleLoop] and the database have in
    common at the top of every iteration: the counter counts the test runs,
    which are distinct, completed runs of the configured agent and suite;
    the optimizations are distinct, accepted and at most as many as the
    runs, and fewer once the cap is reached; the current pass rate is that
    of the last run, a number between 0 and 1. *)
Definition loop_invariant {Σ} (config : CycleConfig) (st : LoopState) (w : World Σ)
  : Prop :=
  ls_cycleCount st = Z.of_nat (length (ls_testRunIds st))
  ∧ ls_cycleCount st ≤ Z.max 0 (maxCycles config)
  ∧ (length (ls_optimizationIds st) ≤ length (ls_testRunIds st))%nat
  ∧ (maxCycles config ≤ ls_cycleCount st → ls_testRunIds st ≠ [] →
     (length (ls_optimizationIds st) < length (ls_testRunIds st))%nat)
  ∧ (∃ q, ls_currentPassRate st = Finite q ∧ (0 <= q)%Q ∧ (q <= 1)%Q)
  ∧ match last (ls_testRunIds st) with
    | Some testRunId =>
        ∃ row, TestRun_t (database w) !! testRunId = Some row
               ∧ overallPassRate row = Some (ls_currentPassRate st)
    | None => ls_currentPassRate st = Finite 0
    end
  ∧ NoDup (ls_testRunIds st) ∧ NoDup (ls_optimizationIds st)
  ∧ Forall (λ testRunId,
              ∃ row, TestRun_t (database w) !! testRunId = Some row
                     ∧ tr_status row = run_completed
                     ∧ tr_agentId row = agentId config
                     ∧ tr_testSuiteId row = testSuiteId config)
           (ls_testRunIds st)
  ∧ Forall (λ optimizationId,
              ∃ row, OptimizationRecord_t (database w) !! optimizationId = Some row
                     ∧ opt_status row = accepted
                     ∧ opt_agentId row = agentId config
                     ∧ opt_testRunId row ∈ ls_testRunIds st)
           (ls_optimizationIds st).


(** A client that is down: every call throws. *)
Definition ThrowingLLM : LLMService unit := {|
  llm_evaluateCriterion _response _criterion :=
    throw (ErrorObject (lit "LLM unavailable"));
  llm_optimizePrompt _original _failures _passes :=
    throw (ErrorObject (lit "LLM unavailable"));
|}.

Definition initial_state : LoopState :=
  {| ls_cycleCount := 0; ls_currentPassRate := Finite 0;
     ls_testRunIds := []; ls_optimizationIds := [] |}.

(** [same_tables w w']: the database was not written and no identifier was
    drawn. *)
Definition same_tables {Σ} (w w' : World Σ) : Prop :=
  database w' = database w ∧ uuids w' = uuids w.

(** The share of passed rows among criterion result rows, 0 for none. *)
Definition rows_pass_rate (rows : list CriterionResultRow) : number :=
  if decide (length rows = 0%nat) then Finite 0
  else number_div (number_of_nat (length (filter (λ c, crr_passed c = true) rows)))
                  (number_of_nat (length rows)).

(** A criterion result and the row it is stored in. *)
Definition stored_as (cr : CriterionResult) (row : CriterionResultRow) : Prop :=
  crr_criterionId row = criterionId cr ∧ crr_passed row = passed cr
  ∧ explanation cr = Some (crr_explanation row).

(** A criterion result that came out of [evaluateCriterion]. *)
Definition evaluated {Σ} `{!LLMService Σ} (cr : CriterionResult) : Prop :=
  ∃ agentResponses_ criterion (wa wb : World Σ),
    evaluateCriterion agentResponses_ criterion wa = (Returned cr, wb).

(** What a test case and the result of running it have in common. *)
Definition result_of (tc : TestCase) (r : TestCaseResult) : Prop :=
  testCaseId r = tc_id tc
  ∧ match status r with
    | case_completed => length (criterionResults r) = length (successCriteria tc)
    | case_error => criterionResults r = []
    end.

(** A result and the row it is stored in. *)
Definition case_stored_as (testRunId : jsstring) (r : TestCaseResult)
  (row : TestCaseResultRow) : Prop :=
  tcr_testRunId row = testRunId ∧ tcr_testCaseId row = testCaseId r
  ∧ tcr_status row = status r.

(** ** The HTTP routes ([routes/optimize.ts], [routes/cycles.ts])

    A handler is a computation that ends with the response it sent; a
    handler that throws has sent none. Request parameters are strings, or
    missing. *)

Inductive ResponseBody : Type :=
  | ErrorJson (code message_ : jsstring) (retryable : bool)
  | OptimizationJson (record : StoredOptimizationRecord) (diff : list DiffChange)
  | AppliedJson (id_ : jsstring) (status_ : OptimizationStatus) (agentId_ : jsstring)
  | CycleStatusJson (id_ : jsstring) (status_ : CycleStatus).

Record Response : Type := {
  statusCode : Z;
  body : ResponseBody;
}.

(** [computeDiff] as the routes call it; the fuel is always enough. *)
Definition diff_of (original revised : jsstring) : list DiffChange :=
  default [] (computeDiff (diff_fuel original revised) original revised).

Section routes.
Context {Σ : Type} `{!LLMService Σ} `{!AgentApi Σ}.

(** [`${err.message}`] in a [catch (err: any)] block. *)
Definition error_message (err : thrown) : M (World Σ) jsstring :=
  match err with
  | ErrorObject message_ | ObjectWithMessage _ message_ => mret message_
  | NotAnError _ => mret (lit "undefined")
  | Undefined => throw MessageTypeError
  | Null => throw NullMessageTypeError
  end.

Definition errorResponse (status_ : Z) (code message_ : jsstring) (retryable : bool)
  : Response :=
  {| statusCode := status_; body := ErrorJson code message_ retryable |}.

(** [POST /api/optimize]. The rows are gathered by the statement and the
    loop of [getResultsForRun], which the route repeats. *)
Definition post_optimize (testRunId agentId_ : option jsstring)
  : M (World Σ) Response :=
  try_catch
    (match testRunId, agentId_ with
     | Some testRunId, Some agentId_ =>
         if bool_decide (testRunId = []) || bool_decide (agentId_ = []) then
           mret (errorResponse 400 (lit "INVALID_INPUT")
                   (lit "testRunId and agentId are required") false)
         else
           d ← db;
           match TestRun_t d !! testRunId with
           | None =>
               mret (errorResponse 404 (lit "TEST_RUN_NOT_FOUND")
                       (lit "Test run '" ++ testRunId ++ lit "' not found") false)
           | Some run =>
               match Agent_t d !! agentId_ with
               | None =>
                   mret (errorResponse 404 (lit "AGENT_NOT_FOUND")
                           (lit "Agent '" ++ agentId_ ++ lit "' not found") false)
               | Some agent =>
                   let '(failures, passes) := getResultsForRun testRunId d in
                   if bool_decide (length failures = 0%nat) then
                     mret (errorResponse 400 (lit "NO_FAILURES")
                             (lit "No failed criteria to optimize against") false)
                   else
                     record ← optimizePrompt testRunId agentId_ (currentPrompt agent)
                                failures passes;
                     let diff := diff_of (originalPrompt record) (revisedPrompt record) in
                     mret {| statusCode := 201; body := OptimizationJson record diff |}
               end
           end
     | _, _ =>
         mret (errorResponse 400 (lit "INVALID_INPUT")
                 (lit "testRunId and agentId are required") false)
     end)
    (λ err,
       message_ ← error_message err;
       mret (errorResponse 500 (lit "OPTIMIZATION_FAILED")
               (lit "Optimization failed: " ++ message_) true)).

(** [POST /api/optimize/:id/apply] *)
Definition post_apply (id_ : jsstring) : M (World Σ) Response :=
  try_catch
    (d ← db;
     match OptimizationRecord_t d !! id_ with
     | None =>
         mret (errorResponse 404 (lit "OPTIMIZATION_NOT_FOUND")
                 (lit "Optimization record '" ++ id_ ++ lit "' not found") false)
     | Some record =>
         match transitionOptimizationStatus (opt_status record) accepted with
         | inl e =>
             mret (errorResponse 400 (lit "INVALID_TRANSITION")
                     (transition_error_message e) false)
         | inr _ =>
             _ ← modify_state (applying (opt_agentId record) (opt_revisedPrompt record));
             _ ← modify_state (accepting id_);
             mret {| statusCode := 200;
                     body := AppliedJson id_ accepted (opt_agentId record) |}
         end
     end)
    (λ err,
       message_ ← error_message err;
       mret (errorResponse 500 (lit "APPLY_FAILED")
               (lit "Failed to apply optimization: " ++ message_) true)).

(** [POST /api/cycles/:id/cancel] *)
Definition post_cancel (id_ : jsstring) : M (World Σ) Response :=
  try_catch
    (d ← db;
     match CycleRecord_t d !! id_ with
     | None =>
         mret (errorResponse 404 (lit "CYCLE_NOT_FOUND")
                 (lit "Cycle '" ++ id_ ++ lit "' not found") false)
     | Some _ =>
         _ ← cancelCycle id_;
         mret {| statusCode := 200; body := CycleStatusJson id_ cancelled |}
     end)
    (λ err,
       message_ ← error_message err;
       mret (errorResponse 500 (lit "CYCLE_CANCEL_FAILED")
               (lit "Failed to cancel cycle: " ++ message_) true)).

End routes.

(** ** Before/after comparison ([services/comparison-builder.ts]) *)

Record RunCriterion : Type := {
  rc_criterionId : jsstring;
  rc_passed : bool;
  rc_description : jsstring;
}.

Record CriterionChange : Type := {
  cc_criterionId : jsstring;
  cc_description : jsstring;
  previousPassed : bool;
  currentPassed : bool;
}.

(** The criterion results of the completed test cases of a run, each joined
    with the description of its criterion. *)
Definition getCriterionResultsForRun (testRunId : jsstring) (d : Database)
  : list RunCriterion :=
  cr ← CriterionResult_t d;
  _ ← filter (λ tcr, crr_testCaseResultId cr = tcr_id tcr
                     ∧ tcr_testRunId tcr = testRunId
                     ∧ tcr_status tcr = case_completed)
             (TestCaseResult_t d);
  sc ← filter (λ sc, crr_criterionId cr = sc_id sc)
              (TestCase_t d ≫= λ row, successCriteria row.2);
  [{| rc_criterionId := crr_criterionId cr; rc_passed := crr_passed cr;
      rc_description := description sc |}].

(** The map of [computeChanges]: criterion id to [passed], a later result
    overwriting an earlier one. *)
Definition firstMap_of (firstResults : list RunCriterion) : gmap jsstring bool :=
  foldl (λ m r, <[rc_criterionId r := rc_passed r]> m) ∅ firstResults.

Definition improvement_of (r : RunCriterion) : CriterionChange :=
  {| cc_criterionId := rc_criterionId r; cc_description := rc_description r;
     previousPassed := false; currentPassed := true |}.

Definition regression_of (r : RunCriterion) : CriterionChange :=
  {| cc_criterionId := rc_criterionId r; cc_description := rc_description r;
     previousPassed := true; currentPassed := false |}.

(** [testRuns] are the ids of the runs, oldest first. *)
Definition computeChanges (testRuns : list jsstring) (d : Database)
  : list CriterionChange * list CriterionChange :=
  if bool_decide (length testRuns < 2)%nat then ([], [])
  else
    let firstRun := default [] (testRuns !! 0%nat) in
    let lastRun := default [] (testRuns !! (length testRuns - 1)%nat) in
    let firstResults := getCriterionResultsForRun firstRun d in
    let lastResults := getCriterionResultsForRun lastRun d in
    let firstMap := firstMap_of firstResults in
    foldl (λ '(improvements, regressions) r,
             match firstMap !! rc_criterionId r with
             | None => (improvements, regressions)
             | Some prev =>
                 if negb prev && rc_passed r then
                   (improvements ++ [improvement_of r], regressions)
                 else if prev && negb (rc_passed r) then
                   (improvements, regressions ++ [regression_of r])
                 else (improvements, regressions)
             end)
          ([], []) lastResults.

(** The verdict of the first run that the comparison uses for a criterion:
    that of its last result in the run. *)
Definition first_verdict (firstResults : list RunCriterion) (criterionId_ : jsstring)
  : option bool :=
  rc_passed <$> last (filter (λ r, rc_criterionId r = criterionId_) firstResults).

(** Two runs of the sample suite: the greeting fails in [run-a] and passes
    in [run-b], asking for the name passes in [run-a] and fails in [run-b]. *)
Definition comparison_database : Database :=
  set_CriterionResult_t
    [ {| crr_id := lit "cr-1"; crr_testCaseResultId := lit "res-a";
         crr_criterionId := lit "sc-1-1"; crr_passed := false;
         crr_explanation := lit "no greeting" |};
      {| crr_id := lit "cr-2"; crr_testCaseResultId := lit "res-a";
         crr_criterionId := lit "sc-1-2"; crr_passed := true;
         crr_explanation := lit "asked" |};
      {| crr_id := lit "cr-3"; crr_testCaseResultId := lit "res-b";
         crr_criterionId := lit "sc-1-1"; crr_passed := true;
         crr_explanation := lit "greeted" |};
      {| crr_id := lit "cr-4"; crr_testCaseResultId := lit "res-b";
         crr_criterionId := lit "sc-1-2"; crr_passed := false;
         crr_explanation := lit "did not ask" |} ]
    (set_TestCaseResult_t
       [ {| tcr_id := lit "res-a"; tcr_testRunId := lit "run-a";
            tcr_testCaseId := lit "tc-1"; tcr_agentResponses := [];
            tcr_status := case_completed; tcr_errorMessage := None |};
         {| tcr_id := lit "res-b"; tcr_testRunId := lit "run-b";
            tcr_testCaseId := lit "tc-1"; tcr_agentResponses := [];
            tcr_status := case_completed; tcr_errorMessage := None |} ]
       sample_database).

(** ** Reading an optimization record back ([services/prompt-optimizer.ts]) *)

Definition mapRow (id_ : jsstring) (row : OptimizationRecordRow)
  : StoredOptimizationRecord :=
  {| sor_id := id_; sor_testRunId := opt_testRunId row;
     sor_agentId := opt_agentId row; originalPrompt := opt_originalPrompt row;
     revisedPrompt := opt_revisedPrompt row; changes := opt_changes row;
     targetedFailures := []; sor_status := opt_status row |}.

Definition getOptimizationRecord (id_ : jsstring) (d : Database)
  : option StoredOptimizationRecord :=
  mapRow id_ <$> OptimizationRecord_t d !! id_.

(** The response of the executor's [simulateAgentResponse] to an input. *)
Definition mock_response (input : UserInput) : AgentResponse :=
  {| turn := ui_turn input;
     utterance := lit "[Mock agent response to " ++ dquote ++ ui_utterance input
                  ++ dquote ++ lit " based on prompt]" |}.

(** ** Starting a cycle over HTTP ([routes/cycles.ts]) *)

Section cycle_routes.
Context {Σ : Type} `{!LLMService Σ} `{!AgentApi Σ}.

(** [POST /api/cycles]. The loop that [startCycle] leaves running in the
    background is run to its end here, as in [startCycle]; the answer does
    not depend on it. *)
Definition post_cycles (fuel : nat) (agentId_ testSuiteId_ : option jsstring)
  (targetThreshold_ : option number) (maxCycles_ : option Z) (w : World Σ)
  : option (outcome Response * World Σ) :=
  let failed err :=
    (message_ ← error_message err;
     mret (errorResponse 500 (lit "CYCLE_START_FAILED")
             (lit "Failed to start cycle: " ++ message_) true)) in
  match agentId_, testSuiteId_ with
  | Some agentId_, Some testSuiteId_ =>
      if bool_decide (agentId_ = []) || bool_decide (testSuiteId_ = []) then
        Some (Returned (errorResponse 400 (lit "INVALID_INPUT")
                          (lit "agentId and testSuiteId are required") false), w)
      else
        match Agent_t (database w) !! agentId_ with
        | None =>
            Some (Returned (errorResponse 404 (lit "AGENT_NOT_FOUND")
                              (lit "Agent '" ++ agentId_ ++ lit "' not found") false), w)
        | Some _ =>
            if bool_decide (testSuiteId_ ∈ TestSuite_t (database w)) then
              match startCycle fuel
                      {| agentId := agentId_; testSuiteId := testSuiteId_;
                         targetThreshold := default (Finite (9 # 10)) targetThreshold_;
                         maxCycles := default 5 maxCycles_ |} w with
              | None => None
              | Some (Returned cycleId, w') =>
                  Some (Returned {| statusCode := 201;
                                    body := CycleStatusJson cycleId running |}, w')
              | Some (Threw err, w') => Some (failed err w')
              end
            else
              Some (Returned (errorResponse 404 (lit "TEST_SUITE_NOT_FOUND")
                                (lit "Test suite '" ++ testSuiteId_ ++ lit "' not found")
                                false), w)
        end
  | _, _ =>
      Some (Returned (errorResponse 400 (lit "INVALID_INPUT")
                        (lit "agentId and testSuiteId are required") false), w)
  end.

End cycle_routes.

(** The criterion result that [getResultsForRun] builds from a row. *)
Definition row_result (r : CriterionResultRow) : CriterionResult :=
  {| criterionId := crr_criterionId r; passed := crr_passed r;
     explanation := Some (crr_explanation r) |}.

(** The rows selected by the statement of [getResultsForRun]: the criterion
    rows of the completed results of the run. *)
Definition selected_for (testRunId : jsstring) (d : Database) (r : CriterionResultRow)
  : Prop :=
  r ∈ CriterionResult_t d
  ∧ ∃ tcr, tcr ∈ TestCaseResult_t d ∧ crr_testCaseResultId r = tcr_id tcr
           ∧ tcr_testRunId tcr = testRunId ∧ tcr_status tcr = case_completed.

(** ** Event listeners ([services/cycle-orchestrator.ts])

    A listener is a function value, compared by identity; [L] is the type of
    those identities. The registry maps a cycle to the array of its
    listeners. *)

Section listeners.
Context {L : Type} `{EqDecision L}.

Definition addEventListener (cycleId : jsstring) (listener : L)
  (ls : gmap jsstring (list L))
  : gmap jsstring (list L) :=
  let existing := default [] (ls !! cycleId) in
  <[cycleId := existing ++ [listener]]> ls.

Definition removeEventListener (cycleId : jsstring) (listener : L)
  (ls : gmap jsstring (list L))
  : gmap jsstring (list L) :=
  let existing := default [] (ls !! cycleId) in
  <[cycleId := filter (λ l, l ≠ listener) existing]> ls.

(** The calls [listener(event)] that [emit] makes, in order. *)
Definition emit_calls (cycleId : jsstring) (event : CycleEvent)
  (ls : gmap jsstring (list L))
  : list (L * CycleEvent) :=
  (λ listener, (listener, event)) <$> default [] (ls !! cycleId).

Inductive Registration : Type :=
  | Added (cycleId : jsstring) (listener : L)
  | Removed (cycleId : jsstring) (listener : L).

#[export] Instance Registration_eq_dec : EqDecision Registration.
Proof. solve_decision. Defined.

Definition register (ls : gmap jsstring (list L)) (r : Registration)
  : gmap jsstring (list L) :=
  match r with
  | Added cycleId listener => addEventListener cycleId listener ls
  | Removed cycleId listener => removeEventListener cycleId listener ls
  end.

(** How often [emit] calls [listener] for one event of [cycleId]. *)
Definition calls_to (cycleId : jsstring) (listener : L)
  (ls : gmap jsstring (list L))
  : nat :=
  length (filter (λ call, call.1 = listener)
            (emit_calls cycleId (cycle_start 0) ls)).

End listeners.

(** ** Validating generated test cases ([services/test-generator.ts])

    The test cases come out of the client as parsed JSON: a field that
    should hold a string holds one or is missing, and a field that should
    hold an array holds one or something that is not an array. *)

Record GeneratedCriterion : Type := {
  gen_description : option jsstring;
  gen_category : option jsstring;
  gen_evaluationPrompt : option jsstring;
}.

Record GeneratedTestCase : Type := {
  gen_scenarioDescription : option jsstring;
  gen_scenarioType : option jsstring;
  gen_userInputSequence : option (list UserInput);
  gen_successCriteria : option (list GeneratedCriterion);
}.

Definition VALID_CATEGORIES : list jsstring :=
  [lit "behavioral"; lit "functional"; lit "compliance"].
Definition VALID_SCENARIO_TYPES : list jsstring := [lit "happy-path"; lit "adversarial"].
Definition MIN_TEST_CASES : nat := 5.

(** [Array.prototype.join] on strings. *)
Fixpoint join (separator : jsstring) (l : list jsstring) : jsstring :=
  match l with
  | [] => []
  | [s] => s
  | s :: rest => s ++ separator ++ join separator rest
  end.

(** A string field in a template literal. *)
Definition interpolated (field : option jsstring) : jsstring :=
  default (lit "undefined") field.

(** [array.includes(field)] for an array of strings. *)
Definition includes (array : list jsstring) (field : option jsstring) : bool :=
  match field with
  | Some s => bool_decide (s ∈ array)
  | None => false
  end.

(** A [for ... of] loop whose body may throw. *)
Fixpoint for_of {A} (body : A → thrown + unit) (l : list A) : thrown + unit :=
  match l with
  | [] => inr ()
  | x :: rest =>
      match body x with
      | inl e => inl e
      | inr _ => for_of body rest
      end
  end.

Definition validate_criterion (sc : GeneratedCriterion) : thrown + unit :=
  if negb (includes VALID_CATEGORIES (gen_category sc)) then
    inl (ErrorObject (lit "Invalid criterion category " ++ dquote
                      ++ interpolated (gen_category sc) ++ dquote
                      ++ lit ". Must be one of: "
                      ++ join (lit ", ") VALID_CATEGORIES))
  else if blank_explanation (gen_evaluationPrompt sc) then
    inl (ErrorObject (lit "Each success criterion must have a non-empty evaluationPrompt"))
  else inr ().

Definition validate_test_case (tc : GeneratedTestCase) : thrown + unit :=
  if blank_explanation (gen_scenarioDescription tc) then
    inl (ErrorObject (lit "Each test case must have a non-empty scenarioDescription"))
  else if negb (includes VALID_SCENARIO_TYPES (gen_scenarioType tc)) then
    inl (ErrorObject (lit "Invalid scenarioType " ++ dquote
                      ++ interpolated (gen_scenarioType tc) ++ dquote
                      ++ lit ". Must be one of: "
                      ++ join (lit ", ") VALID_SCENARIO_TYPES))
  else
    match gen_userInputSequence tc with
    | None | Some [] =>
        inl (ErrorObject (lit "Each test case must have a non-empty userInputSequence"))
    | Some _ =>
        match gen_successCriteria tc with
        | None | Some [] =>
            inl (ErrorObject
                   (lit "Each test case must have at least one success criterion"))
        | Some criteria => for_of validate_criterion criteria
        end
    end.

Definition some {A} (p : A → bool) (l : list A) : bool := existsb p l.

Definition validateAndNormalize (testCases : option (list GeneratedTestCase))
  : thrown + list GeneratedTestCase :=
  match testCases with
  | None =>
      inl (ErrorObject (lit "Test generation must produce at least "
                        ++ decimal MIN_TEST_CASES ++ lit " test cases, got "
                        ++ decimal 0))
  | Some testCases =>
      if bool_decide (length testCases < MIN_TEST_CASES)%nat then
        inl (ErrorObject (lit "Test generation must produce at least "
                          ++ decimal MIN_TEST_CASES ++ lit " test cases, got "
                          ++ decimal (length testCases)))
      else
        let hasHappyPath :=
          some (λ tc, bool_decide (gen_scenarioType tc = Some (lit "happy-path")))
               testCases in
        let hasAdversarial :=
          some (λ tc, bool_decide (gen_scenarioType tc = Some (lit "adversarial")))
               testCases in
        if negb hasHappyPath || negb hasAdversarial then
          inl (ErrorObject
                 (lit "Test cases must include both happy-path and adversarial scenarios"))
        else
          match for_of validate_test_case testCases with
          | inl e => inl e
          | inr _ => inr testCases
          end
  end.

(** A string field that is there and has more in it than white space. *)
Definition has_text (field : option jsstring) : Prop :=
  ∃ s, field = Some s ∧ ¬ whitespace_only s.

Definition valid_criterion (sc : GeneratedCriterion) : Prop :=
  (∃ category, gen_category sc = Some category ∧ category ∈ VALID_CATEGORIES)
  ∧ has_text (gen_evaluationPrompt sc).

Definition valid_test_case (tc : GeneratedTestCase) : Prop :=
  has_text (gen_scenarioDescription tc)
  ∧ (∃ type_, gen_scenarioType tc = Some type_ ∧ type_ ∈ VALID_SCENARIO_TYPES)
  ∧ (∃ inputs, gen_userInputSequence tc = Some inputs ∧ inputs ≠ [])
  ∧ (∃ criteria, gen_successCriteria tc = Some criteria ∧ criteria ≠ []
                 ∧ Forall valid_criterion criteria).

Definition generated_case (description_ type_ : jsstring) : GeneratedTestCase :=
  {| gen_scenarioDescription := Some description_; gen_scenarioType := Some type_;
     gen_userInputSequence := Some [{| ui_turn := 1; ui_utterance := lit "Hello" |}];
     gen_successCriteria :=
       Some [{| gen_description := Some (lit "Greets the caller");
                gen_category := Some (lit "behavioral");
                gen_evaluationPrompt := Some (lit "Did the agent greet?") |}] |}.

Definition generated_suite : list GeneratedTestCase :=
  [generated_case (lit "Books a table") (lit "happy-path");
   generated_case (lit "Asks for opening hours") (lit "happy-path");
   generated_case (lit "Cancels a booking") (lit "happy-path");
   generated_case (lit "Insults the agent") (lit "adversarial");
   generated_case (lit "Asks for another caller's data") (lit "adversarial")].

(** ** The claims on the cap and on cancellation, as the specification states them *)

(** A client that fails every criterion and is down when asked for a
    revision. *)
Definition BrokenOptimizerLLM : LLMService unit := {|
  llm_evaluateCriterion _response criterion :=
    mret {| criterionId := sc_id criterion; passed := false;
            explanation := Some (lit "The agent did not greet the caller.") |};
  llm_optimizePrompt _original _failures _passes :=
    throw (ErrorObject (lit "LLM unavailable"));
|}.


(** * Proofs *)

(** ** Pass rate *)

Lemma completed_criteria_length (rs : list TestCaseResult) :
  length (filter (λ r, status r = case_completed) rs ≫= criterionResults)
  = completedCriteria rs.
Proof.
  induction rs as [|r rs IH]; [done|].
  rewrite filter_cons. simpl. destruct (status r) eqn:E.
  - rewrite decide_True by done. rewrite bind_cons, length_app. by rewrite IH.
  - rewrite decide_False by done. exact IH.
Qed.

Lemma countPassed_filter (cs : list CriterionResult) :
  length (filter (λ c, passed c = true) cs) = countPassed cs.
Proof.
  induction cs as [|c cs IH]; [done|].
  rewrite filter_cons. simpl. destruct (passed c).
  - rewrite decide_True by done. simpl. by rewrite IH.
  - rewrite decide_False by done. exact IH.
Qed.

Lemma completed_passed_length (rs : list TestCaseResult) :
  length (filter (λ c, passed c = true)
            (filter (λ r, status r = case_completed) rs ≫= criterionResults))
  = completedPassed rs.
Proof.
  induction rs as [|r rs IH]; [done|].
  rewrite filter_cons. simpl. destruct (status r) eqn:E.
  - rewrite decide_True by done.
    rewrite bind_cons, filter_app, length_app, IH. by rewrite countPassed_filter.
  - rewrite decide_False by done. exact IH.
Qed.

Lemma countPassed_le (cs : list CriterionResult) : (countPassed cs <= length cs)%nat.
Proof. induction cs as [|c cs IH]; simpl; [lia|]. destruct (passed c); lia. Qed.

Lemma completedPassed_le (rs : list TestCaseResult) :
  (completedPassed rs <= completedCriteria rs)%nat.
Proof.
  induction rs as [|r rs IH]; simpl; [lia|].
  destruct (status r); [|done]. pose proof (countPassed_le (criterionResults r)). lia.
Qed.

Lemma completedCriteria_all_error (rs : list TestCaseResult) :
  Forall (λ r, status r = case_error) rs → completedCriteria rs = 0%nat.
Proof. induction 1 as [|r rs Hr _ IH]; simpl; [done|]. by rewrite Hr. Qed.

Lemma number_div_counts (p n : nat) :
  n ≠ 0%nat →
  number_div (number_of_nat p) (number_of_nat n)
  = Finite (inject_Z (Z.of_nat p) / inject_Z (Z.of_nat n)).
Proof.
  intros Hn. unfold number_div, number_of_nat.
  destruct (Qeq_bool (inject_Z (Z.of_nat n)) 0) eqn:E; [|done].
  apply Qeq_bool_iff in E. unfold Qeq in E. simpl in E. lia.
Qed.

Lemma ratio_in_unit_interval (p n : nat) :
  (p <= n)%nat → n ≠ 0%nat →
  (0 <= inject_Z (Z.of_nat p) / inject_Z (Z.of_nat n))%Q
  ∧ (inject_Z (Z.of_nat p) / inject_Z (Z.of_nat n) <= 1)%Q.
Proof.
  intros Hpn Hn.
  assert (Hpos : (0 < inject_Z (Z.of_nat n))%Q).
  { unfold Qlt. simpl. lia. }
  split.
  - apply Qle_shift_div_l; [done|]. unfold Qle. simpl. lia.
  - apply Qle_shift_div_r; [done|]. unfold Qle. simpl. lia.
Qed.

(** C5: the pass rate is the number of passed criteria over the number of
    criteria, both counted over the results with status [completed]; it is
    exactly [0] when there is no such criterion, in particular when every
    result has status [error]; it is always a finite number between 0 and 1,
    so neither [NaN] nor an infinity. *)
Theorem calculatePassRate_correct (rs : list TestCaseResult) :
  calculatePassRate rs
  = (if decide (completedCriteria rs = 0%nat) then Finite 0
     else Finite (inject_Z (Z.of_nat (completedPassed rs))
                  / inject_Z (Z.of_nat (completedCriteria rs))))
  ∧ (∃ q, calculatePassRate rs = Finite q ∧ (0 <= q)%Q ∧ (q <= 1)%Q)
  ∧ (Forall (λ r, status r = case_error) rs → calculatePassRate rs = Finite 0).
Proof.
  assert (Heq : calculatePassRate rs
    = (if decide (completedCriteria rs = 0%nat) then Finite 0
       else Finite (inject_Z (Z.of_nat (completedPassed rs))
                    / inject_Z (Z.of_nat (completedCriteria rs))))).
  { unfold calculatePassRate. cbv zeta.
    rewrite completed_passed_length, completed_criteria_length.
    destruct (decide (completedCriteria rs = 0%nat)) as [|Hn]; [done|].
    by apply number_div_counts. }
  split; [exact Heq|]. split.
  - rewrite Heq. destruct (decide (completedCriteria rs = 0%nat)) as [|Hn].
    + exists 0%Q. by repeat split.
    + eexists. split; [done|].
      apply ratio_in_unit_interval; [apply completedPassed_le|done].
  - intros Herr. rewrite Heq.
    by rewrite decide_True by by apply completedCriteria_all_error.
Qed.

(** ** Status state machines *)

(** C7: a transition succeeds, returning the requested status, exactly on
    the edges generated→accepted, generated→rejected (optimization) and
    running→paused, running→cancelled, running→completed, paused→running,
    paused→cancelled (cycle); every other pair is rejected with the
    invalid-transition error, so nothing leaves accepted, rejected, completed
    or cancelled. *)
Theorem transition_tables :
  (∀ c n, transitionOptimizationStatus c n
          = if optimization_edge c n then inr n
            else inl (InvalidOptimizationTransition c n))
  ∧ (∀ c n, transitionCycleStatus c n
            = if cycle_edge c n then inr n
              else inl (InvalidCycleTransition c n))
  ∧ (∀ n, transitionOptimizationStatus accepted n
          = inl (InvalidOptimizationTransition accepted n))
  ∧ (∀ n, transitionOptimizationStatus rejected n
          = inl (InvalidOptimizationTransition rejected n))
  ∧ (∀ n, transitionCycleStatus completed n
          = inl (InvalidCycleTransition completed n))
  ∧ (∀ n, transitionCycleStatus cancelled n
          = inl (InvalidCycleTransition cancelled n)).
Proof.
  repeat split; intros; repeat match goal with x : OptimizationStatus |- _ => destruct x
                                             | x : CycleStatus |- _ => destruct x end;
    reflexivity.
Qed.

(** ** Line diff *)

Lemma split_lines_nonempty (s : jsstring) : split_lines s ≠ [].
Proof. destruct s as [|c s]; simpl; [done|]. case_decide; [done|]. by destruct (split_lines s). Qed.

Lemma join_split_lines (s : jsstring) : join_lines (split_lines s) = s.
Proof.
  induction s as [|c s IH]; [done|]. simpl. case_decide as Hc.
  - subst c. pose proof (split_lines_nonempty s) as Hne.
    destruct (split_lines s) as [|l ls] eqn:E; [done|].
    change (join_lines ([] :: l :: ls)) with (newline :: join_lines (l :: ls)).
    by rewrite IH.
  - pose proof (split_lines_nonempty s) as Hne.
    destruct (split_lines s) as [|l ls] eqn:E; [done|].
    destruct ls as [|l' ls]; simpl in *; by rewrite <- IH.
Qed.

Lemma split_lines_inj (s t : jsstring) : split_lines s = split_lines t → s = t.
Proof. intros H. by rewrite <- (join_split_lines s), <- (join_split_lines t), H. Qed.

Lemma take_pred_sublist {A} (l : list A) (i : nat) : take (i - 1) l `sublist_of` take i l.
Proof.
  destruct i as [|i]; [done|]. replace (S i - 1)%nat with i by lia.
  destruct (l !! i) as [x|] eqn:E.
  - rewrite (take_S_r _ _ _ E). apply sublist_inserts_r. done.
  - apply lookup_ge_None in E. by rewrite !take_ge by lia.
Qed.

(** Whatever the table holds, the walk back only ever keeps a line that is
    at the same time the current line of [a] and of [b]. *)
Lemma lcs_walk_common (a b : list jsstring) (dp : list (list nat)) (i j : nat)
  (result : list jsstring) :
  (i ≤ length a)%nat → (j ≤ length b)%nat →
  ∃ pre, lcs_walk a b dp i j result = pre ++ result
         ∧ pre `sublist_of` take i a ∧ pre `sublist_of` take j b.
Proof.
  funelim (lcs_walk a b dp i j result); intros Hi Hj.
  - clear Heq Heqcall.
    match goal with Hpos : (0 < _)%nat ∧ _ |- _ => destruct Hpos as [Hi0 Hj0] end.
    destruct (decide (a !! (i - 1)%nat = b !! (j - 1)%nat)) as [Heq|Hne].
    + destruct (H Heq ltac:(lia) ltac:(lia)) as (pre & Hw & Ha & Hb).
      destruct (lookup_lt_is_Some_2 a (i - 1)%nat ltac:(lia)) as [x Hx].
      assert (Hy : b !! (j - 1)%nat = Some x) by congruence.
      exists (pre ++ [x]). split; [|split].
      * rewrite Hw. unfold line_at. rewrite Hx. simpl. by rewrite <- app_assoc.
      * replace i with (S (i - 1)) at 1 by lia. rewrite (take_S_r _ _ _ Hx).
        by apply sublist_app.
      * replace j with (S (j - 1)) at 1 by lia. rewrite (take_S_r _ _ _ Hy).
        by apply sublist_app.
    + case_bool_decide as Hdp.
      * destruct (H0 Hne ltac:(lia) Hj) as (pre & Hw & Ha & Hb).
        exists pre. split; [done|]. split; [|done].
        etrans; [exact Ha|apply take_pred_sublist].
      * destruct (H1 Hne Hi ltac:(lia)) as (pre & Hw & Ha & Hb).
        exists pre. split; [done|]. split; [done|].
        etrans; [exact Hb|apply take_pred_sublist].
  - exists []. split; [done|]. split; apply sublist_nil_l.
Qed.

Lemma buildLCS_common (a b : list jsstring) :
  buildLCS a b `sublist_of` a ∧ buildLCS a b `sublist_of` b.
Proof.
  unfold buildLCS.
  destruct (lcs_walk_common a b (lcs_table a b) (length a) (length b) [])
    as (pre & Hw & Ha & Hb); [done..|].
  rewrite Hw, app_nil_r. by rewrite !take_ge in * by lia.
Qed.

Lemma drop_sublist_match {A} (lcs o : list A) (li oi : nat) (c : A) :
  lcs !! li = Some c → o !! oi = Some c →
  drop li lcs `sublist_of` drop oi o → drop (S li) lcs `sublist_of` drop (S oi) o.
Proof.
  intros El Eo. rewrite (drop_S _ _ _ El), (drop_S _ _ _ Eo).
  intros [H|(l' & [= <-] & H)]%sublist_cons_r; [|done].
  etrans; [|exact H]. by apply sublist_cons.
Qed.

Lemma drop_sublist_skip {A} (lcs o : list A) (li oi : nat) (x : A) :
  o !! oi = Some x → lcs !! li ≠ Some x →
  drop li lcs `sublist_of` drop oi o → drop li lcs `sublist_of` drop (S oi) o.
Proof.
  intros Eo Hne. rewrite (drop_S _ _ _ Eo).
  intros [H|(l' & Hl & H)]%sublist_cons_r; [done|].
  destruct (lcs !! li) as [c|] eqn:El.
  - rewrite (drop_S _ _ _ El) in Hl. congruence.
  - apply lookup_ge_None in El. rewrite (drop_ge lcs li El) in Hl. done.
Qed.

Lemma drop_sublist_inhabited {A} (lcs o : list A) (li oi : nat) (c : A) :
  lcs !! li = Some c → drop li lcs `sublist_of` drop oi o → is_Some (o !! oi).
Proof.
  intros El H. rewrite (drop_S _ _ _ El) in H.
  destruct (o !! oi) eqn:Eo; [done|].
  apply lookup_ge_None in Eo. rewrite (drop_ge o oi Eo) in H. by apply sublist_nil_r in H.
Qed.

Lemma original_side_cons (c : DiffChange) (cs : list DiffChange) :
  original_side (c :: cs)
  = if decide (type c = context ∨ type c = removed)
    then content c :: original_side cs else original_side cs.
Proof. unfold original_side. rewrite filter_cons. by case_decide. Qed.

Lemma revised_side_cons (c : DiffChange) (cs : list DiffChange) :
  revised_side (c :: cs)
  = if decide (type c = context ∨ type c = added)
    then content c :: revised_side cs else revised_side cs.
Proof. unfold revised_side. rewrite filter_cons. by case_decide. Qed.

Local Ltac decide_conditions :=
  repeat (case_bool_decide; simpl; try done; try lia; try congruence).

(** The loop of [computeDiff] keeps [lcs] from [li] on a subsequence of both
    remaining inputs; under that invariant one of its three branches always
    fires, so it ends within one step per remaining line, and what it emits
    spells out both remainders. *)
Lemma diff_loop_covers (o r lcs : list jsstring) (fuel : nat) :
  ∀ oi ri li changes,
  drop li lcs `sublist_of` drop oi o →
  drop li lcs `sublist_of` drop ri r →
  ((length o - oi) + (length r - ri) ≤ fuel)%nat →
  ∃ out, diff_loop fuel o r lcs oi ri li changes = Some (changes ++ out)
         ∧ original_side out = drop oi o ∧ revised_side out = drop ri r.
Proof.
  induction fuel as [|fuel IH]; intros oi ri li changes Ho Hr Hfuel.
  { exists []. simpl. rewrite !bool_decide_eq_false_2 by lia. simpl.
    by rewrite app_nil_r, !drop_ge by lia. }
  simpl.
  destruct (bool_decide (oi < length o)%nat || bool_decide (ri < length r)%nat)
    eqn:Hcond.
  2: { apply orb_false_iff in Hcond as [H1 H2].
       apply bool_decide_eq_false in H1, H2. exists [].
       by rewrite app_nil_r, !drop_ge by lia. }
  apply orb_true_iff in Hcond. rewrite !bool_decide_eq_true in Hcond.
  assert (Hstep : ∀ c oi' ri' li',
    drop li' lcs `sublist_of` drop oi' o →
    drop li' lcs `sublist_of` drop ri' r →
    ((length o - oi') + (length r - ri') ≤ fuel)%nat →
    original_side [c] ++ drop oi' o = drop oi o →
    revised_side [c] ++ drop ri' r = drop ri r →
    ∃ out, diff_loop fuel o r lcs oi' ri' li' (changes ++ [c]) = Some (changes ++ out)
           ∧ original_side out = drop oi o ∧ revised_side out = drop ri r).
  { intros c oi' ri' li' Ho' Hr' Hf' Eo' Er'.
    destruct (IH oi' ri' li' (changes ++ [c]) Ho' Hr' Hf') as (out & Hrun & Hos & Hrs).
    exists (c :: out). rewrite Hrun, <- app_assoc. split; [done|].
    rewrite original_side_cons, revised_side_cons, Hos, Hrs, <- Eo', <- Er'.
    rewrite original_side_cons, revised_side_cons.
    split; by repeat case_decide. }
  rewrite !Nat.add_1_r.
  destruct (lcs !! li) as [c|] eqn:El.
  - destruct (drop_sublist_inhabited _ _ _ _ _ El Ho) as [x Eo].
    destruct (drop_sublist_inhabited _ _ _ _ _ El Hr) as [y Er].
    pose proof (lookup_lt_Some _ _ _ El). pose proof (lookup_lt_Some _ _ _ Eo).
    pose proof (lookup_lt_Some _ _ _ Er).
    unfold line_at. rewrite El, Eo, Er. simpl.
    destruct (decide (x = c)) as [->|Hx]; [destruct (decide (y = c)) as [->|Hy]|].
    + decide_conditions. apply Hstep.
      * by eapply drop_sublist_match.
      * by eapply drop_sublist_match.
      * lia.
      * by rewrite (drop_S _ _ _ Eo).
      * by rewrite (drop_S _ _ _ Er).
    + decide_conditions. apply Hstep.
      * done.
      * eapply drop_sublist_skip; [done| |done]. congruence.
      * lia.
      * done.
      * by rewrite (drop_S _ _ _ Er).
    + decide_conditions. apply Hstep.
      * eapply drop_sublist_skip; [done| |done]. congruence.
      * done.
      * lia.
      * by rewrite (drop_S _ _ _ Eo).
      * done.
  - pose proof (lookup_ge_None_1 _ _ El).
    destruct (o !! oi) as [x|] eqn:Eo.
    + pose proof (lookup_lt_Some _ _ _ Eo).
      unfold line_at. rewrite Eo. simpl. decide_conditions. apply Hstep.
      * eapply drop_sublist_skip; [done| |done]. congruence.
      * done.
      * lia.
      * by rewrite (drop_S _ _ _ Eo).
      * done.
    + pose proof (lookup_ge_None_1 _ _ Eo).
      destruct (r !! ri) as [y|] eqn:Er.
      2: { apply lookup_ge_None in Er. lia. }
      pose proof (lookup_lt_Some _ _ _ Er).
      unfold line_at. rewrite Er. simpl. decide_conditions. apply Hstep.
      * done.
      * eapply drop_sublist_skip; [done| |done]. congruence.
      * lia.
      * done.
      * by rewrite (drop_S _ _ _ Er).
Qed.

(** More fuel never changes an answer the loop has already given. *)
Lemma diff_loop_more_fuel (o r lcs : list jsstring) (fuel : nat) :
  ∀ oi ri li changes res,
  diff_loop fuel o r lcs oi ri li changes = Some res →
  diff_loop (S fuel) o r lcs oi ri li changes = Some res.
Proof.
  induction fuel as [|fuel IH]; intros oi ri li changes res Hrun.
  - simpl in *. by destruct (_ || _).
  - remember (S fuel) as fuel' eqn:Hf. simpl. rewrite Hf in Hrun. simpl in Hrun.
    destruct (_ || _); [|done].
    repeat match goal with
           | H : (if ?b then _ else _) = Some _ |- _ => destruct b
           end; subst fuel'; by apply IH.
Qed.

Lemma diff_loop_fuel_le (o r lcs : list jsstring) (fuel fuel' : nat) oi ri li changes res :
  (fuel ≤ fuel')%nat →
  diff_loop fuel o r lcs oi ri li changes = Some res →
  diff_loop fuel' o r lcs oi ri li changes = Some res.
Proof.
  induction 1 as [|fuel' _ IH]; [done|]. intros Hrun. by apply diff_loop_more_fuel, IH.
Qed.

Lemma computeDiff_terminates (original revised : jsstring) :
  ∃ changes, computeDiff (diff_fuel original revised) original revised = Some changes.
Proof.
  unfold computeDiff. case_decide; [by eexists|].
  destruct (buildLCS_common (split_lines original) (split_lines revised)) as [Ha Hb].
  destruct (diff_loop_covers (split_lines original) (split_lines revised)
              (buildLCS (split_lines original) (split_lines revised))
              (diff_fuel original revised) 0 0 0 []) as (out & Hrun & _);
    [done|done|unfold diff_fuel; lia|].
  by eexists.
Qed.

Lemma computeDiff_sides (fuel : nat) (original revised : jsstring)
  (changes : list DiffChange) :
  original ≠ revised →
  computeDiff fuel original revised = Some changes →
  original_side changes = split_lines original
  ∧ revised_side changes = split_lines revised.
Proof.
  intros Hne. unfold computeDiff. rewrite decide_False by done. cbv zeta. intros Hrun.
  destruct (buildLCS_common (split_lines original) (split_lines revised)) as [Ha Hb].
  destruct (diff_loop_covers (split_lines original) (split_lines revised)
              (buildLCS (split_lines original) (split_lines revised))
              (fuel `max` diff_fuel original revised) 0 0 0 [])
    as (out & Hbig & Hos & Hrs); [done|done|unfold diff_fuel; lia|].
  eapply diff_loop_fuel_le in Hrun; [|apply Nat.le_max_l].
  rewrite Hrun in Hbig. injection Hbig as ->. done.
Qed.

Lemma sides_agree_without_edits (changes : list DiffChange) :
  Forall (λ c, type c = context) changes →
  original_side changes = revised_side changes.
Proof.
  induction 1 as [|c cs Hc _ IH]; [done|].
  rewrite original_side_cons, revised_side_cons, IH.
  rewrite !decide_True by by left. done.
Qed.

(** C8: the diff of two strings is the empty list exactly when the strings
    are equal, and the diff of two distinct strings has an entry of type
    [added] or [removed]. The loop always ends: one unit of fuel per line of
    the two inputs is enough, and more fuel gives the same list. *)
Theorem computeDiff_empty_iff_equal (original revised : jsstring) :
  (∃ changes,
     computeDiff (diff_fuel original revised) original revised = Some changes)
  ∧ ∀ fuel changes,
      computeDiff fuel original revised = Some changes →
      (changes = [] ↔ original = revised)
      ∧ (original ≠ revised →
         ∃ c, c ∈ changes ∧ (type c = added ∨ type c = removed)).
Proof.
  split; [apply computeDiff_terminates|]. intros fuel changes Hrun.
  destruct (decide (original = revised)) as [->|Hne].
  { unfold computeDiff in Hrun. rewrite decide_True in Hrun by done.
    injection Hrun as <-. by split. }
  destruct (computeDiff_sides _ _ _ _ Hne Hrun) as [Hos Hrs].
  assert (Hedit : ∃ c, c ∈ changes ∧ (type c = added ∨ type c = removed)).
  { destruct (decide (Exists (λ c, type c = added ∨ type c = removed) changes))
      as [Hex|Hnone].
    - apply Exists_exists in Hex. exact Hex.
    - exfalso. apply Hne, split_lines_inj. rewrite <- Hos, <- Hrs.
      apply sides_agree_without_edits.
      apply not_Exists_Forall in Hnone; [|intros c; apply _].
      eapply Forall_impl; [exact Hnone|]. intros c Hc. simpl in Hc.
      destruct (type c); [exfalso; apply Hc; by left|exfalso; apply Hc; by right|done]. }
  split; [|done]. split; [|done].
  intros ->. destruct Hedit as (c & Hc & _). by apply elem_of_nil in Hc.
Qed.

(** C10: for two distinct strings the diff covers both inputs exactly: read
    in order, the contents of its [context] and [removed] entries are the
    lines of the original, and the contents of its [context] and [added]
    entries are the lines of the revision. *)
Theorem computeDiff_covers_both_inputs (original revised : jsstring) :
  original ≠ revised →
  (∃ changes,
     computeDiff (diff_fuel original revised) original revised = Some changes)
  ∧ ∀ fuel changes,
      computeDiff fuel original revised = Some changes →
      original_side changes = split_lines original
      ∧ revised_side changes = split_lines revised.
Proof.
  intros Hne. split; [apply computeDiff_terminates|].
  intros fuel changes Hrun. by eapply computeDiff_sides.
Qed.

Lemma computeDiff_empty_iff_equal_witness :
  let original := lit "hello" ++ [newline] ++ lit "world" in
  let revised := lit "hello" ++ [newline] ++ lit "there" in
  computeDiff 4 original revised
  = Some [ {| type := context; lineNumber := 1; content := lit "hello" |};
           {| type := removed; lineNumber := 2; content := lit "world" |};
           {| type := added; lineNumber := 2; content := lit "there" |} ]
  ∧ ((∃ changes, computeDiff (diff_fuel original revised) original revised = Some changes)
     ∧ ∀ fuel changes,
         computeDiff fuel original revised = Some changes →
         (changes = [] ↔ original = revised)
         ∧ (original ≠ revised →
            ∃ c, c ∈ changes ∧ (type c = added ∨ type c = removed))).
Proof.
  split; [vm_compute; reflexivity|].
  apply (computeDiff_empty_iff_equal
           (lit "hello" ++ [newline] ++ lit "world")
           (lit "hello" ++ [newline] ++ lit "there")).
Defined.

Lemma computeDiff_covers_both_inputs_witness :
  let original := lit "a" ++ [newline] ++ lit "b" ++ [newline] ++ lit "c" in
  let revised := lit "b" ++ [newline] ++ lit "a" ++ [newline] ++ lit "c" in
  original ≠ revised
  ∧ ((∃ changes, computeDiff (diff_fuel original revised) original revised = Some changes)
     ∧ ∀ fuel changes,
         computeDiff fuel original revised = Some changes →
         original_side changes = split_lines original
         ∧ revised_side changes = split_lines revised).
Proof.
  assert (Hne : lit "a" ++ [newline] ++ lit "b" ++ [newline] ++ lit "c"
                ≠ lit "b" ++ [newline] ++ lit "a" ++ [newline] ++ lit "c")
    by (vm_compute; discriminate).
  split; [exact Hne|].
  exact (computeDiff_covers_both_inputs _ _ Hne).
Defined.

(** ** Retry with exponential backoff *)

Lemma failed_attempts_S (D : Z) (k : nat) :
  failed_attempts D (S k)
  = failed_attempts D k ++ [Attempted k; Slept (D * 2 ^ Z.of_nat k)].
Proof. unfold failed_attempts. rewrite seq_S, bind_app. simpl. done. Qed.

Lemma attempts_made_app (l1 l2 : list RetryEvent) :
  attempts_made (l1 ++ l2) = (attempts_made l1 + attempts_made l2)%nat.
Proof. induction l1 as [|[a|ms] l1 IH]; simpl; by rewrite ?IH. Qed.

Lemma attempts_made_failed (D : Z) (k : nat) : attempts_made (failed_attempts D k) = k.
Proof.
  induction k as [|k IH]; [done|].
  rewrite failed_attempts_S, attempts_made_app, IH. simpl. lia.
Qed.

(** The loop from attempt [a] on, entered with the log of [a] failed
    attempts: it stops at some attempt [k], the first success or the last
    allowed attempt. *)
Lemma retry_attempts_run {T} (outcomes : nat → thrown + T) (R D : Z) :
  ∀ (remaining a : nat) (lastError : option thrown),
  Z.of_nat a + Z.of_nat remaining = R + 1 → remaining ≠ 0%nat →
  ∃ (k : nat) (res : outcome T),
    (a ≤ k)%nat ∧ Z.of_nat k ≤ R
    ∧ (∀ i, (a ≤ i < k)%nat → ∃ e, outcomes i = inl e)
    ∧ retry_attempts (recorded_fn outcomes) R D recorded_sleep
        remaining (Z.of_nat a) lastError (failed_attempts D a)
      = (res, failed_attempts D k ++ [Attempted k])
    ∧ match outcomes k with
      | inr v => res = Returned v
      | inl e => Z.of_nat k = R ∧ res = Threw (asError e)
      end.
Proof.
  induction remaining as [|remaining IH]; intros a lastError Hsum Hpos; [done|].
  simpl. unfold try_catch, recorded_fn. rewrite attempts_made_failed.
  destruct (outcomes a) as [e|v] eqn:Ea.
  - case_bool_decide as Hlt.
    + destruct (IH (S a) (Some (asError e)) ltac:(lia) ltac:(lia))
        as (k & res & Hak & HkR & Hfail & Hrun & Hres).
      exists k, res. split; [lia|]. split; [done|]. split.
      { intros i Hi. destruct (decide (i = a)) as [->|]; [by eexists|].
        apply Hfail. lia. }
      split; [|done].
      unfold mbind, M_bind, recorded_sleep.
      rewrite <- app_assoc. simpl. rewrite <- failed_attempts_S.
      replace (Z.of_nat a + 1) with (Z.of_nat (S a)) by lia. exact Hrun.
    + assert (remaining = 0%nat) as -> by lia.
      exists a, (Threw (asError e)). split; [done|]. split; [lia|]. split.
      { intros i Hi. lia. }
      rewrite Ea. split; [done|]. split; [lia|done].
  - exists a, (Returned v). split; [done|]. split; [lia|]. split.
    { intros i Hi. lia. }
    rewrite Ea. done.
Qed.

(** C9: with [R] retries and initial delay [D], the attempts stop at some
    attempt [k <= R]: every attempt [a] before [k] failed and was followed by
    a sleep of exactly [D * 2^a] and then by attempt [a + 1]; nothing
    follows attempt [k]; there are [k + 1 <= R + 1] attempts in all; if
    attempt [k] succeeded its value is returned, and otherwise [k = R] and
    what is thrown is the error of that last attempt (the very [Error] it
    threw, or [new Error(String(value))] for a value that is not an
    [Error]). *)
Theorem retryWithBackoff_backoff {T} (outcomes : nat → thrown + T)
  (maxRetries initialDelayMs : Z) :
  0 ≤ maxRetries →
  ∃ (k : nat) (res : outcome T),
    Z.of_nat k ≤ maxRetries
    ∧ (∀ i, (i < k)%nat → ∃ e, outcomes i = inl e)
    ∧ retryWithBackoff (recorded_fn outcomes) maxRetries initialDelayMs
        recorded_sleep []
      = (res, failed_attempts initialDelayMs k ++ [Attempted k])
    ∧ Z.of_nat (attempts_made (failed_attempts initialDelayMs k ++ [Attempted k]))
      ≤ maxRetries + 1
    ∧ match outcomes k with
      | inr v => res = Returned v
      | inl e =>
          Z.of_nat k = maxRetries ∧ res = Threw (asError e)
          ∧ ∀ message, e = ErrorObject message → res = Threw e
      end.
Proof.
  intros HR. unfold retryWithBackoff.
  destruct (retry_attempts_run outcomes maxRetries initialDelayMs
              (Z.to_nat (maxRetries + 1)) 0 None ltac:(lia) ltac:(lia))
    as (k & res & _ & HkR & Hfail & Hrun & Hres).
  exists k, res. split; [done|]. split.
  { intros i Hi. apply Hfail. lia. }
  split; [exact Hrun|]. split.
  { rewrite attempts_made_app, attempts_made_failed. simpl. lia. }
  destruct (outcomes k) as [e|v]; [|done].
  destruct Hres as [Hk ->]. split; [done|]. split; [done|]. by intros message ->.
Qed.

Lemma retryWithBackoff_backoff_witness :
  retryWithBackoff (recorded_fn flaky_outcomes) 3 1000 recorded_sleep []
  = (Returned 42%nat,
     [Attempted 0; Slept 1000; Attempted 1; Slept 2000; Attempted 2])
  ∧ 0 ≤ 3
  ∧ ∃ (k : nat) (res : outcome nat),
      Z.of_nat k ≤ 3
      ∧ (∀ i, (i < k)%nat → ∃ e, flaky_outcomes i = inl e)
      ∧ retryWithBackoff (recorded_fn flaky_outcomes) 3 1000 recorded_sleep []
        = (res, failed_attempts 1000 k ++ [Attempted k])
      ∧ Z.of_nat (attempts_made (failed_attempts 1000 k ++ [Attempted k])) ≤ 3 + 1
      ∧ match flaky_outcomes k with
        | inr v => res = Returned v
        | inl e =>
            Z.of_nat k = 3 ∧ res = Threw (asError e)
            ∧ ∀ message, e = ErrorObject message → res = Threw e
        end.
Proof.
  split; [vm_compute; reflexivity|]. split; [lia|].
  apply (retryWithBackoff_backoff flaky_outcomes 3 1000). lia.
Defined.

(** ** The process state: what callees preserve *)

Section preserves.
Context {St : Type} (R : relation St) `{!PreOrder R}.

Lemma preserves_ret {A} (a : A) : preserves R (mret a).
Proof. intros s. simpl. reflexivity. Qed.

Lemma preserves_throw {A} (e : thrown) : preserves R (throw (A:=A) e).
Proof. intros s. simpl. reflexivity. Qed.

Lemma preserves_bind {A B} (m : M St A) (f : A → M St B) :
  preserves R m → (∀ a, preserves R (f a)) → preserves R (m ≫= f).
Proof.
  intros Hm Hf s. unfold mbind, M_bind. specialize (Hm s).
  destruct (m s) as [[a|e] s']; simpl in *; [|done].
  etrans; [exact Hm|apply Hf].
Qed.

Lemma preserves_try_catch {A} (m : M St A) (handler : thrown → M St A) :
  preserves R m → (∀ e, preserves R (handler e)) → preserves R (try_catch m handler).
Proof.
  intros Hm Hh s. unfold try_catch. specialize (Hm s).
  destruct (m s) as [[a|e] s']; simpl in *; [done|].
  etrans; [exact Hm|apply Hh].
Qed.

Lemma preserves_foldM {A B} (f : B → A → M St B) (l : list A) :
  (∀ b a, preserves R (f b a)) → ∀ b, preserves R (foldM f b l).
Proof.
  intros Hf. induction l as [|a l IH]; intros b; simpl.
  - apply preserves_ret.
  - apply preserves_bind; [apply Hf|apply IH].
Qed.

Lemma preserves_get_state : preserves R get_state.
Proof. intros s. simpl. reflexivity. Qed.

End preserves.

Section quiet.
Context {Σ : Type} `{!LLMService Σ} `{!AgentApi Σ}.

#[local] Instance quiet_preorder : PreOrder (@quiet Σ).
Proof.
  split.
  - intros w. repeat split; try done. exists []. done.
  - intros w1 w2 w3 (Hr1 & He1 & Hc1 & s1 & Hi1 & Hf1) (Hr2 & He2 & Hc2 & s2 & Hi2 & Hf2).
    split; [congruence|]. split; [congruence|]. split; [congruence|].
    exists (s1 ++ s2). split.
    + by rewrite Hi1, Hi2, app_assoc.
    + by rewrite concat_app, foldl_app, <- Hf1, <- Hr1.
Qed.

Lemma serve_flag (r : Request) (w : World Σ) :
  serve r w
  = set_stateFlags (request_flag (CycleRecord_t (database w)) (stateFlags w) r) w.
Proof.
  destruct w as [σ u i d f e c].
  destruct r as [cycleId|cycleId|cycleId];
    unfold serve, cancelCycle, pauseCycle, resumeCycle, request_flag,
      mbind, M_bind, db, checked, set_flag, modify_state; simpl;
    (destruct (CycleRecord_t d !! cycleId) as [record|]; [|done]);
    by destruct (cyc_status record).
Qed.

Lemma serve_batch (batch : list Request) (w : World Σ) :
  foldl (λ w r, serve r w) w batch
  = set_stateFlags
      (foldl (request_flag (CycleRecord_t (database w))) (stateFlags w) batch) w.
Proof.
  revert w. induction batch as [|r batch IH]; intros w; simpl.
  - by destruct w.
  - rewrite IH, serve_flag. done.
Qed.

Lemma arrivals_quiet (w : World Σ) : quiet w (arrivals w).
Proof.
  unfold arrivals. destruct (inbox w) as [|batch rest] eqn:Ei; [reflexivity|].
  rewrite serve_batch. simpl. repeat split; try done.
  exists [batch]. simpl. by rewrite app_nil_r.
Qed.

Lemma await_quiet {A} (call : M Σ A) : preserves quiet (await call).
Proof.
  intros w. unfold await. destruct (call (oracle w)) as [r σ]. simpl.
  etrans; [|apply arrivals_quiet]. repeat split; try done. by exists [].
Qed.

Lemma write_db_quiet (f : Database → Database) :
  (∀ d, CycleRecord_t (f d) = CycleRecord_t d) → preserves quiet (@write_db Σ f).
Proof.
  intros Hf w. unfold write_db, modify_state. simpl.
  split; [apply Hf|]. split; [done|]. split; [done|]. by exists [].
Qed.

Lemma db_quiet : preserves quiet (@db Σ).
Proof. intros w. simpl. reflexivity. Qed.

Lemma uuidv4_quiet : preserves quiet (@uuidv4 Σ).
Proof. intros w. simpl. repeat split; try done. by exists []. Qed.

Lemma constrain_quiet (table : jsstring) (unique foreign : bool) :
  preserves quiet (@constrain Σ table unique foreign).
Proof.
  unfold constrain.
  destruct (unique && foreign); [apply (preserves_ret quiet)|apply (preserves_throw quiet)].
Qed.

#[local] Instance same_runs_preorder : PreOrder (@same_runs Σ).
Proof.
  split.
  - by intros w.
  - intros w1 w2 w3 (H1 & H2 & H3) (H1' & H2' & H3'). repeat split; congruence.
Qed.

Lemma serve_same_runs (batch : list Request) (w : World Σ) :
  same_runs w (foldl (λ w r, serve r w) w batch).
Proof. by rewrite serve_batch. Qed.

Lemma await_same_runs {A} (call : M Σ A) : preserves same_runs (await call).
Proof.
  intros w. unfold await, arrivals. destruct (call (oracle w)) as [r σ]. simpl.
  destruct (inbox w) as [|batch rest]; [done|].
  etrans; [|apply serve_same_runs]. done.
Qed.

Lemma write_db_same_runs (f : Database → Database) :
  (∀ d, TestRun_t (f d) = TestRun_t d ∧ Agent_t (f d) = Agent_t d
        ∧ OptimizationRecord_t (f d) = OptimizationRecord_t d) →
  preserves same_runs (@write_db Σ f).
Proof. intros Hf w. unfold write_db, modify_state, same_runs. simpl. apply Hf. Qed.

Lemma db_same_runs : preserves same_runs (@db Σ).
Proof. by intros w. Qed.

Lemma uuidv4_same_runs : preserves same_runs (@uuidv4 Σ).
Proof. by intros w. Qed.

Lemma constrain_same_runs (table : jsstring) (unique foreign : bool) :
  preserves same_runs (@constrain Σ table unique foreign).
Proof.
  unfold constrain.
  destruct (unique && foreign);
    [apply (preserves_ret same_runs)|apply (preserves_throw same_runs)].
Qed.

End quiet.

Create HintDb preserves.

#[global] Hint Resolve await_quiet db_quiet uuidv4_quiet constrain_quiet
  await_same_runs db_same_runs uuidv4_same_runs constrain_same_runs : preserves.
#[global] Hint Extern 1 (preserves quiet (write_db _)) =>
  apply write_db_quiet; intros; reflexivity : preserves.
#[global] Hint Extern 1 (preserves same_runs (write_db _)) =>
  apply write_db_same_runs; intros; repeat split; reflexivity : preserves.

(** One structural step of a preservation proof: through a bind, a handler,
    a loop or a case distinction, or by a fact already known. *)
Ltac preserves_step :=
  first
    [ solve [eauto with preserves]
    | apply preserves_ret; apply _
    | apply preserves_throw; apply _
    | apply preserves_bind; [apply _| |intros ?]
    | apply preserves_try_catch; [apply _| |intros ?]
    | apply preserves_foldM; [apply _|intros ? ?]
    | match goal with
      | |- preserves _ (match ?x with _ => _ end) => destruct x
      end ].

Ltac preserves_auto := repeat preserves_step.

Section callees.
Context {Σ : Type} `{!LLMService Σ} `{!AgentApi Σ}.
#[local] Existing Instance quiet_preorder.
#[local] Existing Instance same_runs_preorder.

Lemma executeTestCase_quiet tc prompt : preserves quiet (executeTestCase tc prompt).
Proof. unfold executeTestCase. preserves_auto. Qed.

Lemma executeTestCase_same_runs tc prompt : preserves same_runs (executeTestCase tc prompt).
Proof. unfold executeTestCase. preserves_auto. Qed.

Lemma evaluateAllCriteria_quiet rs cs : preserves quiet (evaluateAllCriteria rs cs).
Proof. unfold evaluateAllCriteria, evaluateCriterion. preserves_auto. Qed.

Lemma evaluateAllCriteria_same_runs rs cs : preserves same_runs (evaluateAllCriteria rs cs).
Proof. unfold evaluateAllCriteria, evaluateCriterion. preserves_auto. Qed.

Lemma insert_TestCaseResult_quiet row : preserves quiet (@insert_TestCaseResult Σ row).
Proof. unfold insert_TestCaseResult. preserves_auto. Qed.

Lemma insert_TestCaseResult_same_runs row : preserves same_runs (@insert_TestCaseResult Σ row).
Proof. unfold insert_TestCaseResult. preserves_auto. Qed.

Lemma insert_CriterionResult_quiet i t c p e :
  preserves quiet (@insert_CriterionResult Σ i t c p e).
Proof. unfold insert_CriterionResult. preserves_auto. Qed.

Lemma insert_CriterionResult_same_runs i t c p e :
  preserves same_runs (@insert_CriterionResult Σ i t c p e).
Proof. unfold insert_CriterionResult. preserves_auto. Qed.

Lemma insert_TestRun_quiet i row : preserves quiet (@insert_TestRun Σ i row).
Proof. unfold insert_TestRun. preserves_auto. Qed.

Lemma insert_OptimizationRecord_quiet i row : preserves quiet (@insert_OptimizationRecord Σ i row).
Proof. unfold insert_OptimizationRecord. preserves_auto. Qed.

End callees.

#[global] Hint Resolve executeTestCase_quiet executeTestCase_same_runs
  evaluateAllCriteria_quiet evaluateAllCriteria_same_runs
  insert_TestCaseResult_quiet insert_TestCaseResult_same_runs
  insert_CriterionResult_quiet insert_CriterionResult_same_runs
  insert_TestRun_quiet insert_OptimizationRecord_quiet : preserves.

Section callees2.
Context {Σ : Type} `{!LLMService Σ} `{!AgentApi Σ}.
#[local] Existing Instance quiet_preorder.
#[local] Existing Instance same_runs_preorder.

Lemma executeTestRun_case_quiet t p rs tc :
  preserves quiet (executeTestRun_case t p rs tc).
Proof. unfold executeTestRun_case. preserves_auto. Qed.

Lemma executeTestRun_case_same_runs t p rs tc :
  preserves same_runs (executeTestRun_case t p rs tc).
Proof. unfold executeTestRun_case. preserves_auto. Qed.

Lemma executeTestRun_quiet config : preserves quiet (executeTestRun config).
Proof.
  unfold executeTestRun, complete_TestRun.
  pose proof executeTestRun_case_quiet. preserves_auto.
Qed.

Lemma optimizePrompt_quiet t a o fs ps : preserves quiet (optimizePrompt t a o fs ps).
Proof. unfold optimizePrompt. preserves_auto. Qed.

End callees2.

(** ** What the loop's callees establish *)

Lemma bind_returned {St A B} (m : M St A) (f : A → M St B) (s s' : St) (b : B) :
  (m ≫= f) s = (Returned b, s') →
  ∃ a s1, m s = (Returned a, s1) ∧ f a s1 = (Returned b, s').
Proof. unfold mbind, M_bind. destruct (m s) as [[a|e] s1]; [eauto|done]. Qed.

Section callee_results.
Context {Σ : Type} `{!LLMService Σ} `{!AgentApi Σ}.
#[local] Existing Instance quiet_preorder.
#[local] Existing Instance same_runs_preorder.

Lemma insert_TestRun_returned (i : jsstring) (row : TestRunRow) (w w' : World Σ) (u : unit) :
  insert_TestRun i row w = (Returned u, w') →
  TestRun_t (database w') !! i = Some row
  ∧ Agent_t (database w') = Agent_t (database w)
  ∧ OptimizationRecord_t (database w') = OptimizationRecord_t (database w).
Proof.
  unfold insert_TestRun. intros (d & w1 & [= <- <-] & H)%bind_returned.
  apply bind_returned in H as (? & w2 & Hc & H).
  assert (w2 = w) as Hw.
  { unfold constrain in Hc. destruct (_ && _); by injection Hc. }
  subst w2. unfold write_db, modify_state in H. simplify_eq/=. by rewrite lookup_insert_eq.
Qed.

Lemma executeTestRun_returned (config : CycleConfig) (w w' : World Σ) (testRunId : jsstring) :
  executeTestRun config w = (Returned testRunId, w') →
  ∃ row results,
    TestRun_t (database w') !! testRunId = Some row
    ∧ tr_status row = run_completed
    ∧ overallPassRate row = Some (calculatePassRate results)
    ∧ Agent_t (database w') = Agent_t (database w)
    ∧ OptimizationRecord_t (database w') = OptimizationRecord_t (database w).
Proof.
  unfold executeTestRun. intros H.
  apply bind_returned in H as (i & w1 & Hid & H).
  unfold uuidv4 in Hid. simplify_eq/=.
  apply bind_returned in H as (d & w2 & Hdb & H).
  unfold db in Hdb. simplify_eq/=.
  apply bind_returned in H as (prompt & w2 & Hp & H).
  assert (w2 = set_uuids (S (uuids w)) w) as Hw.
  { destruct (Agent_t _ !! _); unfold mret, M_ret, throw in Hp; by simplify_eq/=. }
  subst w2. clear Hp.
  apply bind_returned in H as (u & w3 & Hins & H).
  apply insert_TestRun_returned in Hins as (Hrow & Hag & Hopt).
  apply bind_returned in H as (d' & w4 & Hdb & H).
  unfold db in Hdb. simplify_eq/=.
  apply bind_returned in H as (results & w5 & Hfold & H).
  apply bind_returned in H as (u' & w6 & Hdone & H).
  unfold complete_TestRun, write_db, modify_state in Hdone. simplify_eq/=.
  match type of Hfold with
  | foldM ?f ?b ?l ?w0 = _ =>
      pose proof (preserves_foldM same_runs f l
                    (executeTestRun_case_same_runs _ _) b w0) as Hsame
  end.
  rewrite Hfold in Hsame. destruct Hsame as (Hruns & Hag' & Hopt').
  unfold mret, M_ret in H. simplify_eq/=.
  eexists _, results. rewrite lookup_alter_eq, Hruns, Hrow. simpl.
  split; [done|]. split; [done|]. split; [done|]. split; congruence.
Qed.

End callee_results.

(** ** The cycle loop *)

Section loop.
Context {Σ : Type} `{!LLMService Σ} `{!AgentApi Σ}.
#[local] Existing Instance quiet_preorder.
#[local] Existing Instance same_runs_preorder.

(** [cycle_iteration] in direct style: the worlds its steps go through. *)
Lemma cycle_iteration_eq (cycleId : jsstring) (config : CycleConfig)
  (st : LoopState) (w : World Σ) :
  cycle_iteration cycleId config st w
  = let n := ls_cycleCount st + 1 in
    if decide (stateFlags w !! cycleId = Some cancelled) then
      (Returned ReturnFromLoop,
       finishing cycleId (ls_cycleCount st) (ls_currentPassRate st) cancelled
         (ls_testRunIds st) (ls_optimizationIds st) None w)
    else if decide (stateFlags w !! cycleId = Some paused) then
      (Returned ReturnFromLoop,
       finishing cycleId (ls_cycleCount st) (ls_currentPassRate st) paused
         (ls_testRunIds st) (ls_optimizationIds st) None w)
    else
      match executeTestRun config (entering cycleId n w) with
      | (Threw e, w2) => (Threw e, w2)
      | (Returned testRunId, w2) =>
          let rate := measured testRunId w2 in
          let runs := ls_testRunIds st ++ [testRunId] in
          let w3 := emitting cycleId (test_run_complete n rate) w2 in
          let unchanged :=
            (Returned (NextIteration {| ls_cycleCount := n;
                                        ls_currentPassRate := rate;
                                        ls_testRunIds := runs;
                                        ls_optimizationIds := ls_optimizationIds st |}),
             w3) in
          if number_ge rate (targetThreshold config) then
            (Returned ReturnFromLoop,
             finishing cycleId n rate completed runs (ls_optimizationIds st)
               (Some rate) w3)
          else if bool_decide (n < maxCycles config) then
            if bool_decide (0 < length (getResultsForRun testRunId (database w3)).1)%nat
            then
              match Agent_t (database w3) !! agentId config with
              | None => (Threw TypeError, w3)
              | Some a =>
                  match optimizePrompt testRunId (agentId config) (currentPrompt a)
                          (getResultsForRun testRunId (database w3)).1
                          (getResultsForRun testRunId (database w3)).2
                          (recording Call_optimizePrompt w3) with
                  | (Threw e, w4) => (Threw e, w4)
                  | (Returned optRecord, w4) =>
                      (Returned (NextIteration
                         {| ls_cycleCount := n; ls_currentPassRate := rate;
                            ls_testRunIds := runs;
                            ls_optimizationIds :=
                              ls_optimizationIds st ++ [sor_id optRecord] |}),
                       emitting cycleId (optimization_complete n)
                         (accepting (sor_id optRecord)
                            (applying (agentId config) (revisedPrompt optRecord) w4)))
                  end
              end
            else unchanged
          else unchanged
      end.
Proof.
  unfold cycle_iteration. cbv zeta. unfold mbind at 1, M_bind at 1. simpl.
  destruct (decide (stateFlags w !! cycleId = Some cancelled)); [done|].
  destruct (decide (stateFlags w !! cycleId = Some paused)); [done|].
  unfold mbind, M_bind. simpl. fold (entering cycleId (ls_cycleCount st + 1) w).
  destruct (executeTestRun config _) as [[testRunId|e] w2]; [|done].
  fold (measured testRunId w2).
  destruct (number_ge _ _); [done|].
  destruct (bool_decide (ls_cycleCount st + 1 < maxCycles config)); [|done].
  simpl. destruct (getResultsForRun testRunId (database w2)) as [failures passes].
  simpl. destruct (bool_decide (0 < length failures)%nat); [|done].
  destruct (Agent_t (database w2) !! agentId config) as [a|]; [|done].
  simpl. unfold recording at 1.
  by destruct (optimizePrompt _ _ _ _ _ _) as [[optRecord|e] w4].
Qed.

End loop.

Section loop2.
Context {Σ : Type} `{!LLMService Σ} `{!AgentApi Σ}.
#[local] Existing Instance quiet_preorder.
#[local] Existing Instance same_runs_preorder.

Lemma quiet_steady (w w' : World Σ) :
  quiet w w' → ∃ served, steady served w w'.
Proof. intros (Hr & _ & _ & served & Hi & Hf). by exists served. Qed.

Lemma steady_refl (w : World Σ) : steady [] w w.
Proof. done. Qed.

Lemma steady_trans (s1 s2 : list (list Request)) (w1 w2 w3 : World Σ) :
  steady s1 w1 w2 → steady s2 w2 w3 → steady (s1 ++ s2) w1 w3.
Proof.
  intros (Hr1 & Hi1 & Hf1) (Hr2 & Hi2 & Hf2). split; [congruence|]. split.
  - by rewrite Hi1, Hi2, app_assoc.
  - by rewrite concat_app, foldl_app, <- Hf1, <- Hr1.
Qed.




End loop2.

Section loop3.
Context {Σ : Type} `{!LLMService Σ} `{!AgentApi Σ}.
#[local] Existing Instance quiet_preorder.
#[local] Existing Instance same_runs_preorder.

Lemma arrivals_database (w : World Σ) :
  database (arrivals w) = database w ∧ uuids (arrivals w) = uuids w
  ∧ oracle (arrivals w) = oracle w.
Proof.
  unfold arrivals. destruct (inbox w) as [|batch rest]; [done|].
  by rewrite serve_batch.
Qed.

(** What [optimizePrompt] does when the client answers and the row can be
    inserted: it stores and returns the client's revision as it is. *)
Lemma optimizePrompt_run (testRunId agentId_ originalPrompt_ : jsstring)
  (failures passes : list CriterionResult) (w : World Σ)
  (result : OptimizationResult) (σ' : Σ) :
  llm_optimizePrompt originalPrompt_ failures passes (oracle w) = (Returned result, σ') →
  OptimizationRecord_t (database w) !! uuid_of (uuids w) = None →
  is_Some (TestRun_t (database w) !! testRunId) →
  is_Some (Agent_t (database w) !! agentId_) →
  ∃ w',
    optimizePrompt testRunId agentId_ originalPrompt_ failures passes w
    = (Returned {| sor_id := uuid_of (uuids w); sor_testRunId := testRunId;
                   sor_agentId := agentId_; originalPrompt := originalPrompt_;
                   revisedPrompt := or_revisedPrompt result;
                   changes := or_changes result;
                   targetedFailures := or_targetedFailures result;
                   sor_status := generated |}, w')
    ∧ OptimizationRecord_t (database w') !! uuid_of (uuids w)
      = Some {| opt_testRunId := testRunId; opt_agentId := agentId_;
                opt_originalPrompt := originalPrompt_;
                opt_revisedPrompt := or_revisedPrompt result;
                opt_changes := or_changes result; opt_status := generated |}.
Proof.
  intros Hllm Hfresh Hrun Hagent.
  unfold optimizePrompt, mbind, M_bind, await. rewrite Hllm.
  destruct (arrivals_database (set_oracle σ' w)) as (Hd & Hu & _). simpl in Hd, Hu.
  unfold uuidv4. rewrite Hu. unfold insert_OptimizationRecord, mbind, M_bind, db.
  simpl. rewrite Hd.
  rewrite !bool_decide_eq_true_2 by done. simpl.
  eexists. split; [reflexivity|]. simpl. by rewrite lookup_insert_eq.
Qed.

(** What a returned [optimizePrompt] has done. *)
Lemma optimizePrompt_returned (testRunId agentId_ originalPrompt_ : jsstring)
  (failures passes : list CriterionResult) (w w' : World Σ)
  (optRecord : StoredOptimizationRecord) :
  optimizePrompt testRunId agentId_ originalPrompt_ failures passes w
  = (Returned optRecord, w') →
  TestRun_t (database w') = TestRun_t (database w)
  ∧ ∃ row, OptimizationRecord_t (database w') !! sor_id optRecord = Some row
           ∧ opt_status row = generated
           ∧ opt_revisedPrompt row = revisedPrompt optRecord.
Proof.
  unfold optimizePrompt. intros H.
  apply bind_returned in H as (result & w1 & Hllm & H).
  apply bind_returned in H as (i & w2 & Hid & H).
  unfold uuidv4 in Hid. simplify_eq/=.
  apply bind_returned in H as (u & w3 & Hins & H).
  unfold mret, M_ret in H. simplify_eq/=.
  unfold insert_OptimizationRecord in Hins.
  apply bind_returned in Hins as (d & w4 & Hdb & Hins).
  unfold db in Hdb. simplify_eq/=.
  apply bind_returned in Hins as (u' & w5 & Hc & Hins).
  assert (w5 = set_uuids (S (uuids w1)) w1) as Hw.
  { unfold constrain in Hc. destruct (_ && _); unfold mret, M_ret, throw in Hc;
      by simplify_eq/=. }
  subst w5. unfold write_db, modify_state in Hins. simplify_eq/=.
  unfold await in Hllm.
  destruct (llm_optimizePrompt _ _ _ _) as [r σ]. simplify_eq/=.
  destruct (arrivals_database (set_oracle σ w)) as (Hd & _). rewrite Hd. simpl.
  split; [done|]. eexists. rewrite lookup_insert_eq. done.
Qed.

End loop3.

Section loop4.
Context {Σ : Type} `{!LLMService Σ} `{!AgentApi Σ}.
#[local] Existing Instance quiet_preorder.
#[local] Existing Instance same_runs_preorder.

Lemma executeTestRun_steady (config : CycleConfig) (w : World Σ) :
  ∃ served, steady served w (executeTestRun config w).2
            ∧ emitted (executeTestRun config w).2 = emitted w
            ∧ calls (executeTestRun config w).2 = calls w.
Proof.
  destruct (executeTestRun_quiet config w) as (Hr & He & Hc & served & Hi & Hf).
  by exists served.
Qed.

Lemma optimizePrompt_steady t a o fs ps (w : World Σ) :
  ∃ served, steady served w (optimizePrompt t a o fs ps w).2
            ∧ emitted (optimizePrompt t a o fs ps w).2 = emitted w
            ∧ calls (optimizePrompt t a o fs ps w).2 = calls w.
Proof.
  destruct (optimizePrompt_quiet t a o fs ps w) as (Hr & He & Hc & served & Hi & Hf).
  by exists served.
Qed.

(** The writes of the loop that touch neither flags, inbox nor cycle
    records keep [steady]. *)
Lemma steady_outside (served : list (list Request)) (w1 w1' w2 w2' : World Σ) :
  CycleRecord_t (database w1') = CycleRecord_t (database w1) →
  inbox w1' = inbox w1 → stateFlags w1' = stateFlags w1 →
  CycleRecord_t (database w2') = CycleRecord_t (database w2) →
  inbox w2' = inbox w2 → stateFlags w2' = stateFlags w2 →
  steady served w1' w2 → steady served w1 w2'.
Proof.
  intros Hr1 Hi1 Hf1 Hr2 Hi2 Hf2 (Hr & Hi & Hf). unfold steady.
  rewrite Hr2, Hi2, Hf2, Hr, Hr1, <- Hi1, <- Hf1. rewrite Hr1 in Hf. done.
Qed.

(** An iteration that goes on to the next one: its test run completed below
    the threshold and is persisted, at most one optimization was made and
    accepted, and meanwhile the flags moved only by the requests served. *)
Lemma iteration_next (cycleId : jsstring) (config : CycleConfig)
  (st st' : LoopState) (w w1 : World Σ) :
  cycle_iteration cycleId config st w = (Returned (NextIteration st'), w1) →
  running_flag cycleId w
  ∧ ∃ served testRunId opts row,
      steady served w w1
      ∧ st' = {| ls_cycleCount := ls_cycleCount st + 1;
                 ls_currentPassRate := measured testRunId w1;
                 ls_testRunIds := ls_testRunIds st ++ [testRunId];
                 ls_optimizationIds := ls_optimizationIds st ++ opts |}
      ∧ number_ge (measured testRunId w1) (targetThreshold config) = false
      ∧ emitted w1
        = emitted w
          ++ [(cycleId, cycle_start (ls_cycleCount st + 1));
              (cycleId, test_run_complete (ls_cycleCount st + 1)
                          (measured testRunId w1))]
          ++ ((λ _, (cycleId, optimization_complete (ls_cycleCount st + 1))) <$> opts)
      ∧ calls w1 = calls w ++ Call_executeTestRun :: ((λ _, Call_optimizePrompt) <$> opts)
      ∧ (length opts ≤ 1)%nat
      ∧ (opts ≠ [] → ls_cycleCount st + 1 < maxCycles config)
      ∧ TestRun_t (database w1) !! testRunId = Some row
      ∧ tr_status row = run_completed
      ∧ (∃ results, overallPassRate row = Some (calculatePassRate results))
      ∧ Forall (λ o, ∃ orow, OptimizationRecord_t (database w1) !! o = Some orow
                             ∧ opt_status orow = accepted) opts.
Proof.
  rewrite cycle_iteration_eq. cbv zeta.
  destruct (decide (stateFlags w !! cycleId = Some cancelled)) as [|Hc]; [done|].
  destruct (decide (stateFlags w !! cycleId = Some paused)) as [|Hp]; [done|].
  destruct (executeTestRun_steady config (entering cycleId (ls_cycleCount st + 1) w))
    as (served & Hsteady & Hem & Hcalls).
  destruct (executeTestRun config _) as [[testRunId|e] w2] eqn:Hrun; [|done].
  simpl in Hsteady, Hem, Hcalls.
  apply executeTestRun_returned in Hrun as (row & results & Hrow & Hst & Hrate & _ & _).
  destruct (number_ge _ _) eqn:Hge; [done|].
  assert (Hplain :
    (Returned (NextIteration
       {| ls_cycleCount := ls_cycleCount st + 1;
          ls_currentPassRate := measured testRunId w2;
          ls_testRunIds := ls_testRunIds st ++ [testRunId];
          ls_optimizationIds := ls_optimizationIds st |}),
     emitting cycleId (test_run_complete (ls_cycleCount st + 1) (measured testRunId w2)) w2)
    = (Returned (NextIteration st'), w1) →
    running_flag cycleId w
    ∧ ∃ served testRunId opts row,
      steady served w w1
      ∧ st' = {| ls_cycleCount := ls_cycleCount st + 1;
                 ls_currentPassRate := measured testRunId w1;
                 ls_testRunIds := ls_testRunIds st ++ [testRunId];
                 ls_optimizationIds := ls_optimizationIds st ++ opts |}
      ∧ number_ge (measured testRunId w1) (targetThreshold config) = false
      ∧ emitted w1
        = emitted w
          ++ [(cycleId, cycle_start (ls_cycleCount st + 1));
              (cycleId, test_run_complete (ls_cycleCount st + 1)
                          (measured testRunId w1))]
          ++ ((λ _, (cycleId, optimization_complete (ls_cycleCount st + 1))) <$> opts)
      ∧ calls w1 = calls w ++ Call_executeTestRun :: ((λ _, Call_optimizePrompt) <$> opts)
      ∧ (length opts ≤ 1)%nat
      ∧ (opts ≠ [] → ls_cycleCount st + 1 < maxCycles config)
      ∧ TestRun_t (database w1) !! testRunId = Some row
      ∧ tr_status row = run_completed
      ∧ (∃ results, overallPassRate row = Some (calculatePassRate results))
      ∧ Forall (λ o, ∃ orow, OptimizationRecord_t (database w1) !! o = Some orow
                             ∧ opt_status orow = accepted) opts).
  { intros [= <- <-]. split; [done|]. exists served, testRunId, [], row.
    unfold measured in *. simpl. rewrite app_nil_r, Hem, Hcalls. simpl.
    rewrite <- !app_assoc. simpl.
    split; [by eapply steady_outside; [..|exact Hsteady]|].
    split; [done|]. split; [done|]. split; [done|]. split; [done|].
    split; [lia|]. split; [done|]. split; [done|]. split; [done|].
    split; [eauto|done]. }
  destruct (bool_decide (ls_cycleCount st + 1 < maxCycles config)) eqn:Hlast;
    [|exact Hplain].
  destruct (bool_decide (0 < length _)%nat); [|exact Hplain].
  clear Hplain. simpl.
  destruct (Agent_t (database w2) !! agentId config) as [a|]; [|done].
  match goal with
  | |- context [optimizePrompt ?t ?ag ?o ?fs ?ps ?w0] =>
      destruct (optimizePrompt_steady t ag o fs ps w0) as (served' & Hsteady' & Hem' & Hcalls');
      destruct (optimizePrompt t ag o fs ps w0) as [[optRecord|e] w4] eqn:Hopt; [|done]
  end.
  simpl in Hsteady', Hem', Hcalls'.
  apply optimizePrompt_returned in Hopt as (Hruns & orow & Horow & _).
  intros [= <- <-]. split; [done|].
  exists (served ++ served'), testRunId, [sor_id optRecord], row.
  unfold measured in *. simpl in *. rewrite Hruns, Hem', Hcalls', Hem, Hcalls. simpl.
  rewrite <- !app_assoc. simpl.
  split.
  { eapply (steady_trans _ _ _ w2).
    - by eapply steady_outside; [..|exact Hsteady].
    - by eapply steady_outside; [..|exact Hsteady']. }
  split; [done|]. split; [done|]. split; [done|]. split; [done|]. split; [done|].
  split; [by apply bool_decide_eq_true in Hlast|].
  split; [done|]. split; [done|]. split; [eauto|].
  constructor; [|done]. rewrite lookup_alter_eq, Horow. simpl. eauto.
Qed.

End loop4.





Section loop5.
Context {Σ : Type} `{!LLMService Σ} `{!AgentApi Σ}.
#[local] Existing Instance quiet_preorder.
#[local] Existing Instance same_runs_preorder.


End loop5.

Section loop6.
Context {Σ : Type} `{!LLMService Σ} `{!AgentApi Σ}.

Lemma cycle_record_finishing (cycleId : jsstring) (n : Z) (rate : number)
  (status_ : CycleStatus) (runs opts : list jsstring) (shown : option number)
  (w : World Σ) :
  cycle_record cycleId (finishing cycleId n rate status_ runs opts shown w)
  = persisted n rate status_ runs opts <$> cycle_record cycleId w.
Proof. unfold cycle_record. simpl. by rewrite lookup_alter_eq. Qed.

(** The loop after the cap: [updateCycleRecord] and [emit]. *)
Lemma cycle_loop_at_cap (fuel : nat) (cycleId : jsstring) (config : CycleConfig)
  (st : LoopState) (w : World Σ) :
  ¬ ls_cycleCount st < maxCycles config →
  cycle_loop fuel cycleId config st w
  = Some (Returned (),
          finishing cycleId (ls_cycleCount st) (ls_currentPassRate st) completed
            (ls_testRunIds st) (ls_optimizationIds st)
            (Some (ls_currentPassRate st)) w).
Proof. intros Hge. destruct fuel; simpl; by rewrite bool_decide_eq_false_2. Qed.

Lemma cycle_loop_step (fuel : nat) (cycleId : jsstring) (config : CycleConfig)
  (st : LoopState) (w : World Σ) :
  ls_cycleCount st < maxCycles config →
  cycle_loop (S fuel) cycleId config st w
  = match cycle_iteration cycleId config st w with
    | (Returned (NextIteration st'), w') => cycle_loop fuel cycleId config st' w'
    | (Returned ReturnFromLoop, w') => Some (Returned (), w')
    | (Threw e, w') => Some (Threw e, w')
    end.
Proof. intros Hlt. simpl. by rewrite bool_decide_eq_true_2. Qed.

Lemma cycle_loop_out_of_fuel (cycleId : jsstring) (config : CycleConfig)
  (st : LoopState) (w : World Σ) :
  ls_cycleCount st < maxCycles config → cycle_loop 0 cycleId config st w = None.
Proof. intros Hlt. simpl. by rewrite bool_decide_eq_true_2. Qed.


End loop6.

Section cycle_claims.
Context {Σ : Type} `{!LLMService Σ} `{!AgentApi Σ}.

(** The loop ends: one unit of fuel per iteration left before the cap. *)
Lemma cycle_loop_terminates (cycleId : jsstring) (config : CycleConfig) (fuel : nat) :
  ∀ (st : LoopState) (w : World Σ),
  (Z.to_nat (maxCycles config - ls_cycleCount st) ≤ fuel)%nat →
  ∃ res w', cycle_loop fuel cycleId config st w = Some (res, w').
Proof.
  induction fuel as [|fuel IH]; intros st w Hfuel.
  all: destruct (decide (ls_cycleCount st < maxCycles config)) as [Hlt|Hge].
  all: try (rewrite cycle_loop_at_cap by done; by eexists _, _).
  { lia. }
  rewrite cycle_loop_step by done.
  destruct (cycle_iteration cycleId config st w) as [[[st'|]|e] w1] eqn:Hiter;
    [|by eexists _, _..].
  apply iteration_next in Hiter as (_ & ? & ? & ? & ? & _ & -> & _).
  apply IH. simpl. lia.
Qed.

(** C2: an iteration [k = cycleCount + 1 <= maxCycles] whose test run
    returns a pass rate that meets the threshold ends the loop there: the
    record is persisted with status [completed] and [cycleCount = k], the
    only call of the iteration is that test run (no optimizer call, no test
    run of iteration [k + 1]), and [finished] follows [test_run_complete]
    directly. *)
Theorem threshold_ends_cycle (fuel : nat) (cycleId : jsstring)
  (config : CycleConfig) (st : LoopState) (w w2 : World Σ)
  (testRunId : jsstring) (record : CycleRecord) :
  ls_cycleCount st < maxCycles config →
  running_flag cycleId w →
  cycle_record cycleId w = Some record →
  executeTestRun config (entering cycleId (ls_cycleCount st + 1) w)
  = (Returned testRunId, w2) →
  number_ge (measured testRunId w2) (targetThreshold config) = true →
  ∃ w',
    cycle_loop (S fuel) cycleId config st w = Some (Returned (), w')
    ∧ cycle_record cycleId w'
      = Some (persisted (ls_cycleCount st + 1) (measured testRunId w2) completed
                (ls_testRunIds st ++ [testRunId]) (ls_optimizationIds st) record)
    ∧ calls w' = calls w ++ [Call_executeTestRun]
    ∧ emitted w'
      = emitted w
        ++ [(cycleId, cycle_start (ls_cycleCount st + 1));
            (cycleId, test_run_complete (ls_cycleCount st + 1)
                        (measured testRunId w2));
            (cycleId, finished completed (Some (measured testRunId w2)))].
Proof.
  intros Hlt [Hc Hp] Hrec Hrun Hge.
  rewrite cycle_loop_step, cycle_iteration_eq by done. cbv zeta.
  rewrite !decide_False by done.
  destruct (executeTestRun_steady config (entering cycleId (ls_cycleCount st + 1) w))
    as (served & (Hr & _) & Hem & Hcalls).
  rewrite Hrun in *. simpl in Hr, Hem, Hcalls. rewrite Hge.
  eexists. split; [reflexivity|].
  rewrite cycle_record_finishing. unfold cycle_record in *. simpl.
  rewrite Hr, Hrec, Hem, Hcalls, <- !app_assoc. done.
Qed.

(** Once a cancel request for a running cycle has been served, only a pause
    request can take the flag away from [cancelled]. *)
Lemma cancelled_flag_stays (cycleId : jsstring) (records : gmap jsstring CycleRecord)
  (record : CycleRecord) (requests : list Request) :
  records !! cycleId = Some record → cyc_status record = running →
  PauseRequest cycleId ∉ requests →
  ∀ flags, flags !! cycleId = Some cancelled →
    foldl (request_flag records) flags requests !! cycleId = Some cancelled.
Proof.
  intros Hrec Hst. induction requests as [|r requests IH]; intros Hp flags Hflag;
    [done|].
  apply not_elem_of_cons in Hp as [Hr Hp]. simpl. apply IH; [done|].
  unfold request_flag.
  destruct (decide ((request_target r).1 = cycleId)) as [Heq|Hne].
  - rewrite Heq, Hrec, Hst.
    destruct r; simpl in *; subst; [by rewrite lookup_insert_eq|done|done].
  - destruct (records !! (request_target r).1); [|done].
    destruct (cycle_edge _ _); [|done]. by rewrite lookup_insert_ne.
Qed.

Lemma cancel_request_sets_flag (cycleId : jsstring) (records : gmap jsstring CycleRecord)
  (record : CycleRecord) (requests : list Request) :
  records !! cycleId = Some record → cyc_status record = running →
  CancelRequest cycleId ∈ requests → PauseRequest cycleId ∉ requests →
  ∀ flags, foldl (request_flag records) flags requests !! cycleId = Some cancelled.
Proof.
  intros Hrec Hst. induction requests as [|r requests IH]; intros Hc Hp flags.
  { by apply elem_of_nil in Hc. }
  apply not_elem_of_cons in Hp as [Hr Hp]. simpl.
  apply elem_of_cons in Hc as [<-|Hc]; [|by apply IH].
  eapply cancelled_flag_stays; [done..|].
  unfold request_flag. simpl. rewrite Hrec, Hst. simpl. by rewrite lookup_insert_eq.
Qed.

End cycle_claims.

(** ** Prompt optimizer *)

(** C4 fails on the code: with a non-empty list of failures and a client
    that returns the original prompt as its revision, [optimizePrompt]
    returns, and persists, a record whose [revisedPrompt] is the
    [originalPrompt]. *)
Lemma optimizePrompt_accepts_identical_revision : ¬ rejects_identical_revision.
Proof.
  intros Hclaim.
  destruct (Hclaim unit EchoLLM (lit "run-1") (lit "agent-1") (lit "Be nice")
              [sample_failure] [] (world_after_run ())
              {| or_originalPrompt := lit "Be nice"; or_revisedPrompt := lit "Be nice";
                 or_changes := []; or_targetedFailures := [] |} ())
    as (e & w' & Hthrew); [done|reflexivity|reflexivity|].
  vm_compute in Hthrew. discriminate.
Qed.

Example optimizePrompt_identical_revision_run :
  ∃ w', @optimizePrompt unit EchoLLM (lit "run-1") (lit "agent-1") (lit "Be nice")
          [sample_failure] [] (world_after_run ())
        = (Returned {| sor_id := uuid_of 0; sor_testRunId := lit "run-1";
                       sor_agentId := lit "agent-1";
                       originalPrompt := lit "Be nice";
                       revisedPrompt := lit "Be nice"; changes := [];
                       targetedFailures := []; sor_status := generated |}, w')
        ∧ OptimizationRecord_t (database w') !! uuid_of 0
          = Some {| opt_testRunId := lit "run-1"; opt_agentId := lit "agent-1";
                    opt_originalPrompt := lit "Be nice";
                    opt_revisedPrompt := lit "Be nice"; opt_changes := [];
                    opt_status := generated |}.
Proof. eexists. split; vm_compute; reflexivity. Qed.

(** C4, as the code has it: [optimizePrompt] does not compare the revision
    with the original. Whenever the client answers (and the new row can be
    inserted: fresh id, existing test run and agent), the client's revision,
    identical to the original or not, is persisted and returned in a record
    with status [generated]; the only error it surfaces for a client that
    answers is none, and when the client throws, that error is thrown on and
    no record is written. *)
Theorem optimizePrompt_keeps_client_revision {Σ : Type} `{!LLMService Σ}
  (testRunId agentId_ originalPrompt_ : jsstring)
  (failures passes : list CriterionResult) (w : World Σ) :
  OptimizationRecord_t (database w) !! uuid_of (uuids w) = None →
  is_Some (TestRun_t (database w) !! testRunId) →
  is_Some (Agent_t (database w) !! agentId_) →
  (∀ result σ',
     llm_optimizePrompt originalPrompt_ failures passes (oracle w)
     = (Returned result, σ') →
     ∃ w',
       optimizePrompt testRunId agentId_ originalPrompt_ failures passes w
       = (Returned {| sor_id := uuid_of (uuids w); sor_testRunId := testRunId;
                      sor_agentId := agentId_; originalPrompt := originalPrompt_;
                      revisedPrompt := or_revisedPrompt result;
                      changes := or_changes result;
                      targetedFailures := or_targetedFailures result;
                      sor_status := generated |}, w')
       ∧ OptimizationRecord_t (database w') !! uuid_of (uuids w)
         = Some {| opt_testRunId := testRunId; opt_agentId := agentId_;
                   opt_originalPrompt := originalPrompt_;
                   opt_revisedPrompt := or_revisedPrompt result;
                   opt_changes := or_changes result; opt_status := generated |})
  ∧ (∀ e σ',
       llm_optimizePrompt originalPrompt_ failures passes (oracle w) = (Threw e, σ') →
       ∃ w',
         optimizePrompt testRunId agentId_ originalPrompt_ failures passes w
         = (Threw e, w')
         ∧ OptimizationRecord_t (database w') = OptimizationRecord_t (database w)).
Proof.
  intros Hfresh Hrun Hagent. split.
  - intros result σ' Hllm. by eapply optimizePrompt_run.
  - intros e σ' Hllm. unfold optimizePrompt, mbind, M_bind, await. rewrite Hllm.
    eexists. split; [reflexivity|].
    by destruct (arrivals_database (set_oracle σ' w)) as (-> & _).
Qed.

Lemma optimizePrompt_keeps_client_revision_witness :
  ∃ w',
    @optimizePrompt unit EchoLLM (lit "run-1") (lit "agent-1") (lit "Be nice")
      [sample_failure] [] (world_after_run ())
    = (Returned {| sor_id := uuid_of 0; sor_testRunId := lit "run-1";
                   sor_agentId := lit "agent-1"; originalPrompt := lit "Be nice";
                   revisedPrompt := lit "Be nice"; changes := [];
                   targetedFailures := []; sor_status := generated |}, w')
    ∧ OptimizationRecord_t (database w') !! uuid_of 0
      = Some {| opt_testRunId := lit "run-1"; opt_agentId := lit "agent-1";
                opt_originalPrompt := lit "Be nice";
                opt_revisedPrompt := lit "Be nice"; opt_changes := [];
                opt_status := generated |}.
Proof.
  assert (Hfresh : OptimizationRecord_t (database (world_after_run ())) !! uuid_of 0
                   = None) by reflexivity.
  assert (Hrun : is_Some (TestRun_t (database (world_after_run ())) !! lit "run-1"))
    by (vm_compute; eauto).
  assert (Hagent : is_Some (Agent_t (database (world_after_run ())) !! lit "agent-1"))
    by (vm_compute; eauto).
  destruct (@optimizePrompt_keeps_client_revision unit EchoLLM (lit "run-1")
              (lit "agent-1") (lit "Be nice") [sample_failure] []
              (world_after_run ()) Hfresh Hrun Hagent) as [Hreturns _].
  exact (Hreturns {| or_originalPrompt := lit "Be nice";
                     or_revisedPrompt := lit "Be nice";
                     or_changes := []; or_targetedFailures := [] |} () eq_refl).
Defined.

(** ** Result evaluator *)

Lemma trimStart_head (s : jsstring) (c : N) (rest : jsstring) :
  trimStart s = c :: rest → isWhiteSpace c = false.
Proof.
  induction s as [|x s IH]; simpl; [done|].
  destruct (isWhiteSpace x) eqn:Ex; [done|]. by intros [= <- _].
Qed.

Lemma trimStart_empty (s : jsstring) : trimStart s = [] ↔ whitespace_only s.
Proof.
  unfold whitespace_only. induction s as [|x s IH]; simpl; [done|].
  destruct (isWhiteSpace x) eqn:Ex.
  - rewrite IH, Forall_cons. tauto.
  - split; [done|]. intros [Hx _]%Forall_cons. congruence.
Qed.

(** [trim] leaves nothing exactly of the strings made of white space. *)
Lemma trim_empty (s : jsstring) : trim s = [] ↔ whitespace_only s.
Proof.
  unfold trim, trimEnd. split.
  - intros Hempty.
    assert (Hrev : trimStart (reverse (trimStart s)) = []).
    { apply (f_equal reverse) in Hempty. by rewrite reverse_involutive in Hempty. }
    apply trimStart_empty in Hrev. unfold whitespace_only in Hrev.
    rewrite Forall_reverse in Hrev.
    destruct (trimStart s) as [|c rest] eqn:Es; [by apply trimStart_empty|].
    apply trimStart_head in Es. apply Forall_cons in Hrev as [Hc _]. congruence.
  - intros Hws. apply trimStart_empty in Hws. by rewrite Hws.
Qed.

Lemma blank_explanation_spec (e : option jsstring) :
  blank_explanation e = true
  ↔ e = None ∨ ∃ s, e = Some s ∧ whitespace_only s.
Proof.
  destruct e as [s|]; simpl; [|by split; [left|]].
  rewrite orb_true_iff, !bool_decide_eq_true, trim_empty. split.
  - intros [->|Hws]; right.
    + exists []. by split; [|constructor].
    + by exists s.
  - intros [?|(s' & [= <-] & Hws)]; [done|]. by right.
Qed.

Lemma await_returned {Σ A} `{!LLMService Σ} `{!AgentApi Σ} (call : M Σ A)
  (w w' : World Σ) (a : A) :
  await call w = (Returned a, w') → ∃ σ', call (oracle w) = (Returned a, σ').
Proof.
  unfold await. destruct (call (oracle w)) as [r σ]. intros [= -> _]. by exists σ.
Qed.

(** C6: a result that [evaluateCriterion] returns with [passed = false]
    carries a non-empty explanation. If the client answered [passed = false]
    with an explanation that is missing or made of white space only, the
    explanation returned is the synthesized sentence, which is not empty and
    quotes the description of the criterion. *)
Theorem evaluateCriterion_explains_failures {Σ : Type} `{!LLMService Σ}
  `{!AgentApi Σ} (agentResponses_ : list AgentResponse)
  (criterion : SuccessCriterion) (w w' : World Σ) (result : CriterionResult) :
  evaluateCriterion agentResponses_ criterion w = (Returned result, w') →
  ∃ responseText raw σ',
    llm_evaluateCriterion responseText criterion (oracle w) = (Returned raw, σ')
    ∧ passed result = passed raw
    ∧ (passed result = false →
       ∃ text, explanation result = Some text ∧ text ≠ [])
    ∧ (passed raw = false →
       explanation raw = None
       ∨ (∃ s, explanation raw = Some s ∧ whitespace_only s) →
       explanation result = Some (synthesized_explanation criterion))
    ∧ synthesized_explanation criterion ≠ []
    ∧ ∃ before after,
        synthesized_explanation criterion = before ++ description criterion ++ after.
Proof.
  unfold evaluateCriterion. cbv zeta. intros Hrun.
  apply bind_returned in Hrun as (raw & w1 & Hllm & Hrun).
  apply await_returned in Hllm as (σ' & Hllm).
  eexists _, raw, σ'. split; [exact Hllm|].
  assert (Hsyn : synthesized_explanation criterion ≠ []) by done.
  destruct (negb (passed raw) && blank_explanation (explanation raw)) eqn:Hblank;
    unfold mret, M_ret in Hrun; injection Hrun as <- <-; simpl.
  - apply andb_true_iff in Hblank as [Hfailed Hblank].
    split; [done|]. split; [by eauto|]. split; [done|]. split; [done|].
    by exists (lit "Criterion " ++ dquote),
              (dquote ++ lit " was not met by the agent response.").
  - split; [done|]. split; [|split; [|split]].
    + intros Hfailed. rewrite Hfailed in Hblank. simpl in Hblank.
      destruct (explanation raw) as [text|] eqn:Hex; [|done].
      exists text. split; [done|]. intros ->. done.
    + intros Hfailed Hmissing. rewrite Hfailed in Hblank. simpl in Hblank.
      apply blank_explanation_spec in Hmissing. congruence.
    + done.
    + by exists (lit "Criterion " ++ dquote),
                (dquote ++ lit " was not met by the agent response.").
Qed.

Lemma evaluateCriterion_explains_failures_witness :
  let criterion := {| sc_id := lit "sc-1-1"; description := lit "Greets the caller";
                      evaluationPrompt := lit "Does the agent greet?" |} in
  let result := {| criterionId := lit "sc-1-1"; passed := false;
                   explanation := Some (synthesized_explanation criterion) |} in
  @evaluateCriterion unit (FailingLLM (Some (lit "   "))) [] criterion (sample_world () [])
  = (Returned result, sample_world () [])
  ∧ ∃ text, explanation result = Some text ∧ text ≠ [].
Proof.
  intros criterion result.
  assert (Hrun : @evaluateCriterion unit (FailingLLM (Some (lit "   "))) [] criterion
                   (sample_world () [])
                 = (Returned result, sample_world () []))
    by (vm_compute; reflexivity).
  split; [exact Hrun|].
  destruct (@evaluateCriterion_explains_failures unit (FailingLLM (Some (lit "   ")))
              MockAgentApi [] criterion (sample_world () []) (sample_world () [])
              result Hrun)
    as (responseText & raw & σ' & _ & _ & Hexplained & _).
  apply Hexplained. reflexivity.
Defined.

(** ** Concrete runs of the cycle loop *)

(** The mock client passes every criterion: with threshold 0.9 the first
    iteration ends the cycle. *)
Lemma threshold_ends_cycle_witness :
  let config := sample_config (Finite (9 # 10)) 3 in
  let w := started_world () (Finite (9 # 10)) 3 [] in
  let st := {| ls_cycleCount := 0; ls_currentPassRate := Finite 0;
               ls_testRunIds := []; ls_optimizationIds := [] |} in
  ∃ w',
    @cycle_loop unit MockLLMService MockAgentApi 1 (lit "cycle-1") config st w
    = Some (Returned (), w')
    ∧ cyc_status <$> cycle_record (lit "cycle-1") w' = Some completed
    ∧ cycleCount <$> cycle_record (lit "cycle-1") w' = Some 1
    ∧ calls w' = [Call_executeTestRun].
Proof.
  intros config w st.
  pose (w1 := @entering unit (lit "cycle-1") (ls_cycleCount st + 1) w).
  assert (Hrun : @executeTestRun unit MockLLMService MockAgentApi config w1
                 = (Returned (uuid_of 0),
                    (@executeTestRun unit MockLLMService MockAgentApi config w1).2))
    by (vm_compute; reflexivity).
  destruct (@threshold_ends_cycle unit MockLLMService MockAgentApi 0 (lit "cycle-1")
              config st w
              (@executeTestRun unit MockLLMService MockAgentApi config w1).2
              (uuid_of 0) (sample_cycle_record (Finite (9 # 10)) 3))
    as (w' & Hloop & Hrec & Hcalls & _).
  - simpl. lia.
  - split; by vm_compute.
  - by vm_compute.
  - exact Hrun.
  - vm_compute. reflexivity.
  - exists w'. split; [exact Hloop|]. rewrite Hrec. simpl.
    split; [done|]. split; [done|]. exact Hcalls.
Defined.

(** C3 fails on the code: a cancel request served during the only
    iteration allowed ([maxCycles = 1]) is accepted, the flag reads
    [cancelled], and the loop, which leaves at the cap without reading the
    flag, persists [completed]. *)
Lemma cancel_in_last_iteration_persists_completed :
  ¬ cancel_always_persists_cancelled.
Proof.
  intros Hclaim.
  pose (config := sample_config (Finite (9 # 10)) 1).
  pose (w := @started_world unit () (Finite (9 # 10)) 1 [[CancelRequest (lit "cycle-1")]]).
  pose (st := {| ls_cycleCount := 0; ls_currentPassRate := Finite 0;
                 ls_testRunIds := []; ls_optimizationIds := [] |}).
  destruct (@cycle_iteration unit (FailingLLM None) MockAgentApi (lit "cycle-1")
              config st w) as [[step|e] w1] eqn:Hiter;
    [|vm_compute in Hiter; discriminate].
  destruct (@cycle_loop unit (FailingLLM None) MockAgentApi 2 (lit "cycle-1")
              config st w) as [[[[]|e] w']|] eqn:Hloop;
    [|vm_compute in Hloop; discriminate..].
  assert (Hstatus : cyc_status <$> cycle_record (lit "cycle-1") w' = Some cancelled).
  { apply (Hclaim unit (FailingLLM None) MockAgentApi 2%nat (lit "cycle-1") config st
             w w1 w' step (sample_cycle_record (Finite (9 # 10)) 1)
             [[CancelRequest (lit "cycle-1")]]).
    - simpl. lia.
    - by vm_compute.
    - reflexivity.
    - split; by vm_compute.
    - exact Hiter.
    - vm_compute in Hiter. injection Hiter as <- <-. reflexivity.
    - simpl. rewrite elem_of_cons. by left.
    - simpl. intros Hin. apply elem_of_cons in Hin as [Hin|Hin]; [discriminate|].
      by apply elem_of_nil in Hin.
    - exact Hloop. }
  vm_compute in Hloop. injection Hloop as <-. vm_compute in Hstatus. discriminate.
Qed.

Example cancel_in_last_iteration_run :
  cycle_outcome (lit "cycle-1")
    (@runCycleLoop unit (FailingLLM None) MockAgentApi 1 (lit "cycle-1")
       (sample_config (Finite (9 # 10)) 1)
       (started_world () (Finite (9 # 10)) 1 [[CancelRequest (lit "cycle-1")]]))
  = Some (Returned (), Some cancelled, Some completed, Some 1,
          [(lit "cycle-1", cycle_start 1);
           (lit "cycle-1", test_run_complete 1 (Finite (0 # 2)));
           (lit "cycle-1", finished completed (Some (Finite (0 # 2))))],
          [Call_executeTestRun]).
Proof. vm_compute. reflexivity. Qed.

(** * Further properties of the code *)

(** ** Pass rate: what it depends on *)

Lemma calculatePassRate_counts (rs : list TestCaseResult) :
  calculatePassRate rs
  = if decide (completedCriteria rs = 0%nat) then Finite 0
    else Finite (inject_Z (Z.of_nat (completedPassed rs))
                 / inject_Z (Z.of_nat (completedCriteria rs))).
Proof.
  unfold calculatePassRate. cbv zeta.
  rewrite completed_passed_length, completed_criteria_length.
  destruct (decide (completedCriteria rs = 0%nat)) as [|Hn]; [done|].
  by apply number_div_counts.
Qed.

Lemma completed_counts_filter (rs : list TestCaseResult) :
  completedCriteria (filter (λ r, status r = case_completed) rs) = completedCriteria rs
  ∧ completedPassed (filter (λ r, status r = case_completed) rs) = completedPassed rs.
Proof.
  induction rs as [|r rs [IH1 IH2]]; [done|].
  rewrite filter_cons. destruct (status r) eqn:E.
  - rewrite decide_True by done. simpl. rewrite E, IH1, IH2. done.
  - rewrite decide_False by done. simpl. rewrite E. done.
Qed.

Lemma completed_counts_perm (rs rs' : list TestCaseResult) :
  rs ≡ₚ rs' →
  completedCriteria rs = completedCriteria rs'
  ∧ completedPassed rs = completedPassed rs'.
Proof.
  induction 1 as [|r rs rs' _ [IH1 IH2]|r r' rs|rs1 rs2 rs3 _ [IH1 IH2] _ [IH3 IH4]];
    simpl.
  - done.
  - rewrite IH1, IH2. by destruct (status r).
  - destruct (status r), (status r'); split; lia.
  - split; congruence.
Qed.

(** X1: the pass rate depends only on the results with status [completed],
    and not on their order: two lists whose completed results are the same
    up to order have the same pass rate. In particular results with status
    [error] can be added or dropped freely. *)
Theorem calculatePassRate_completed_only (rs rs' : list TestCaseResult) :
  filter (λ r, status r = case_completed) rs
  ≡ₚ filter (λ r, status r = case_completed) rs' →
  calculatePassRate rs = calculatePassRate rs'.
Proof.
  intros Hperm. rewrite !calculatePassRate_counts.
  destruct (completed_counts_filter rs) as [<- <-].
  destruct (completed_counts_filter rs') as [<- <-].
  by destruct (completed_counts_perm _ _ Hperm) as [-> ->].
Qed.

Lemma countPassed_all (cs : list CriterionResult) :
  countPassed cs = length cs ↔ Forall (λ c, passed c = true) cs.
Proof.
  induction cs as [|c cs IH]; simpl; [by split|].
  pose proof (countPassed_le cs). rewrite Forall_cons. destruct (passed c).
  - rewrite <- IH. split; [intros [= ?]; done|intros [_ ->]; done].
  - split; [lia|]. intros [? _]. done.
Qed.

Lemma completedPassed_all (rs : list TestCaseResult) :
  completedPassed rs = completedCriteria rs
  ↔ Forall (λ c, passed c = true)
      (filter (λ r, status r = case_completed) rs ≫= criterionResults).
Proof.
  induction rs as [|r rs IH]; [by split|].
  rewrite filter_cons. simpl. pose proof (completedPassed_le rs).
  pose proof (countPassed_le (criterionResults r)).
  destruct (status r) eqn:E.
  - rewrite decide_True by done. rewrite bind_cons, Forall_app, <- IH, <- countPassed_all.
    lia.
  - rewrite decide_False by done. exact IH.
Qed.

(** X2: the pass rate reaches 1 exactly when there is at least one criterion
    among the completed results and every one of them passed; so with a
    threshold of 1 the loop's check [passRate >= targetThreshold] asks for
    exactly that. *)
Theorem calculatePassRate_full_marks (rs : list TestCaseResult) :
  number_ge (calculatePassRate rs) (Finite 1) = true
  ↔ completedCriteria rs ≠ 0%nat
    ∧ Forall (λ c, passed c = true)
        (filter (λ r, status r = case_completed) rs ≫= criterionResults).
Proof.
  rewrite calculatePassRate_counts, <- completedPassed_all.
  pose proof (completedPassed_le rs) as Hle.
  destruct (decide (completedCriteria rs = 0%nat)) as [Hz|Hn]; simpl.
  - split; [done|]. intros [? _]. done.
  - rewrite Qle_bool_iff.
    assert (Hpos : (0 < inject_Z (Z.of_nat (completedCriteria rs)))%Q).
    { unfold Qlt. simpl. lia. }
    split.
    + intros Hone. split; [done|].
      pose proof (Qmult_le_compat_r _ _ _ Hone (Qlt_le_weak _ _ Hpos)) as Hmul.
      rewrite Qmult_1_l, Qmult_comm, Qmult_div_r in Hmul by (by apply Qnot_eq_sym, Qlt_not_eq).
      rewrite <- Zle_Qle in Hmul. lia.
    + intros [_ ->]. apply Qle_shift_div_l; [done|]. rewrite Qmult_1_l. apply Qle_refl.
Qed.

Lemma calculatePassRate_completed_only_witness :
  calculatePassRate [sample_error_result; sample_passing_result; sample_error_result]
  = calculatePassRate [sample_passing_result].
Proof.
  apply (calculatePassRate_completed_only
           [sample_error_result; sample_passing_result; sample_error_result]
           [sample_passing_result]).
  vm_compute. reflexivity.
Defined.

(** ** Retry: the edges *)

(** X3: with a negative [maxRetries] the loop body never runs: [fn] is not
    called once, nothing is slept, and what is thrown is [undefined], the
    initial value of [lastError]. *)
Theorem retryWithBackoff_negative_retries {St T} (fn : M St T) (maxRetries D : Z)
  (sleepFn : Z → M St unit) (s : St) :
  maxRetries < 0 →
  retryWithBackoff fn maxRetries D sleepFn s = (Threw Undefined, s).
Proof.
  intros Hneg. unfold retryWithBackoff.
  replace (Z.to_nat (maxRetries + 1)) with 0%nat by lia. done.
Qed.

Lemma retryWithBackoff_negative_retries_witness :
  retryWithBackoff (recorded_fn flaky_outcomes) (-1) 1000 recorded_sleep []
  = (Threw Undefined, []).
Proof.
  apply (retryWithBackoff_negative_retries (recorded_fn flaky_outcomes) (-1) 1000
           recorded_sleep []).
  lia.
Defined.

(** X4: an error thrown by [sleepFn] is not retried: when the first attempt
    fails and the sleep that follows throws, the call ends there with the
    error of the sleep, whatever [maxRetries] allowed and whatever the
    attempt threw. *)
Theorem retryWithBackoff_sleep_error_escapes {St T} (fn : M St T) (maxRetries D : Z)
  (sleepFn : Z → M St unit) (s s1 s2 : St) (e e' : thrown) :
  0 < maxRetries →
  fn s = (Threw e, s1) →
  sleepFn D s1 = (Threw e', s2) →
  retryWithBackoff fn maxRetries D sleepFn s = (Threw e', s2).
Proof.
  intros Hpos Hfn Hsleep. unfold retryWithBackoff.
  destruct (Z.to_nat (maxRetries + 1)) as [|n] eqn:En; [lia|].
  simpl. unfold try_catch. rewrite Hfn.
  rewrite bool_decide_eq_true_2 by done.
  unfold mbind, M_bind. rewrite Z.pow_0_r, Z.mul_1_r, Hsleep. done.
Qed.

Lemma retryWithBackoff_sleep_error_escapes_witness :
  retryWithBackoff (recorded_fn always_failing) 3 1000
    (failing_sleep (ErrorObject (lit "aborted"))) []
  = (Threw (ErrorObject (lit "aborted")), [Attempted 0; Slept 1000]).
Proof.
  apply (retryWithBackoff_sleep_error_escapes (recorded_fn always_failing) 3 1000
           (failing_sleep (ErrorObject (lit "aborted"))) [] [Attempted 0%nat]
           [Attempted 0%nat; Slept 1000] (ErrorObject (lit "rate limited"))).
  - lia.
  - reflexivity.
  - reflexivity.
Defined.

Lemma total_slept_app (l1 l2 : list RetryEvent) :
  total_slept (l1 ++ l2) = total_slept l1 + total_slept l2.
Proof. induction l1 as [|[a|ms] l1 IH]; simpl; lia. Qed.

Lemma total_slept_failed (D : Z) (k : nat) :
  total_slept (failed_attempts D k) = D * (2 ^ Z.of_nat k - 1).
Proof.
  induction k as [|k IH]; [simpl; lia|].
  rewrite failed_attempts_S, total_slept_app, IH. simpl.
  rewrite Nat2Z.inj_succ, Z.pow_succ_r by lia. lia.
Qed.

(** X5: when every attempt fails, [fn] is called [maxRetries + 1] times and
    the time slept in between adds up to [initialDelayMs * (2^maxRetries - 1)];
    no sleep follows the last attempt. *)
Theorem retryWithBackoff_total_backoff {T} (outcomes : nat → thrown + T)
  (maxRetries initialDelayMs : Z) :
  0 ≤ maxRetries →
  (∀ a, ∃ e, outcomes a = inl e) →
  ∃ e log,
    retryWithBackoff (recorded_fn outcomes) maxRetries initialDelayMs
      recorded_sleep [] = (Threw e, log)
    ∧ Z.of_nat (attempts_made log) = maxRetries + 1
    ∧ total_slept log = initialDelayMs * (2 ^ maxRetries - 1)
    ∧ last log = Some (Attempted (Z.to_nat maxRetries)).
Proof.
  intros HR Hfail. unfold retryWithBackoff.
  destruct (retry_attempts_run outcomes maxRetries initialDelayMs
              (Z.to_nat (maxRetries + 1)) 0 None ltac:(lia) ltac:(lia))
    as (k & res & _ & HkR & _ & Hrun & Hres).
  destruct (Hfail k) as [e He]. rewrite He in Hres. destruct Hres as [Hk ->].
  exists (asError e), (failed_attempts initialDelayMs k ++ [Attempted k]).
  split; [exact Hrun|]. split; [|split].
  - rewrite attempts_made_app, attempts_made_failed. simpl. lia.
  - rewrite total_slept_app, total_slept_failed. simpl. rewrite Hk. lia.
  - rewrite last_snoc. do 2 f_equal. lia.
Qed.

Lemma retryWithBackoff_total_backoff_witness :
  ∃ e log,
    retryWithBackoff (recorded_fn always_failing) 3 1000 recorded_sleep []
    = (Threw e, log)
    ∧ Z.of_nat (attempts_made log) = 3 + 1
    ∧ total_slept log = 1000 * (2 ^ 3 - 1)
    ∧ last log = Some (Attempted (Z.to_nat 3)).
Proof.
  apply (retryWithBackoff_total_backoff always_failing 3 1000).
  - lia.
  - intros a. by eexists.
Defined.

(** ** Test executor and result evaluator *)

Section executor.
Context {Σ : Type} `{!LLMService Σ} `{!AgentApi Σ}.

Lemma bind_run {St A B} (m : M St A) (f : A → M St B) (s : St) :
  (m ≫= f) s
  = match m s with
    | (Returned a, s') => f a s'
    | (Threw e, s') => (Threw e, s')
    end.
Proof. reflexivity. Qed.

Lemma await_database {A} (call : M Σ A) (w : World Σ) :
  database (await call w).2 = database w ∧ uuids (await call w).2 = uuids w.
Proof.
  unfold await. destruct (call (oracle w)) as [r σ]. simpl.
  destruct (arrivals_database (set_oracle σ w)) as (-> & -> & _). done.
Qed.

Lemma collect_responses (agentPrompt : jsstring) (inputs : list UserInput) :
  ∀ (acc : list AgentResponse) (w w' : World Σ) (res : outcome (list AgentResponse)),
  foldM (λ agentResponses_ input,
           response ← await (simulateAgentResponse (ui_utterance input)
                               agentPrompt (ui_turn input));
           mret (agentResponses_ ++ [response]))
        acc inputs w = (res, w') →
  database w' = database w ∧ uuids w' = uuids w
  ∧ ∀ rs, res = Returned rs → length rs = (length acc + length inputs)%nat.
Proof.
  induction inputs as [|input inputs IH]; intros acc w w' res; simpl.
  { intros [= <- <-]. split; [done|]. split; [done|]. intros rs [= <-]. lia. }
  rewrite !bind_run.
  pose proof (await_database (simulateAgentResponse (ui_utterance input) agentPrompt
                                (ui_turn input)) w) as [Hd Hu].
  destruct (await _ w) as [[response|e] w1]; simpl in *.
  - intros Hrun. destruct (IH _ _ _ _ Hrun) as (Hd' & Hu' & Hlen).
    split; [congruence|]. split; [congruence|].
    intros rs Hrs. rewrite (Hlen rs Hrs), length_app. simpl. lia.
  - intros [= <- <-]. done.
Qed.

(** X6: [executeTestCase] turns a failure of the agent into a result: what it
    returns is for the test case it was given and has no criterion results
    yet; it is either [completed] with one response per user input and no
    error message, or [error] with no response at all and a non-empty error
    message. The only thing it can throw is the [TypeError] of reading
    [.message] of a caught [undefined] or [null], and it never writes the
    database or draws an identifier. *)
Theorem executeTestCase_completes_or_reports (testCase : TestCase)
  (agentPrompt : jsstring) (w : World Σ) :
  database (executeTestCase testCase agentPrompt w).2 = database w
  ∧ uuids (executeTestCase testCase agentPrompt w).2 = uuids w
  ∧ match (executeTestCase testCase agentPrompt w).1 with
    | Returned r =>
        testCaseId r = tc_id testCase ∧ criterionResults r = []
        ∧ match status r with
          | case_completed =>
              length (agentResponses r) = length (userInputSequence testCase)
              ∧ errorMessage r = None
          | case_error =>
              agentResponses r = []
              ∧ ∃ message, errorMessage r = Some message ∧ message ≠ []
          end
    | Threw e => e = MessageTypeError ∨ e = NullMessageTypeError
    end.
Proof.
  unfold executeTestCase, try_catch. rewrite bind_run.
  destruct (foldM _ [] (userInputSequence testCase) w) as [res w1] eqn:Hrun.
  destruct (collect_responses _ _ _ _ _ _ Hrun) as (Hd & Hu & Hlen).
  destruct res as [rs|e]; simpl.
  - split; [done|]. split; [done|]. split; [done|]. split; [done|].
    split; [|done]. by apply Hlen.
  - destruct e as [message|s|s message| |]; simpl; (split; [done|]); (split; [done|]);
      [| | |by left|by right].
    + split; [done|]. split; [done|]. split; [done|]. eexists. split; [done|].
      by case_decide.
    + split; [done|]. split; [done|]. split; [done|]. by eexists.
    + split; [done|]. split; [done|]. split; [done|]. eexists. split; [done|].
      by case_decide.
Qed.

Lemma evaluateCriterion_explained (agentResponses_ : list AgentResponse)
  (criterion : SuccessCriterion) (w w' : World Σ) (result : CriterionResult) :
  evaluateCriterion agentResponses_ criterion w = (Returned result, w') →
  passed result = false → blank_explanation (explanation result) = false.
Proof.
  unfold evaluateCriterion. cbv zeta. intros Hrun.
  apply bind_returned in Hrun as (raw & w1 & _ & Hrun).
  destruct (negb (passed raw) && blank_explanation (explanation raw)) eqn:Hblank;
    unfold mret, M_ret in Hrun; injection Hrun as <- <-; simpl.
  - intros _. apply bool_decide_eq_false.
    rewrite trim_empty. unfold whitespace_only, synthesized_explanation. simpl.
    intros [Hc _]%Forall_cons. done.
  - intros Hfailed. by rewrite Hfailed in Hblank.
Qed.

Lemma evaluateAllCriteria_loop (agentResponses_ : list AgentResponse)
  (criteria : list SuccessCriterion) :
  ∀ (acc results : list CriterionResult) (w w' : World Σ),
  foldM (λ results criterion,
           result ← evaluateCriterion agentResponses_ criterion;
           mret (results ++ [result]))
        acc criteria w = (Returned results, w') →
  ∃ new, results = acc ++ new
    ∧ Forall2 (λ criterion result,
                 ∃ wa wb, evaluateCriterion agentResponses_ criterion wa
                          = (Returned result, wb))
              criteria new.
Proof.
  induction criteria as [|criterion criteria IH]; intros acc results w w'; simpl.
  { intros [= <- <-]. exists []. by rewrite app_nil_r. }
  intros Hrun. apply bind_returned in Hrun as (acc' & w1 & Hstep & Hrun).
  apply bind_returned in Hstep as (result & w2 & Heval & [= <- <-]).
  destruct (IH _ _ _ _ Hrun) as (new & -> & Hnew).
  exists (result :: new). rewrite <- app_assoc. split; [done|].
  constructor; [by eauto|done].
Qed.

(** X7: when [evaluateAllCriteria] returns, its list has one result per
    criterion, in the order of the criteria, the [i]-th being what
    [evaluateCriterion] returned for the [i]-th criterion; hence every
    failed result in it carries an explanation that is neither missing nor
    blank. A criterion whose evaluation throws makes the whole call throw:
    no partial list is returned. *)
Theorem evaluateAllCriteria_in_order (agentResponses_ : list AgentResponse)
  (criteria : list SuccessCriterion) (w w' : World Σ)
  (results : list CriterionResult) :
  evaluateAllCriteria agentResponses_ criteria w = (Returned results, w') →
  length results = length criteria
  ∧ Forall2 (λ criterion result,
               ∃ wa wb, evaluateCriterion agentResponses_ criterion wa
                        = (Returned result, wb))
            criteria results
  ∧ Forall (λ result, passed result = false →
                      ∃ text, explanation result = Some text
                              ∧ text ≠ [] ∧ ¬ whitespace_only text)
           results.
Proof.
  unfold evaluateAllCriteria. intros Hrun.
  apply evaluateAllCriteria_loop in Hrun as (new & -> & Hall). simpl.
  split; [by rewrite (Forall2_length _ _ _ Hall)|]. split; [done|].
  induction Hall as [|criterion result criteria new (wa & wb & Heval) _ IH];
    constructor; [|done].
  intros Hfailed.
  pose proof (evaluateCriterion_explained _ _ _ _ _ Heval Hfailed) as Hblank.
  destruct (explanation result) as [text|] eqn:Hex; [|done].
  exists text. split; [done|]. simpl in Hblank.
  apply orb_false_iff in Hblank as [Hne Htrim].
  apply bool_decide_eq_false in Hne, Htrim. split; [done|].
  by rewrite <- trim_empty.
Qed.

End executor.

Lemma evaluateAllCriteria_in_order_witness :
  ∃ results,
    @evaluateAllCriteria unit (FailingLLM None) [] sample_criteria (sample_world () [])
    = (Returned results, sample_world () [])
    ∧ length results = length sample_criteria
    ∧ Forall (λ result, passed result = false →
                        ∃ text, explanation result = Some text
                                ∧ text ≠ [] ∧ ¬ whitespace_only text)
             results.
Proof.
  eexists. split; [vm_compute; reflexivity|].
  match goal with
  | |- length ?rs = _ ∧ _ =>
      destruct (@evaluateAllCriteria_in_order unit (FailingLLM None) []
                  sample_criteria (sample_world () []) (sample_world () []) rs)
        as (Hlen & _ & Hexplained)
  end.
  - vm_compute. reflexivity.
  - split; [exact Hlen|exact Hexplained].
Defined.

(** ** The table of [buildLCS] *)

Lemma dp_get_set (dp : list (list nat)) (i j i' j' v : nat) (row : list nat) :
  dp !! i = Some row → (j < length row)%nat →
  dp_get (dp_set dp i j v) i' j'
  = if decide (i' = i ∧ j' = j) then v else dp_get dp i' j'.
Proof.
  intros Hrow Hj. unfold dp_get, dp_set.
  destruct (decide (i' = i)) as [->|Hi].
  - rewrite list_lookup_alter_eq, Hrow. simpl.
    destruct (decide (j' = j)) as [->|Hj'].
    + rewrite decide_True by done. by rewrite list_lookup_insert_eq.
    + rewrite decide_False by (intros [_ ?]; done).
      by rewrite list_lookup_insert_ne.
  - rewrite decide_False by (intros [? _]; done).
    by rewrite list_lookup_alter_ne.
Qed.

Lemma lcs_cell_ext (a b : list jsstring) (dp dp' : list (list nat)) (i j : nat) :
  dp_get dp' (i - 1) (j - 1) = dp_get dp (i - 1) (j - 1) →
  dp_get dp' (i - 1) j = dp_get dp (i - 1) j →
  dp_get dp' i (j - 1) = dp_get dp i (j - 1) →
  lcs_cell a b dp' i j = lcs_cell a b dp i j.
Proof. unfold lcs_cell. by intros -> -> ->. Qed.

(** Assigning cell [(i, j)] moves the loops on by one cell. *)
Lemma lcs_table_assign (a b : list jsstring) (dp : list (list nat)) (i j : nat) :
  (1 ≤ i ≤ length a)%nat → (1 ≤ j ≤ length b)%nat →
  lcs_table_upto a b dp i j →
  lcs_table_upto a b (dp_set dp i j (lcs_cell a b dp i j)) i (j + 1).
Proof.
  intros Hi Hj (Hdims & Hborder & Hcells).
  destruct (Hdims i ltac:(lia)) as (row & Hrow & Hlen).
  assert (Hget : ∀ i' j', dp_get (dp_set dp i j (lcs_cell a b dp i j)) i' j'
                 = if decide (i' = i ∧ j' = j) then lcs_cell a b dp i j
                   else dp_get dp i' j').
  { intros i' j'. apply (dp_get_set dp i j i' j' _ row Hrow). lia. }
  split; [|split].
  - intros i' Hi'. unfold dp_set. destruct (decide (i' = i)) as [->|Hne].
    + rewrite list_lookup_alter_eq, Hrow. simpl. eexists. split; [done|].
      by rewrite length_insert.
    + rewrite list_lookup_alter_ne by done. by apply Hdims.
  - intros i' j' H0. rewrite Hget, decide_False by lia. by apply Hborder.
  - intros i' j' Hi' Hj' Hfilled. unfold filled in Hfilled.
    rewrite (lcs_cell_ext a b dp (dp_set dp i j (lcs_cell a b dp i j)) i' j')
      by (rewrite Hget; apply decide_False; lia).
    rewrite Hget. case_decide as Hhit.
    + destruct Hhit as [-> ->]. done.
    + apply Hcells; [done..|]. unfold filled. lia.
Qed.

Lemma lcs_table_row (a b : list jsstring) (i : nat) (js : list nat) :
  ∀ (dp : list (list nat)) (j0 : nat),
  (1 ≤ i ≤ length a)%nat → (1 ≤ j0)%nat → (j0 + length js ≤ length b + 1)%nat →
  js = seq j0 (length js) →
  lcs_table_upto a b dp i j0 →
  lcs_table_upto a b
    (foldl (λ dp j, dp_set dp i j (lcs_cell a b dp i j)) dp js) i (j0 + length js).
Proof.
  induction js as [|j js IH]; intros dp j0 Hi Hj0 Hlen Hseq Hinv; simpl.
  { by rewrite Nat.add_0_r. }
  simpl in Hseq. injection Hseq as -> Hseq. simpl in Hlen.
  replace (j0 + S (length js))%nat with ((j0 + 1) + length js)%nat by lia.
  apply IH; [done|lia|lia| |].
  - by rewrite Nat.add_1_r.
  - apply lcs_table_assign; [done|lia|done].
Qed.

Lemma lcs_table_next_row (a b : list jsstring) (dp : list (list nat)) (i : nat) :
  lcs_table_upto a b dp i (length b + 1) → lcs_table_upto a b dp (i + 1) 1.
Proof.
  intros (Hdims & Hborder & Hcells). split; [done|]. split; [done|].
  intros i' j' Hi' Hj' Hfilled. apply Hcells; [done..|]. unfold filled in *. lia.
Qed.

Lemma lcs_table_rows (a b : list jsstring) (rows : list nat) :
  ∀ (dp : list (list nat)) (i0 : nat),
  (1 ≤ i0)%nat → (i0 + length rows ≤ length a + 1)%nat →
  rows = seq i0 (length rows) →
  lcs_table_upto a b dp i0 1 →
  lcs_table_upto a b
    (foldl (λ dp i,
              foldl (λ dp j, dp_set dp i j (lcs_cell a b dp i j)) dp
                    (seq 1 (length b)))
           dp rows) (i0 + length rows) 1.
Proof.
  induction rows as [|i rows IH]; intros dp i0 Hi0 Hlen Hseq Hinv; simpl.
  { by rewrite Nat.add_0_r. }
  simpl in Hseq. injection Hseq as -> Hseq. simpl in Hlen.
  replace (i0 + S (length rows))%nat with ((i0 + 1) + length rows)%nat by lia.
  apply IH; [lia|lia| |].
  - by rewrite Nat.add_1_r.
  - apply lcs_table_next_row.
    pose proof (lcs_table_row a b i0 (seq 1 (length b)) dp 1) as Hrow.
    rewrite length_seq in Hrow. rewrite (Nat.add_comm (length b) 1).
    apply Hrow; [lia|lia|lia|done|done].
Qed.

(** The table [buildLCS] walks back through obeys the recurrence in every
    cell. *)
Lemma lcs_table_filled (a b : list jsstring) :
  lcs_table_upto a b (lcs_table a b) (length a + 1) 1.
Proof.
  unfold lcs_table. cbv zeta.
  pose proof (lcs_table_rows a b (seq 1 (length a))
                (replicate (length a + 1) (replicate (length b + 1) 0%nat)) 1) as Hrows.
  rewrite length_seq, (Nat.add_comm 1 (length a)) in Hrows.
  apply Hrows; [lia|lia|done|].
  split; [|split].
  - intros i Hi. eexists. split; [apply lookup_replicate_2; lia|].
    by rewrite length_replicate.
  - intros i j _. unfold dp_get.
    destruct (replicate (length a + 1) _ !! i) as [row|] eqn:Hrow; [|done].
    apply lookup_replicate in Hrow as [-> _]. simpl.
    destruct (replicate (length b + 1) 0%nat !! j) as [v|] eqn:Hv; [|done].
    by apply lookup_replicate in Hv as [-> _].
  - intros i j Hi Hj Hfilled. unfold filled in Hfilled. lia.
Qed.

Lemma sublist_snoc_r {A} (c l : list A) (x : A) :
  c `sublist_of` l ++ [x] →
  c `sublist_of` l ∨ ∃ c', c = c' ++ [x] ∧ c' `sublist_of` l.
Proof.
  intros (c1 & c2 & -> & H1 & H2)%sublist_app_r.
  apply sublist_cons_r in H2 as [H2|(c2' & -> & H2)];
    apply sublist_nil_r in H2 as ->.
  - left. by rewrite app_nil_r.
  - right. by exists c1.
Qed.

(** Every common subsequence of the first [i] lines of [a] and the first
    [j] lines of [b] is at most as long as cell [(i, j)] says. *)
Lemma lcs_table_bound (a b : list jsstring) (dp : list (list nat)) :
  lcs_table_upto a b dp (length a + 1) 1 →
  ∀ (n i j : nat) (c : list jsstring),
  (i + j = n)%nat → (i ≤ length a)%nat → (j ≤ length b)%nat →
  c `sublist_of` take i a → c `sublist_of` take j b →
  (length c ≤ dp_get dp i j)%nat.
Proof.
  intros (Hdims & Hborder & Hcells) n.
  induction n as [n IH] using lt_wf_ind. intros i j c Hn Hi Hj Ha Hb.
  destruct (decide (i = 0%nat)) as [->|Hi0].
  { apply sublist_nil_r in Ha as ->. simpl. lia. }
  destruct (decide (j = 0%nat)) as [->|Hj0].
  { apply sublist_nil_r in Hb as ->. simpl. lia. }
  rewrite Hcells by (unfold filled; lia). unfold lcs_cell.
  destruct (lookup_lt_is_Some_2 a (i - 1)%nat ltac:(lia)) as [x Hx].
  destruct (lookup_lt_is_Some_2 b (j - 1)%nat ltac:(lia)) as [y Hy].
  replace i with (S (i - 1)) in Ha by lia. rewrite (take_S_r _ _ _ Hx) in Ha.
  replace j with (S (j - 1)) in Hb by lia. rewrite (take_S_r _ _ _ Hy) in Hb.
  rewrite Hx, Hy.
  assert (Hrest : ∀ c' z, c = c' ++ [z] →
            c' `sublist_of` take (i - 1) a ∧ c' `sublist_of` take (j - 1) b).
  { intros c' z ->. split.
    - apply sublist_snoc_r in Ha as [Ha|(c2 & [-> _]%app_inj_tail & Ha)]; [|done].
      etrans; [|exact Ha]. by apply sublist_inserts_r.
    - apply sublist_snoc_r in Hb as [Hb|(c2 & [-> _]%app_inj_tail & Hb)]; [|done].
      etrans; [|exact Hb]. by apply sublist_inserts_r. }
  case_decide as Hxy.
  - destruct c as [|z c _] using rev_ind; [simpl; lia|].
    destruct (Hrest c z eq_refl) as [Ha' Hb'].
    rewrite length_app. simpl.
    pose proof (IH (i - 1 + (j - 1))%nat ltac:(lia) (i - 1)%nat (j - 1)%nat c
                  eq_refl ltac:(lia) ltac:(lia) Ha' Hb'). lia.
  - apply sublist_snoc_r in Ha as [Ha|(c1 & -> & Ha)].
    + assert (Hb' : c `sublist_of` take j b).
      { replace j with (S (j - 1)) by lia. by rewrite (take_S_r _ _ _ Hy). }
      pose proof (IH (i - 1 + j)%nat ltac:(lia) (i - 1)%nat j c
                    eq_refl ltac:(lia) ltac:(lia) Ha Hb'). lia.
    + apply sublist_snoc_r in Hb as [Hb|(c2 & [_ ->]%app_inj_tail & Hb)];
        [|congruence].
      assert (Ha' : c1 ++ [x] `sublist_of` take i a).
      { replace i with (S (i - 1)) by lia. rewrite (take_S_r _ _ _ Hx).
        by apply sublist_app. }
      pose proof (IH (i + (j - 1))%nat ltac:(lia) i (j - 1)%nat (c1 ++ [x])
                    eq_refl ltac:(lia) ltac:(lia) Ha' Hb). lia.
Qed.

(** The walk back collects as many lines as the cell it starts from says. *)
Lemma lcs_walk_length (a b : list jsstring) (dp : list (list nat)) (i j : nat)
  (result : list jsstring) :
  lcs_table_upto a b dp (length a + 1) 1 →
  (i ≤ length a)%nat → (j ≤ length b)%nat →
  length (lcs_walk a b dp i j result) = (dp_get dp i j + length result)%nat.
Proof.
  intros Htable. pose proof Htable as (Hdims & Hborder & Hcells).
  funelim (lcs_walk a b dp i j result); intros Hi Hj.
  - clear Heq Heqcall.
    match goal with Hpos : (0 < _)%nat ∧ _ |- _ => destruct Hpos as [Hi0 Hj0] end.
    rewrite (Hcells i j) by (unfold filled; lia). unfold lcs_cell.
    destruct (decide (a !! (i - 1)%nat = b !! (j - 1)%nat)) as [Heq|Hne].
    + rewrite H by (done || lia). simpl. lia.
    + case_bool_decide as Hdp.
      * rewrite H0 by (done || lia). lia.
      * rewrite H1 by (done || lia). lia.
  - rewrite Hborder by lia. done.
Qed.

(** X8: [buildLCS] returns a longest common subsequence of its two inputs:
    what it returns is a subsequence of both, and no list that is a
    subsequence of both is longer. *)
Theorem buildLCS_longest_common_subsequence (a b : list jsstring) :
  buildLCS a b `sublist_of` a ∧ buildLCS a b `sublist_of` b
  ∧ ∀ c, c `sublist_of` a → c `sublist_of` b →
         (length c ≤ length (buildLCS a b))%nat.
Proof.
  destruct (buildLCS_common a b) as [Ha Hb]. split; [done|]. split; [done|].
  intros c Hca Hcb. unfold buildLCS.
  rewrite (lcs_walk_length a b _ _ _ [] (lcs_table_filled a b)) by done.
  simpl. rewrite Nat.add_0_r.
  apply (lcs_table_bound a b _ (lcs_table_filled a b) _ _ _ c eq_refl); try done.
  - by rewrite take_ge.
  - by rewrite take_ge.
Qed.

(** ** The diff: line numbers, context and size *)

Lemma original_side_app (l1 l2 : list DiffChange) :
  original_side (l1 ++ l2) = original_side l1 ++ original_side l2.
Proof. unfold original_side. by rewrite filter_app, fmap_app. Qed.

Lemma revised_side_app (l1 l2 : list DiffChange) :
  revised_side (l1 ++ l2) = revised_side l1 ++ revised_side l2.
Proof. unfold revised_side. by rewrite filter_app, fmap_app. Qed.

Lemma context_side_app (l1 l2 : list DiffChange) :
  context_side (l1 ++ l2) = context_side l1 ++ context_side l2.
Proof. unfold context_side. by rewrite filter_app, fmap_app. Qed.

Lemma numbered_from_cons (oi ri : nat) (c : DiffChange) (out : list DiffChange) :
  lineNumber c = match type c with removed => S oi | _ => S ri end →
  numbered_from (oi + length (original_side [c])) (ri + length (revised_side [c])) out →
  numbered_from oi ri (c :: out).
Proof.
  intros Hc Hout [|k] c' Hk; simpl in Hk.
  - injection Hk as <-. rewrite Hc, take_0. simpl. destruct (type c); f_equal; lia.
  - rewrite (Hout k c' Hk). rewrite firstn_cons.
    change (c :: take k out) with ([c] ++ take k out).
    rewrite original_side_app, revised_side_app, !length_app.
    destruct (type c'); f_equal; lia.
Qed.

(** The loop of [computeDiff], under the invariant of [diff_loop_covers]:
    its [context] entries spell out the rest of [lcs], and every entry is
    numbered by its position on its own side. *)
Lemma diff_loop_trace (o r lcs : list jsstring) (fuel : nat) :
  ∀ oi ri li changes,
  drop li lcs `sublist_of` drop oi o →
  drop li lcs `sublist_of` drop ri r →
  ((length o - oi) + (length r - ri) ≤ fuel)%nat →
  ∃ out, diff_loop fuel o r lcs oi ri li changes = Some (changes ++ out)
         ∧ context_side out = drop li lcs ∧ numbered_from oi ri out.
Proof.
  induction fuel as [|fuel IH]; intros oi ri li changes Ho Hr Hfuel.
  { exists []. simpl. rewrite !bool_decide_eq_false_2 by lia. simpl.
    rewrite app_nil_r. split; [done|]. split; [|by intros k c ?].
    rewrite (drop_ge o) in Ho by lia. by apply sublist_nil_r in Ho as ->. }
  simpl.
  destruct (bool_decide (oi < length o)%nat || bool_decide (ri < length r)%nat)
    eqn:Hcond.
  2: { apply orb_false_iff in Hcond as [H1 H2].
       apply bool_decide_eq_false in H1, H2. exists [].
       rewrite app_nil_r. split; [done|]. split; [|by intros k c ?].
       rewrite (drop_ge o) in Ho by lia. by apply sublist_nil_r in Ho as ->. }
  apply orb_true_iff in Hcond. rewrite !bool_decide_eq_true in Hcond.
  assert (Hstep : ∀ c oi' ri' li',
    drop li' lcs `sublist_of` drop oi' o →
    drop li' lcs `sublist_of` drop ri' r →
    ((length o - oi') + (length r - ri') ≤ fuel)%nat →
    context_side [c] ++ drop li' lcs = drop li lcs →
    lineNumber c = match type c with removed => S oi | _ => S ri end →
    oi' = (oi + length (original_side [c]))%nat →
    ri' = (ri + length (revised_side [c]))%nat →
    ∃ out, diff_loop fuel o r lcs oi' ri' li' (changes ++ [c]) = Some (changes ++ out)
           ∧ context_side out = drop li lcs ∧ numbered_from oi ri out).
  { intros c oi' ri' li' Ho' Hr' Hf' El Hc -> ->.
    destruct (IH _ _ li' (changes ++ [c]) Ho' Hr' Hf') as (out & Hrun & Hctx & Hnum).
    exists (c :: out). rewrite Hrun, <- app_assoc. split; [done|]. split.
    - change (c :: out) with ([c] ++ out). by rewrite context_side_app, Hctx.
    - by apply numbered_from_cons. }
  rewrite !Nat.add_1_r.
  destruct (lcs !! li) as [c|] eqn:El.
  - destruct (drop_sublist_inhabited _ _ _ _ _ El Ho) as [x Eo].
    destruct (drop_sublist_inhabited _ _ _ _ _ El Hr) as [y Er].
    pose proof (lookup_lt_Some _ _ _ El). pose proof (lookup_lt_Some _ _ _ Eo).
    pose proof (lookup_lt_Some _ _ _ Er).
    unfold line_at. rewrite El, Eo, Er. simpl.
    destruct (decide (x = c)) as [->|Hx]; [destruct (decide (y = c)) as [->|Hy]|].
    + decide_conditions. apply Hstep.
      * by eapply drop_sublist_match.
      * by eapply drop_sublist_match.
      * lia.
      * by rewrite (drop_S _ _ _ El).
      * done.
      * simpl. lia.
      * simpl. lia.
    + decide_conditions. apply Hstep.
      * done.
      * eapply drop_sublist_skip; [done| |done]. congruence.
      * lia.
      * done.
      * done.
      * simpl. lia.
      * simpl. lia.
    + decide_conditions. apply Hstep.
      * eapply drop_sublist_skip; [done| |done]. congruence.
      * done.
      * lia.
      * done.
      * done.
      * simpl. lia.
      * simpl. lia.
  - pose proof (lookup_ge_None_1 _ _ El).
    destruct (o !! oi) as [x|] eqn:Eo.
    + pose proof (lookup_lt_Some _ _ _ Eo).
      unfold line_at. rewrite Eo. simpl. decide_conditions. apply Hstep.
      * eapply drop_sublist_skip; [done| |done]. congruence.
      * done.
      * lia.
      * done.
      * done.
      * simpl. lia.
      * simpl. lia.
    + pose proof (lookup_ge_None_1 _ _ Eo).
      destruct (r !! ri) as [y|] eqn:Er.
      2: { apply lookup_ge_None in Er. lia. }
      pose proof (lookup_lt_Some _ _ _ Er).
      unfold line_at. rewrite Er. simpl. decide_conditions. apply Hstep.
      * done.
      * eapply drop_sublist_skip; [done| |done]. congruence.
      * lia.
      * done.
      * done.
      * simpl. lia.
      * simpl. lia.
Qed.

Lemma computeDiff_trace (fuel : nat) (original revised : jsstring)
  (changes : list DiffChange) :
  original ≠ revised →
  computeDiff fuel original revised = Some changes →
  context_side changes = buildLCS (split_lines original) (split_lines revised)
  ∧ numbered_from 0 0 changes.
Proof.
  intros Hne. unfold computeDiff. rewrite decide_False by done. cbv zeta. intros Hrun.
  destruct (buildLCS_common (split_lines original) (split_lines revised)) as [Ha Hb].
  destruct (diff_loop_trace (split_lines original) (split_lines revised)
              (buildLCS (split_lines original) (split_lines revised))
              (fuel `max` diff_fuel original revised) 0 0 0 [])
    as (out & Hbig & Hctx & Hnum); [done|done|unfold diff_fuel; lia|].
  eapply diff_loop_fuel_le in Hrun; [|apply Nat.le_max_l].
  rewrite Hrun in Hbig. injection Hbig as ->. done.
Qed.

Lemma side_lookup (side : list DiffChange → list jsstring) (changes : list DiffChange)
  (k : nat) (c : DiffChange) :
  (∀ l1 l2, side (l1 ++ l2) = side l1 ++ side l2) →
  side [c] = [content c] →
  changes !! k = Some c →
  side changes !! length (side (take k changes)) = Some (content c).
Proof.
  intros Happ Hc Hk.
  replace (side changes)
    with (side (take k changes) ++ content c :: side (drop (S k) changes)).
  - by rewrite list_lookup_middle.
  - change (content c :: side (drop (S k) changes))
      with ([content c] ++ side (drop (S k) changes)).
    rewrite <- Hc, <- !Happ. f_equal. by apply take_drop_middle.
Qed.

(** X9: every entry of a diff carries a line number that can be looked up:
    a [removed] entry is numbered by its position in the original, counting
    from 1, and holds that line of the original; an [added] or [context]
    entry is numbered by its position in the revision and holds that line of
    the revision. *)
Theorem computeDiff_line_numbers (fuel : nat) (original revised : jsstring)
  (changes : list DiffChange) (k : nat) (c : DiffChange) :
  computeDiff fuel original revised = Some changes →
  changes !! k = Some c →
  (1 ≤ lineNumber c)%nat
  ∧ match type c with
    | removed =>
        lineNumber c = S (length (original_side (take k changes)))
        ∧ split_lines original !! (lineNumber c - 1)%nat = Some (content c)
    | _ =>
        lineNumber c = S (length (revised_side (take k changes)))
        ∧ split_lines revised !! (lineNumber c - 1)%nat = Some (content c)
    end.
Proof.
  intros Hrun Hk.
  destruct (decide (original = revised)) as [->|Hne].
  { unfold computeDiff in Hrun. rewrite decide_True in Hrun by done.
    injection Hrun as <-. done. }
  destruct (computeDiff_sides _ _ _ _ Hne Hrun) as [Hos Hrs].
  destruct (computeDiff_trace _ _ _ _ Hne Hrun) as [_ Hnum].
  pose proof (Hnum k c Hk) as Hn. simpl in Hn.
  pose proof (side_lookup original_side changes k c original_side_app) as Ho.
  pose proof (side_lookup revised_side changes k c revised_side_app) as Hr.
  rewrite Hos in Ho. rewrite Hrs in Hr.
  unfold original_side in Ho at 1. unfold revised_side in Hr at 1.
  rewrite filter_cons, filter_nil in Ho, Hr.
  destruct (type c) eqn:Et; rewrite Hn; simpl; rewrite Nat.sub_0_r;
    (split; [lia|]); (split; [done|]).
  - apply Hr; [|done]. rewrite decide_True by (by right). done.
  - apply Ho; [|done]. rewrite decide_True by (by right). done.
  - apply Hr; [|done]. rewrite decide_True by (by left). done.
Qed.

Lemma sides_length (changes : list DiffChange) :
  (length (original_side changes) + length (revised_side changes)
   = 2 * length (context_side changes) + length (edits changes))%nat.
Proof.
  unfold original_side, revised_side, context_side, edits.
  rewrite !length_fmap.
  induction changes as [|c changes IH]; [done|].
  rewrite !filter_cons.
  destruct (type c); simpl; lia.
Qed.

(** X10: the [context] entries of a diff are the lines of
    [buildLCS], in order; so a diff has as few [added] and [removed] entries
    as any way of turning the original into the revision line by line: for
    every common subsequence [common] of the two inputs' lines, the lines
    outside it are at least as many as the edits of the diff. *)
Theorem computeDiff_fewest_edits (fuel : nat) (original revised : jsstring)
  (changes : list DiffChange) :
  original ≠ revised →
  computeDiff fuel original revised = Some changes →
  context_side changes = buildLCS (split_lines original) (split_lines revised)
  ∧ (length (edits changes) + 2 * length (context_side changes)
     = length (split_lines original) + length (split_lines revised))%nat
  ∧ ∀ common,
      common `sublist_of` split_lines original →
      common `sublist_of` split_lines revised →
      (length (edits changes) + 2 * length common
       ≤ length (split_lines original) + length (split_lines revised))%nat.
Proof.
  intros Hne Hrun.
  destruct (computeDiff_sides _ _ _ _ Hne Hrun) as [Hos Hrs].
  destruct (computeDiff_trace _ _ _ _ Hne Hrun) as [Hctx _].
  pose proof (sides_length changes) as Hlen. rewrite Hos, Hrs in Hlen.
  split; [done|]. split; [lia|].
  intros common Ha Hb.
  pose proof (lcs_table_bound _ _ _
                (lcs_table_filled (split_lines original) (split_lines revised))
                _ _ _ common eq_refl (Nat.le_refl _) (Nat.le_refl _)) as Hbound.
  rewrite !take_ge in Hbound by done. specialize (Hbound Ha Hb).
  assert (Hwalk : length (context_side changes)
                  = dp_get (lcs_table (split_lines original) (split_lines revised))
                      (length (split_lines original)) (length (split_lines revised))).
  { rewrite Hctx. unfold buildLCS.
    rewrite (lcs_walk_length _ _ _ _ _ []
               (lcs_table_filled (split_lines original) (split_lines revised)))
      by done.
    simpl. lia. }
  lia.
Qed.

Lemma computeDiff_line_numbers_witness :
  let c := {| type := removed; lineNumber := 2; content := lit "Be brief" |} in
  (1 ≤ lineNumber c)%nat
  ∧ lineNumber c = 2%nat
  ∧ split_lines sample_original !! (lineNumber c - 1)%nat = Some (content c).
Proof.
  intros c.
  pose proof (computeDiff_line_numbers 7 sample_original sample_revised
                [ {| type := context; lineNumber := 1; content := lit "Be nice" |};
                  c;
                  {| type := added; lineNumber := 2; content := lit "Ask for the name" |};
                  {| type := context; lineNumber := 3; content := lit "Say goodbye" |};
                  {| type := added; lineNumber := 4; content := lit "Hang up" |} ]
                1 c ltac:(vm_compute; reflexivity) ltac:(reflexivity)) as H.
  exact H.
Defined.

Lemma computeDiff_fewest_edits_witness :
  ∃ changes,
    computeDiff 7 sample_original sample_revised = Some changes
    ∧ context_side changes = [lit "Be nice"; lit "Say goodbye"]
    ∧ length (edits changes) = 3%nat
    ∧ ∀ common,
        common `sublist_of` split_lines sample_original →
        common `sublist_of` split_lines sample_revised →
        (length (edits changes) + 2 * length common
         ≤ length (split_lines sample_original)
           + length (split_lines sample_revised))%nat.
Proof.
  eexists. split; [vm_compute; reflexivity|].
  split; [vm_compute; reflexivity|]. split; [vm_compute; reflexivity|].
  eapply (computeDiff_fewest_edits 7 sample_original sample_revised).
  - vm_compute. discriminate.
  - vm_compute. reflexivity.
Defined.

(** ** Requests served while the loop runs *)

Lemma flag_after_requests (cycleId : jsstring) (records : gmap jsstring CycleRecord)
  (record : CycleRecord) (before : option CycleStatus) (requests : list Request) :
  records !! cycleId = Some record → cyc_status record = running →
  ∀ flags acc,
    flags !! cycleId = from_option Some before acc →
    foldl (request_flag records) flags requests !! cycleId
    = from_option Some before (foldl (stop_step cycleId) acc requests).
Proof.
  intros Hrec Hst. induction requests as [|r requests IH]; intros flags acc Hview;
    [done|].
  simpl. apply IH. unfold request_flag, stop_step.
  destruct r as [id_|id_|id_]; simpl.
  - destruct (decide (id_ = cycleId)) as [->|Hne].
    + rewrite Hrec, Hst. simpl. by rewrite lookup_insert_eq.
    + destruct (records !! id_); [|done].
      destruct (cycle_edge _ _); [|done]. by rewrite lookup_insert_ne.
  - destruct (decide (id_ = cycleId)) as [->|Hne].
    + rewrite Hrec, Hst. simpl. by rewrite lookup_insert_eq.
    + destruct (records !! id_); [|done].
      destruct (cycle_edge _ _); [|done]. by rewrite lookup_insert_ne.
  - destruct (decide (id_ = cycleId)) as [->|Hne].
    + rewrite Hrec, Hst. done.
    + destruct (records !! id_); [|done].
      destruct (cycle_edge _ _); [|done]. by rewrite lookup_insert_ne.
Qed.

Lemma last_stop_stops (cycleId : jsstring) (requests : list Request)
  (acc : option CycleStatus) (s : CycleStatus) :
  (∀ s', acc = Some s' → s' = cancelled ∨ s' = paused) →
  foldl (stop_step cycleId) acc requests = Some s → s = cancelled ∨ s = paused.
Proof.
  revert acc. induction requests as [|r requests IH]; intros acc Hacc; simpl.
  { by apply Hacc. }
  apply IH. intros s'. unfold stop_step.
  destruct r as [id_|id_|id_]; try case_decide; try (by apply Hacc).
  - intros [= <-]. by left.
  - intros [= <-]. by right.
Qed.

Section requests.
Context {Σ : Type} `{!LLMService Σ} `{!AgentApi Σ}.

(** X11: of the cancel and pause requests for a running cycle that are
    served during an iteration, the last one decides: if the iteration is
    not the last one allowed, the next check at the top of the loop persists
    the status that request asked for, with the counters of the iteration,
    emits [finished] and starts no further test run. Resume requests and
    requests for other cycles do not count: with no cancel or pause request
    for the cycle, the flag still lets the loop run. *)
Theorem last_stop_request_wins (fuel : nat) (cycleId : jsstring)
  (config : CycleConfig) (st st' : LoopState) (w w1 : World Σ)
  (record : CycleRecord) (served : list (list Request)) :
  ls_cycleCount st + 1 < maxCycles config →
  cycle_record cycleId w = Some record →
  cyc_status record = running →
  cycle_iteration cycleId config st w = (Returned (NextIteration st'), w1) →
  inbox w = served ++ inbox w1 →
  match last_stop cycleId (concat served) with
  | Some s =>
      (s = cancelled ∨ s = paused)
      ∧ ∃ w',
          cycle_loop (S (S fuel)) cycleId config st w = Some (Returned (), w')
          ∧ cycle_record cycleId w'
            = Some (persisted (ls_cycleCount st') (ls_currentPassRate st') s
                      (ls_testRunIds st') (ls_optimizationIds st') record)
          ∧ emitted w' = emitted w1 ++ [(cycleId, finished s None)]
          ∧ calls w' = calls w1
  | None => running_flag cycleId w1
  end.
Proof.
  intros Hlt Hrec Hst Hiter Hinbox.
  pose proof Hiter as Hnext.
  apply iteration_next in Hnext
    as ([Hc Hp] & served' & testRunId & opts & row & Hsteady & -> & _).
  destruct Hsteady as (Hr & Hi & Hf).
  assert (served' = served) as ->.
  { eapply app_inv_tail. by rewrite <- Hi, <- Hinbox. }
  pose proof (flag_after_requests cycleId _ record (stateFlags w !! cycleId)
                (concat served) Hrec Hst (stateFlags w) None eq_refl) as Hflag.
  rewrite <- Hf in Hflag. fold (last_stop cycleId (concat served)) in Hflag.
  destruct (last_stop cycleId (concat served)) as [s|] eqn:Hlast; simpl in Hflag.
  - assert (Hs : s = cancelled ∨ s = paused).
    { eapply (last_stop_stops cycleId (concat served) None); [done|exact Hlast]. }
    split; [done|].
    rewrite cycle_loop_step, Hiter by lia.
    rewrite cycle_loop_step, cycle_iteration_eq by (simpl; lia). cbv zeta.
    cbn [ls_cycleCount ls_currentPassRate ls_testRunIds ls_optimizationIds].
    destruct Hs as [-> | ->].
    + rewrite decide_True by done. eexists. split; [reflexivity|].
      rewrite cycle_record_finishing. unfold cycle_record in *.
      rewrite Hr, Hrec. done.
    + rewrite decide_False by congruence. rewrite decide_True by done.
      eexists. split; [reflexivity|].
      rewrite cycle_record_finishing. unfold cycle_record in *.
      rewrite Hr, Hrec. done.
  - split; congruence.
Qed.

End requests.

Lemma last_stop_request_wins_witness :
  ∃ st' w1 w',
    @cycle_iteration unit (FailingLLM (Some (lit "no greeting"))) MockAgentApi
      (lit "cycle-1") (sample_config (Finite (9 # 10)) 3)
      {| ls_cycleCount := 0; ls_currentPassRate := Finite 0;
         ls_testRunIds := []; ls_optimizationIds := [] |}
      (started_world () (Finite (9 # 10)) 3
         [[CancelRequest (lit "cycle-1")];
          [ResumeRequest (lit "cycle-1"); PauseRequest (lit "cycle-1")]])
    = (Returned (NextIteration st'), w1)
    ∧ @cycle_loop unit (FailingLLM (Some (lit "no greeting"))) MockAgentApi 2
        (lit "cycle-1") (sample_config (Finite (9 # 10)) 3)
        {| ls_cycleCount := 0; ls_currentPassRate := Finite 0;
           ls_testRunIds := []; ls_optimizationIds := [] |}
        (started_world () (Finite (9 # 10)) 3
           [[CancelRequest (lit "cycle-1")];
            [ResumeRequest (lit "cycle-1"); PauseRequest (lit "cycle-1")]])
      = Some (Returned (), w')
    ∧ cyc_status <$> cycle_record (lit "cycle-1") w' = Some paused.
Proof.
  pose (st0 := {| ls_cycleCount := 0; ls_currentPassRate := Finite 0;
                  ls_testRunIds := []; ls_optimizationIds := [] |}).
  pose (w0 := started_world () (Finite (9 # 10)) 3
                [[CancelRequest (lit "cycle-1")];
                 [ResumeRequest (lit "cycle-1"); PauseRequest (lit "cycle-1")]]).
  destruct (@cycle_iteration unit (FailingLLM (Some (lit "no greeting"))) MockAgentApi
              (lit "cycle-1") (sample_config (Finite (9 # 10)) 3) st0 w0)
    as [[[st'|]|e] w1] eqn:Hiter; try (vm_compute in Hiter; discriminate).
  assert (Hinbox : inbox w0
                   = [[CancelRequest (lit "cycle-1")];
                      [ResumeRequest (lit "cycle-1"); PauseRequest (lit "cycle-1")]]
                     ++ inbox w1).
  { apply (f_equal (λ p, inbox p.2)) in Hiter. simpl in Hiter. rewrite <- Hiter.
    vm_compute. reflexivity. }
  pose proof (@last_stop_request_wins unit (FailingLLM (Some (lit "no greeting")))
                MockAgentApi 0 (lit "cycle-1") (sample_config (Finite (9 # 10)) 3) st0 st'
                w0 w1 (sample_cycle_record (Finite (9 # 10)) 3) _
                ltac:(simpl; lia) ltac:(vm_compute; reflexivity) eq_refl Hiter Hinbox)
    as Hwins.
  change (last_stop _ _) with (Some paused) in Hwins.
  destruct Hwins as (_ & w' & Hloop & Hrecord & _).
  exists st', w1, w'. split; [done|]. split; [exact Hloop|].
  rewrite Hrecord. reflexivity.
Defined.

(** ** What a test run and an optimization leave in the database *)

Section fresh_rows.
Context {Σ : Type} `{!LLMService Σ} `{!AgentApi Σ}.
#[local] Existing Instance quiet_preorder.
#[local] Existing Instance same_runs_preorder.

Lemma constrain_returned (table : jsstring) (unique foreign : bool) (w w' : World Σ)
  (u : unit) :
  constrain table unique foreign w = (Returned u, w') →
  unique && foreign = true ∧ w' = w.
Proof. unfold constrain. destruct (unique && foreign); [by intros [= _ <-]|done]. Qed.

(** A returned [executeTestRun] has inserted one row, under a key that was
    free, with the prompt of the agent as it was when the run started, and
    has completed it; every other row of [TestRun] is as before. *)
Lemma executeTestRun_fresh (config : CycleConfig) (w w' : World Σ)
  (testRunId : jsstring) :
  executeTestRun config w = (Returned testRunId, w') →
  testRunId = uuid_of (uuids w)
  ∧ TestRun_t (database w) !! testRunId = None
  ∧ (∀ other, other ≠ testRunId →
       TestRun_t (database w') !! other = TestRun_t (database w) !! other)
  ∧ Agent_t (database w') = Agent_t (database w)
  ∧ OptimizationRecord_t (database w') = OptimizationRecord_t (database w)
  ∧ ∃ a results,
      Agent_t (database w) !! agentId config = Some a
      ∧ TestRun_t (database w') !! testRunId
        = Some {| tr_testSuiteId := testSuiteId config; tr_agentId := agentId config;
                  promptSnapshot := currentPrompt a;
                  overallPassRate := Some (calculatePassRate results);
                  tr_status := run_completed |}.
Proof.
  unfold executeTestRun. intros H.
  apply bind_returned in H as (i & w1 & Hid & H).
  unfold uuidv4 in Hid. simplify_eq/=.
  apply bind_returned in H as (d & w2 & Hdb & H).
  unfold db in Hdb. simplify_eq/=.
  apply bind_returned in H as (prompt & w2 & Hp & H).
  destruct (Agent_t (database w) !! agentId config) as [a|] eqn:Ha; [|done].
  unfold mret, M_ret in Hp. simplify_eq/=.
  apply bind_returned in H as (u & w3 & Hins & H).
  unfold insert_TestRun in Hins.
  apply bind_returned in Hins as (d & w4 & Hdb & Hins).
  unfold db in Hdb. simplify_eq/=.
  apply bind_returned in Hins as (u' & w5 & Hc & Hins).
  apply constrain_returned in Hc as [Hok ->].
  apply andb_true_iff in Hok as [Hfresh _].
  apply bool_decide_eq_true in Hfresh. simpl in Hfresh.
  unfold write_db, modify_state in Hins. simplify_eq/=.
  apply bind_returned in H as (d' & w4 & Hdb & H).
  unfold db in Hdb. simplify_eq/=.
  apply bind_returned in H as (results & w5 & Hfold & H).
  apply bind_returned in H as (u2 & w6 & Hdone & H).
  unfold complete_TestRun, write_db, modify_state in Hdone. simplify_eq/=.
  match type of Hfold with
  | foldM ?f ?b ?l ?w0 = _ =>
      pose proof (preserves_foldM same_runs f l
                    (executeTestRun_case_same_runs _ _) b w0) as Hsame
  end.
  rewrite Hfold in Hsame. destruct Hsame as (Hruns & Hag' & Hopt'). simpl in *.
  unfold mret, M_ret in H. simplify_eq/=.
  split; [done|]. split; [done|]. split.
  { intros other Hne. rewrite lookup_alter_ne, Hruns by done.
    by rewrite lookup_insert_ne. }
  split; [done|]. split; [done|].
  exists a, results. split; [done|].
  by rewrite lookup_alter_eq, Hruns, lookup_insert_eq.
Qed.

(** A returned [optimizePrompt] has inserted one row, under a key that was
    free, holding the prompt it was given and the revision it returns, with
    status [generated]; nothing else was written. *)
Lemma optimizePrompt_fresh (testRunId agentId_ originalPrompt_ : jsstring)
  (failures passes : list CriterionResult) (w w' : World Σ)
  (optRecord : StoredOptimizationRecord) :
  optimizePrompt testRunId agentId_ originalPrompt_ failures passes w
  = (Returned optRecord, w') →
  OptimizationRecord_t (database w) !! sor_id optRecord = None
  ∧ OptimizationRecord_t (database w')
    = <[sor_id optRecord :=
          {| opt_testRunId := testRunId; opt_agentId := agentId_;
             opt_originalPrompt := originalPrompt_;
             opt_revisedPrompt := revisedPrompt optRecord;
             opt_changes := changes optRecord; opt_status := generated |}]>
        (OptimizationRecord_t (database w))
  ∧ TestRun_t (database w') = TestRun_t (database w)
  ∧ Agent_t (database w') = Agent_t (database w)
  ∧ originalPrompt optRecord = originalPrompt_
  ∧ sor_testRunId optRecord = testRunId
  ∧ sor_status optRecord = generated.
Proof.
  unfold optimizePrompt. intros H.
  apply bind_returned in H as (result & w1 & Hllm & H).
  apply bind_returned in H as (i & w2 & Hid & H).
  unfold uuidv4 in Hid. simplify_eq/=.
  apply bind_returned in H as (u & w3 & Hins & H).
  unfold mret, M_ret in H. simplify_eq/=.
  unfold insert_OptimizationRecord in Hins.
  apply bind_returned in Hins as (d & w4 & Hdb & Hins).
  unfold db in Hdb. simplify_eq/=.
  apply bind_returned in Hins as (u' & w5 & Hc & Hins).
  apply constrain_returned in Hc as [Hok ->].
  apply andb_true_iff in Hok as [Hfresh _].
  apply bool_decide_eq_true in Hfresh. simpl in Hfresh.
  unfold write_db, modify_state in Hins. simplify_eq/=.
  unfold await in Hllm.
  destruct (llm_optimizePrompt _ _ _ _) as [r σ]. simplify_eq/=.
  destruct (arrivals_database (set_oracle σ w)) as (Hd & Hu & _).
  simpl in Hd, Hu. rewrite Hd in *. done.
Qed.

End fresh_rows.

Section iteration_details.
Context {Σ : Type} `{!LLMService Σ} `{!AgentApi Σ}.

(** An iteration that goes on to the next one, row by row: the run it
    inserted and completed, and either no optimization (then neither the
    agents nor the optimization records were written) or one optimization,
    inserted under a free key, accepted and applied to the agent. *)
Lemma iteration_next_rows (cycleId : jsstring) (config : CycleConfig)
  (st st' : LoopState) (w w1 : World Σ) :
  cycle_iteration cycleId config st w = (Returned (NextIteration st'), w1) →
  ∃ testRunId a results w2,
    executeTestRun config (entering cycleId (ls_cycleCount st + 1) w)
    = (Returned testRunId, w2)
    ∧ Agent_t (database w) !! agentId config = Some a
    ∧ TestRun_t (database w) !! testRunId = None
    ∧ TestRun_t (database w1) !! testRunId
      = Some {| tr_testSuiteId := testSuiteId config; tr_agentId := agentId config;
                promptSnapshot := currentPrompt a;
                overallPassRate := Some (calculatePassRate results);
                tr_status := run_completed |}
    ∧ (∀ other, other ≠ testRunId →
         TestRun_t (database w1) !! other = TestRun_t (database w) !! other)
    ∧ ls_cycleCount st' = ls_cycleCount st + 1
    ∧ ls_currentPassRate st' = calculatePassRate results
    ∧ ls_testRunIds st' = ls_testRunIds st ++ [testRunId]
    ∧ number_ge (calculatePassRate results) (targetThreshold config) = false
    ∧ ((ls_optimizationIds st' = ls_optimizationIds st
        ∧ Agent_t (database w1) = Agent_t (database w)
        ∧ OptimizationRecord_t (database w1) = OptimizationRecord_t (database w)
        ∧ oracle w1 = oracle w2
        ∧ calls w1 = calls w ++ [Call_executeTestRun]
        ∧ (ls_cycleCount st + 1 < maxCycles config →
           (getResultsForRun testRunId (database w2)).1 = []))
       ∨ (∃ optRecord,
            ls_cycleCount st + 1 < maxCycles config
            ∧ (getResultsForRun testRunId (database w2)).1 ≠ []
            ∧ ls_optimizationIds st' = ls_optimizationIds st ++ [sor_id optRecord]
            ∧ OptimizationRecord_t (database w) !! sor_id optRecord = None
            ∧ OptimizationRecord_t (database w1)
              = <[sor_id optRecord :=
                    {| opt_testRunId := testRunId; opt_agentId := agentId config;
                       opt_originalPrompt := currentPrompt a;
                       opt_revisedPrompt := revisedPrompt optRecord;
                       opt_changes := changes optRecord; opt_status := accepted |}]>
                  (OptimizationRecord_t (database w))
            ∧ Agent_t (database w1)
              = <[agentId config := {| currentPrompt := revisedPrompt optRecord |}]>
                  (Agent_t (database w))
            ∧ calls w1 = calls w ++ [Call_executeTestRun; Call_optimizePrompt])).
Proof.
  rewrite cycle_iteration_eq. cbv zeta.
  destruct (decide (stateFlags w !! cycleId = Some cancelled)) as [|Hc]; [done|].
  destruct (decide (stateFlags w !! cycleId = Some paused)) as [|Hp]; [done|].
  destruct (executeTestRun_steady config (entering cycleId (ls_cycleCount st + 1) w))
    as (served & _ & _ & Hcalls).
  destruct (executeTestRun config _) as [[testRunId|e] w2] eqn:Hrun; [|done].
  simpl in Hcalls.
  apply executeTestRun_fresh in Hrun
    as (_ & Hfresh & Hothers & Hagents & Hopts & a & results & Ha & Hrow).
  simpl in Hfresh, Hothers, Hagents, Hopts, Ha.
  assert (Hrate : measured testRunId w2 = calculatePassRate results).
  { unfold measured. by rewrite Hrow. }
  rewrite Hrate.
  destruct (number_ge _ _) eqn:Hge; [done|].
  destruct (bool_decide (ls_cycleCount st + 1 < maxCycles config)) eqn:Hlast.
  2: { intros [= <- <-]. exists testRunId, a, results, w2. simpl.
       rewrite Hcalls. simpl. repeat (split; [done|]). left.
       repeat (split; [done|]). intros Hlt.
       apply bool_decide_eq_false in Hlast. done. }
  apply bool_decide_eq_true in Hlast.
  destruct (bool_decide (0 < length _)%nat) eqn:Hfail.
  2: { intros [= <- <-]. exists testRunId, a, results, w2. simpl.
       rewrite Hcalls. simpl. repeat (split; [done|]). left.
       repeat (split; [done|]). intros _.
       apply bool_decide_eq_false in Hfail. simpl in Hfail.
       destruct (getResultsForRun testRunId (database w2)).1; [done|simpl in Hfail; lia]. }
  apply bool_decide_eq_true in Hfail. simpl in Hfail |- *.
  rewrite Hagents, Ha.
  match goal with
  | |- context [optimizePrompt ?t ?ag ?o ?fs ?ps ?w0] =>
      destruct (optimizePrompt_steady t ag o fs ps w0) as (served' & _ & _ & Hcalls');
      destruct (optimizePrompt t ag o fs ps w0) as [[optRecord|e] w4] eqn:Hopt; [|done]
  end.
  simpl in Hcalls'.
  apply optimizePrompt_fresh in Hopt
    as (Hofresh & Horows & Hruns & Hagents' & Horig & _ & _).
  simpl in Hofresh, Horows, Hruns, Hagents'.
  intros [= <- <-]. exists testRunId, a, results, w2. simpl.
  rewrite Hruns, Horows, Hagents', Hagents, Hopts, Hcalls', Hcalls. simpl.
  rewrite <- !app_assoc. simpl. rewrite Hopts in Hofresh.
  repeat (split; [done|]). right. exists optRecord.
  split; [done|]. split.
  { intros Hnil. rewrite Hnil in Hfail. simpl in Hfail. lia. }
  split; [done|]. split; [done|]. split.
  { by rewrite alter_insert_eq. }
  split; [|done].
  apply map_eq. intros other. destruct (decide (other = agentId config)) as [->|Hne].
  - by rewrite lookup_alter_eq, lookup_insert_eq, Ha.
  - by rewrite lookup_alter_ne, lookup_insert_ne.
Qed.

End iteration_details.

Section loop_records.
Context {Σ : Type} `{!LLMService Σ} `{!AgentApi Σ}.

(** An iteration that returns from the loop: either the flag stopped it
    before it did anything, or its test run met the threshold. *)
Lemma iteration_returns (cycleId : jsstring) (config : CycleConfig)
  (st : LoopState) (w w1 : World Σ) :
  cycle_iteration cycleId config st w = (Returned ReturnFromLoop, w1) →
  (∃ s, (s = cancelled ∨ s = paused) ∧ stateFlags w !! cycleId = Some s
        ∧ w1 = finishing cycleId (ls_cycleCount st) (ls_currentPassRate st) s
                 (ls_testRunIds st) (ls_optimizationIds st) None w)
  ∨ (∃ testRunId a results w2,
       running_flag cycleId w
       ∧ TestRun_t (database w) !! testRunId = None
       ∧ TestRun_t (database w2) !! testRunId
         = Some {| tr_testSuiteId := testSuiteId config; tr_agentId := agentId config;
                   promptSnapshot := currentPrompt a;
                   overallPassRate := Some (calculatePassRate results);
                   tr_status := run_completed |}
       ∧ (∀ other, other ≠ testRunId →
            TestRun_t (database w2) !! other = TestRun_t (database w) !! other)
       ∧ OptimizationRecord_t (database w2) = OptimizationRecord_t (database w)
       ∧ Agent_t (database w2) = Agent_t (database w)
       ∧ CycleRecord_t (database w2) = CycleRecord_t (database w)
       ∧ calls w2 = calls w ++ [Call_executeTestRun]
       ∧ number_ge (calculatePassRate results) (targetThreshold config) = true
       ∧ w1 = finishing cycleId (ls_cycleCount st + 1) (calculatePassRate results)
                completed (ls_testRunIds st ++ [testRunId]) (ls_optimizationIds st)
                (Some (calculatePassRate results))
                (emitting cycleId
                   (test_run_complete (ls_cycleCount st + 1)
                      (calculatePassRate results)) w2)).
Proof.
  rewrite cycle_iteration_eq. cbv zeta.
  destruct (decide (stateFlags w !! cycleId = Some cancelled)) as [Hc|Hc].
  { intros [= <-]. left. exists cancelled. by split; [left|]. }
  destruct (decide (stateFlags w !! cycleId = Some paused)) as [Hp|Hp].
  { intros [= <-]. left. exists paused. by split; [right|]. }
  destruct (executeTestRun_steady config (entering cycleId (ls_cycleCount st + 1) w))
    as (served & (Hrec & _) & _ & Hcalls).
  destruct (executeTestRun config _) as [[testRunId|e] w2] eqn:Hrun; [|done].
  simpl in Hcalls, Hrec.
  apply executeTestRun_fresh in Hrun
    as (_ & Hfresh & Hothers & Hagents & Hopts & a & results & Ha & Hrow).
  simpl in Hfresh, Hothers, Hagents, Hopts, Ha.
  assert (Hrate : measured testRunId w2 = calculatePassRate results).
  { unfold measured. by rewrite Hrow. }
  rewrite Hrate.
  destruct (number_ge _ _) eqn:Hge.
  { intros [= <-]. right. exists testRunId, a, results, w2.
    repeat (split; [done|]). done. }
  destruct (bool_decide _); [|done].
  destruct (bool_decide _); [|done].
  simpl. destruct (Agent_t (database w2) !! agentId config); [|done].
  by destruct (optimizePrompt _ _ _ _ _ _) as [[optRecord|e] w4].
Qed.

(** An iteration that throws has written no cycle record. *)
Lemma iteration_threw (cycleId : jsstring) (config : CycleConfig)
  (st : LoopState) (w w1 : World Σ) (e : thrown) :
  cycle_iteration cycleId config st w = (Threw e, w1) →
  CycleRecord_t (database w1) = CycleRecord_t (database w)
  ∧ ∃ evs, emitted w1 = emitted w ++ evs
           ∧ Forall (λ ev, ∀ s shown, ev.2 ≠ finished s shown) evs.
Proof.
  rewrite cycle_iteration_eq. cbv zeta.
  destruct (decide (stateFlags w !! cycleId = Some cancelled)) as [Hc|Hc]; [done|].
  destruct (decide (stateFlags w !! cycleId = Some paused)) as [Hp|Hp]; [done|].
  destruct (executeTestRun_steady config (entering cycleId (ls_cycleCount st + 1) w))
    as (served & (Hrec & _) & Hem & _).
  destruct (executeTestRun config _) as [[testRunId|e'] w2] eqn:Hrun;
    simpl in Hrec, Hem.
  2: { intros [= <- <-]. split; [done|]. eexists [_]. split; [exact Hem|].
       by repeat constructor. }
  destruct (number_ge _ _); [done|].
  destruct (bool_decide _); [|done].
  destruct (bool_decide _); [|done].
  simpl. destruct (Agent_t (database w2) !! agentId config).
  2: { intros [= <- <-]. split; [done|]. eexists [_; _]. simpl. rewrite Hem.
       rewrite <- app_assoc. split; [done|]. by repeat constructor. }
  match goal with
  | |- context [optimizePrompt ?t ?ag ?o ?fs ?ps ?w0] =>
      destruct (optimizePrompt_steady t ag o fs ps w0)
        as (served' & (Hrec' & _) & Hem' & _);
      destruct (optimizePrompt t ag o fs ps w0) as [[optRecord|e''] w4] eqn:Hopt;
        [done|]
  end.
  simpl in Hrec', Hem'. intros [= <- <-]. split; [congruence|].
  eexists [_; _]. rewrite Hem'. simpl. rewrite Hem, <- app_assoc.
  split; [done|]. by repeat constructor.
Qed.

Lemma calculatePassRate_range (rs : list TestCaseResult) :
  ∃ q, calculatePassRate rs = Finite q ∧ (0 <= q)%Q ∧ (q <= 1)%Q.
Proof.
  rewrite calculatePassRate_counts.
  destruct (decide (completedCriteria rs = 0%nat)) as [|Hn].
  - exists 0%Q. by repeat split.
  - eexists. split; [done|].
    apply ratio_in_unit_interval; [apply completedPassed_le|done].
Qed.

(** The invariant carries over a test run and the optimization that may
    follow it. *)
Lemma loop_invariant_step (config : CycleConfig) (st : LoopState) (w w1 : World Σ)
  (testRunId : jsstring) (row : TestRunRow) (results : list TestCaseResult)
  (new : list jsstring) :
  loop_invariant config st w →
  ls_cycleCount st < maxCycles config →
  TestRun_t (database w) !! testRunId = None →
  TestRun_t (database w1) !! testRunId = Some row →
  tr_status row = run_completed → tr_agentId row = agentId config →
  tr_testSuiteId row = testSuiteId config →
  overallPassRate row = Some (calculatePassRate results) →
  (∀ other, other ≠ testRunId →
     TestRun_t (database w1) !! other = TestRun_t (database w) !! other) →
  (new = [] ∧ OptimizationRecord_t (database w1) = OptimizationRecord_t (database w)
   ∨ ∃ optimizationId orow,
       new = [optimizationId]
       ∧ ls_cycleCount st + 1 < maxCycles config
       ∧ OptimizationRecord_t (database w) !! optimizationId = None
       ∧ OptimizationRecord_t (database w1)
         = <[optimizationId := orow]> (OptimizationRecord_t (database w))
       ∧ opt_status orow = accepted ∧ opt_agentId orow = agentId config
       ∧ opt_testRunId orow = testRunId) →
  loop_invariant config
    {| ls_cycleCount := ls_cycleCount st + 1;
       ls_currentPassRate := calculatePassRate results;
       ls_testRunIds := ls_testRunIds st ++ [testRunId];
       ls_optimizationIds := ls_optimizationIds st ++ new |} w1.
Proof.
  intros (Hcount & Hcap & Hopts & Hfewer & Hrate & Hlast & Hnd & Hndo & Hruns & Horows)
    Hlt Hfresh Hrow Hst Hag Hsu Hpr Hothers Hnew.
  assert (Hold : ∀ i, i ∈ ls_testRunIds st → i ≠ testRunId).
  { intros i Hi ->. rewrite Forall_forall in Hruns.
    destruct (Hruns _ Hi) as (r & Hr & _). congruence. }
  assert (Hlen : length new = 0%nat ∧ new = []
                 ∨ length new = 1%nat ∧ ls_cycleCount st + 1 < maxCycles config).
  { destruct Hnew as [[-> _]|(o & orow & -> & Hl & _)]; [by left|by right]. }
  unfold loop_invariant.
  cbn [ls_cycleCount ls_currentPassRate ls_testRunIds ls_optimizationIds].
  rewrite !length_app, last_snoc. simpl.
  split; [lia|]. split; [lia|]. split; [lia|]. split; [lia|].
  split; [apply calculatePassRate_range|].
  split; [by exists row|].
  split.
  { apply NoDup_app. split; [done|]. split; [|apply NoDup_singleton].
    intros i Hi ->%list_elem_of_singleton. by apply (Hold testRunId). }
  split.
  { destruct Hnew as [[-> _]|(o & orow & -> & _ & Hofresh & _)].
    - by rewrite app_nil_r.
    - apply NoDup_app. split; [done|]. split; [|apply NoDup_singleton].
      intros i Hi ->%list_elem_of_singleton. rewrite Forall_forall in Horows.
      destruct (Horows _ Hi) as (r & Hr & _). congruence. }
  split.
  { apply Forall_app. split.
    - rewrite Forall_forall in Hruns |- *. intros i Hi.
      destruct (Hruns i Hi) as (r & Hr & ?). exists r.
      by rewrite Hothers by by apply Hold.
    - constructor; [|done]. by exists row. }
  assert (Hkept : ∀ o r, o ∈ ls_optimizationIds st →
            OptimizationRecord_t (database w) !! o = Some r →
            OptimizationRecord_t (database w1) !! o = Some r).
  { intros o r Ho Hr. destruct Hnew as [[_ ->]|(o' & orow & _ & _ & Hofresh & -> & _)];
      [done|].
    rewrite lookup_insert_ne; [done|]. intros ->. congruence. }
  apply Forall_app. split.
  - rewrite Forall_forall in Horows |- *. intros o Ho.
    destruct (Horows o Ho) as (r & Hr & Hacc & Hoag & Hin).
    exists r. split; [by apply Hkept|]. split; [done|]. split; [done|].
    apply elem_of_app. by left.
  - destruct Hnew as [[-> _]|(o & orow & -> & _ & _ & -> & Hacc & Hoag & Hrun)];
      [done|].
    constructor; [|done]. exists orow. rewrite lookup_insert_eq.
    split; [done|]. split; [done|]. split; [done|].
    rewrite Hrun. apply elem_of_app. right. by apply list_elem_of_singleton.
Qed.

(** How the loop ends when it returns: with a record written from local
    variables that satisfy the invariant. *)
Lemma cycle_loop_record (cycleId : jsstring) (config : CycleConfig) (fuel : nat) :
  ∀ (st : LoopState) (w w' : World Σ),
  loop_invariant config st w →
  cycle_loop fuel cycleId config st w = Some (Returned (), w') →
  ∃ st_end s shown w0,
    w' = finishing cycleId (ls_cycleCount st_end) (ls_currentPassRate st_end) s
           (ls_testRunIds st_end) (ls_optimizationIds st_end) shown w0
    ∧ CycleRecord_t (database w0) = CycleRecord_t (database w)
    ∧ loop_invariant config st_end w0
    ∧ s ≠ running
    ∧ (s = completed → ls_testRunIds st_end ≠ [] →
       (length (ls_optimizationIds st_end) < length (ls_testRunIds st_end))%nat).
Proof.
  induction fuel as [|fuel IH]; intros st w w' Hinv Hloop.
  all: destruct (decide (ls_cycleCount st < maxCycles config)) as [Hlt|Hge].
  2, 4: rewrite cycle_loop_at_cap in Hloop by done; injection Hloop as <-;
        exists st, completed; eexists _, w; (split; [done|]); (split; [done|]);
        (split; [done|]); (split; [done|]); intros _ Hne;
        destruct Hinv as (_ & _ & _ & Hfewer & _); apply Hfewer; [lia|done].
  { by rewrite cycle_loop_out_of_fuel in Hloop. }
  rewrite cycle_loop_step in Hloop by done.
  destruct (cycle_iteration cycleId config st w) as [[[st'|]|e] w1] eqn:Hiter;
    [| |done].
  - pose proof Hiter as Hnext.
    apply iteration_next in Hnext as (_ & served & _ & _ & _ & (Hrec & _) & _).
    apply iteration_next_rows in Hiter
      as (testRunId & a & results & w2 & _ & _ & Hfresh & Hrow & Hothers & Hc & Hr
          & Hruns & _ & Hopt).
    assert (Hinv' : loop_invariant config st' w1).
    { destruct st' as [c r runs opts]. simpl in Hc, Hr, Hruns, Hopt. subst c r runs.
      destruct Hopt as [(-> & _ & Hsame & _)
                       |(optRecord & Hl & _ & -> & Hofresh & Hins & _)].
      - rewrite <- (app_nil_r (ls_optimizationIds st)).
        eapply (loop_invariant_step config st w w1); try done. by left.
      - eapply (loop_invariant_step config st w w1); try done.
        right. eexists _, _. repeat (split; [done|]). done. }
    destruct (IH st' w1 w' Hinv' Hloop) as (st_end & s & shown & w0 & -> & Hrec' & ?).
    exists st_end, s, shown, w0. split; [done|]. split; [congruence|]. done.
  - injection Hloop as <-.
    apply iteration_returns in Hiter
      as [(s & Hs & _ & ->)
         |(testRunId & a & results & w2 & _ & Hfresh & Hrow & Hothers & Hopts & _
           & Hrec & _ & _ & ->)].
    + exists st, s. eexists _, w. repeat (split; [done|]).
      split; [by destruct Hs as [-> | ->]|]. by destruct Hs as [-> | ->].
    + eexists {| ls_cycleCount := ls_cycleCount st + 1;
                 ls_currentPassRate := calculatePassRate results;
                 ls_testRunIds := ls_testRunIds st ++ [testRunId];
                 ls_optimizationIds := ls_optimizationIds st |}, completed, _, _.
      split; [reflexivity|]. split; [done|]. split.
      { rewrite <- (app_nil_r (ls_optimizationIds st)).
        eapply (loop_invariant_step config st w); try done. by left. }
      split; [done|]. intros _ _. simpl. rewrite length_app. simpl.
      destruct Hinv as (_ & _ & Hle & _). lia.
Qed.

End loop_records.

Section loop_properties.
Context {Σ : Type} `{!LLMService Σ} `{!AgentApi Σ}.

Lemma loop_invariant_initial (config : CycleConfig) (w : World Σ) :
  loop_invariant config
    {| ls_cycleCount := 0; ls_currentPassRate := Finite 0;
       ls_testRunIds := []; ls_optimizationIds := [] |} w.
Proof.
  unfold loop_invariant. simpl. repeat (split; [done || lia|]).
  split; [by exists 0%Q|]. split; [done|].
  split; [apply NoDup_nil_2|]. split; [apply NoDup_nil_2|]. done.
Qed.


(** X13: an iteration that makes an optimization ties it to its test run.
    The stored record names that run and the agent. The prompt snapshot of
    the run is the agent's prompt as the iteration found it; the original
    prompt of the record is the agent's prompt as it is read again once the
    test run has returned. The record ends as [accepted], and the agent's
    prompt after the iteration is the record's revised prompt. *)
Theorem optimization_is_applied (cycleId : jsstring) (config : CycleConfig)
  (st st' : LoopState) (w w1 : World Σ) :
  cycle_iteration cycleId config st w = (Returned (NextIteration st'), w1) →
  ls_optimizationIds st' ≠ ls_optimizationIds st →
  ∃ testRunId optimizationId run opt w2 found read_again,
    executeTestRun config (entering cycleId (ls_cycleCount st + 1) w)
    = (Returned testRunId, w2)
    ∧ ls_testRunIds st' = ls_testRunIds st ++ [testRunId]
    ∧ ls_optimizationIds st' = ls_optimizationIds st ++ [optimizationId]
    ∧ TestRun_t (database w1) !! testRunId = Some run
    ∧ Agent_t (database w) !! agentId config = Some found
    ∧ promptSnapshot run = currentPrompt found
    ∧ Agent_t (database w2) !! agentId config = Some read_again
    ∧ OptimizationRecord_t (database w) !! optimizationId = None
    ∧ OptimizationRecord_t (database w1) !! optimizationId = Some opt
    ∧ opt_testRunId opt = testRunId
    ∧ opt_agentId opt = agentId config
    ∧ opt_originalPrompt opt = currentPrompt read_again
    ∧ opt_status opt = accepted
    ∧ Agent_t (database w1) !! agentId config
      = Some {| currentPrompt := opt_revisedPrompt opt |}.
Proof.
  intros Hiter Hnew.
  apply iteration_next_rows in Hiter
    as (testRunId & a & results & w2 & Hrun & Ha & _ & Hrow & _ & _ & _ & Hruns & _ & Hopt).
  destruct Hopt as [(Hsame & _)|(optRecord & _ & _ & Hids & Hfresh & Hrows & Hagents & _)];
    [done|].
  pose proof Hrun as Hkept.
  apply executeTestRun_fresh in Hkept as (_ & _ & _ & Hkept & _).
  eexists testRunId, (sor_id optRecord), _, _, w2, a, a.
  split; [exact Hrun|]. split; [done|]. split; [done|]. split; [exact Hrow|].
  split; [done|]. split; [done|]. split; [by rewrite Hkept|]. split; [done|].
  split; [by rewrite Hrows, lookup_insert_eq|]. simpl.
  repeat (split; [done|]). rewrite Hagents. by rewrite lookup_insert_eq.
Qed.

(** X14: in an iteration that goes on to the next one, the optimizer is
    called exactly when the iteration is not the last one allowed and its
    test run left at least one failed criterion among the completed test
    cases. Otherwise the only call is the test run, the client is not
    consulted again, and the agents and the optimization records are left as
    they were. *)
Theorem optimizer_called_iff_failures (cycleId : jsstring) (config : CycleConfig)
  (st st' : LoopState) (w w1 : World Σ) :
  cycle_iteration cycleId config st w = (Returned (NextIteration st'), w1) →
  ∃ testRunId w2,
    executeTestRun config (entering cycleId (ls_cycleCount st + 1) w)
    = (Returned testRunId, w2)
    ∧ (Call_optimizePrompt ∈ drop (length (calls w)) (calls w1)
       ↔ ls_cycleCount st + 1 < maxCycles config
         ∧ (getResultsForRun testRunId (database w2)).1 ≠ [])
    ∧ (Call_optimizePrompt ∉ drop (length (calls w)) (calls w1) →
       calls w1 = calls w ++ [Call_executeTestRun]
       ∧ oracle w1 = oracle w2
       ∧ ls_optimizationIds st' = ls_optimizationIds st
       ∧ Agent_t (database w1) = Agent_t (database w)
       ∧ OptimizationRecord_t (database w1) = OptimizationRecord_t (database w)).
Proof.
  intros Hiter.
  apply iteration_next_rows in Hiter
    as (testRunId & a & results & w2 & Hrun & _ & _ & _ & _ & _ & _ & _ & _ & Hopt).
  exists testRunId, w2. split; [done|].
  destruct Hopt as [(Hids & Hagents & Hrows & Horacle & Hcalls & Hnone)
                   |(optRecord & Hlt & Hfail & _ & _ & _ & _ & Hcalls)];
    rewrite Hcalls, drop_app_length.
  - split.
    + split.
      * intros Hin. apply elem_of_cons in Hin as [?|Hin]; [done|].
        by apply elem_of_nil in Hin.
      * intros [Hlt Hfail]. by specialize (Hnone Hlt).
    + done.
  - split.
    + split; [done|]. intros _. apply elem_of_cons. right. apply elem_of_cons. by left.
    + intros Hno. exfalso. apply Hno. apply elem_of_cons. right.
      apply elem_of_cons. by left.
Qed.

(** A loop that throws has written no cycle record and emitted no
    [finished] event. *)
Lemma cycle_loop_threw (cycleId : jsstring) (config : CycleConfig) (fuel : nat) :
  ∀ (st : LoopState) (w w' : World Σ) (e : thrown),
  cycle_loop fuel cycleId config st w = Some (Threw e, w') →
  CycleRecord_t (database w') = CycleRecord_t (database w)
  ∧ ∃ evs, emitted w' = emitted w ++ evs
           ∧ Forall (λ ev, ∀ s shown, ev.2 ≠ finished s shown) evs.
Proof.
  induction fuel as [|fuel IH]; intros st w w' e Hloop.
  all: destruct (decide (ls_cycleCount st < maxCycles config)) as [Hlt|Hge].
  2, 4: by rewrite cycle_loop_at_cap in Hloop by done.
  { by rewrite cycle_loop_out_of_fuel in Hloop. }
  rewrite cycle_loop_step in Hloop by done.
  destruct (cycle_iteration cycleId config st w) as [[[st'|]|e'] w1] eqn:Hiter;
    [|done|].
  - apply iteration_next in Hiter
      as (_ & served & testRunId & opts & row & (Hrec & _) & _ & _ & Hem & _).
    destruct (IH _ _ _ _ Hloop) as (Hrec' & evs & Hem' & Hnone).
    split; [congruence|]. eexists. rewrite Hem', Hem, <- !app_assoc.
    split; [done|]. apply Forall_app. split; [by repeat constructor|].
    apply Forall_app. split; [|done].
    apply Forall_fmap, Forall_true. done.
  - injection Hloop as <- <-. by apply iteration_threw in Hiter.
Qed.

(** X15: [startCycle] for a known agent, when the next identifier is free,
    always hands back that identifier, after inserting a [running] record
    with the agent, threshold and cap of the configuration and setting the
    flag. What is left behind depends on how the loop it started ends. When
    the loop returns, what the loop left is what [startCycle] leaves: the
    record has left [running] and the last event is [finished] with the
    persisted status. When an error escapes the loop, the record is the one
    that was inserted, still [running] with [cycleCount] 0 and no run ids,
    the database is as the loop left it, the loop has emitted no [finished]
    event, and one [error] event is added, with the message of what was
    caught; for a caught [undefined] or [null] nothing is added. *)
Theorem startCycle_outcomes (fuel : nat) (config : CycleConfig) (w w' : World Σ)
  (res : outcome jsstring) (a : Agent) :
  Agent_t (database w) !! agentId config = Some a →
  CycleRecord_t (database w) !! uuid_of (uuids w) = None →
  startCycle fuel config w = Some (res, w') →
  let cycleId := uuid_of (uuids w) in
  let inserted :=
    {| cyc_agentId := agentId config; cycleCount := 0;
       startingPassRate := Finite 0; endingPassRate := Finite 0;
       cyc_targetThreshold := targetThreshold config;
       cyc_maxCycles := maxCycles config; cyc_status := running;
       testRunIds := []; optimizationIds := [] |} in
  let started :=
    set_stateFlags (<[cycleId := running]> (stateFlags w))
      (set_database
         (set_CycleRecord_t (<[cycleId := inserted]> (CycleRecord_t (database w)))
            (database w))
         (set_uuids (S (uuids w)) w)) in
  res = Returned cycleId
  ∧ match runCycleLoop fuel cycleId config started with
    | Some (Returned _, w1) =>
        w' = w1
        ∧ ∃ record shown,
            cycle_record cycleId w' = Some record
            ∧ cyc_agentId record = agentId config
            ∧ cyc_targetThreshold record = targetThreshold config
            ∧ cyc_maxCycles record = maxCycles config
            ∧ cyc_status record ≠ running
            ∧ last (emitted w') = Some (cycleId, finished (cyc_status record) shown)
    | Some (Threw e, w1) =>
        cycle_record cycleId w' = Some inserted
        ∧ database w' = database w1
        ∧ (∃ evs, emitted w1 = emitted w ++ evs
                  ∧ Forall (λ ev, ∀ s shown, ev.2 ≠ finished s shown) evs)
        ∧ emitted w'
          = emitted w1
            ++ match e with
               | ErrorObject message | ObjectWithMessage _ message =>
                   [(cycleId, error (Some message))]
               | NotAnError _ => [(cycleId, error None)]
               | Undefined | Null => []
               end
    | None => False
    end.
Proof.
  intros Ha Hfresh. unfold startCycle.
  unfold mbind at 1, M_bind at 1, uuidv4 at 1.
  unfold insert_CycleRecord, mbind, M_bind, db, constrain. simpl.
  rewrite Hfresh, Ha. rewrite !bool_decide_eq_true_2 by done. simpl.
  unfold write_db, set_flag, modify_state. simpl.
  set (record0 := {| cyc_agentId := agentId config; cycleCount := 0;
                     startingPassRate := Finite 0; endingPassRate := Finite 0;
                     cyc_targetThreshold := targetThreshold config;
                     cyc_maxCycles := maxCycles config; cyc_status := running;
                     testRunIds := []; optimizationIds := [] |}).
  set (w0 := set_stateFlags _ _).
  assert (Hrec0 : cycle_record (uuid_of (uuids w)) w0 = Some record0).
  { unfold cycle_record. simpl. by rewrite lookup_insert_eq. }
  destruct (runCycleLoop fuel (uuid_of (uuids w)) config w0)
    as [[[u|e] w1]|] eqn:Hloop; [| |done].
  - intros [= <- <-]. split; [done|]. split; [done|]. destruct u.
    unfold runCycleLoop in Hloop.
    apply cycle_loop_record in Hloop
      as (st_end & s & shown & w2 & -> & Hrec2 & _ & Hs & _);
      [|apply loop_invariant_initial].
    exists (persisted (ls_cycleCount st_end) (ls_currentPassRate st_end) s
              (ls_testRunIds st_end) (ls_optimizationIds st_end) record0), shown.
    split.
    { rewrite cycle_record_finishing. unfold cycle_record in *.
      by rewrite Hrec2, Hrec0. }
    do 4 (split; [done|]). simpl. by rewrite last_snoc.
  - intros [= <- <-]. split; [done|].
    unfold runCycleLoop in Hloop.
    apply cycle_loop_threw in Hloop as (Hrec & evs & Hem & Hnone).
    split.
    { unfold cycle_record in *. destruct e; simpl; by rewrite Hrec. }
    split; [by destruct e|]. split.
    { exists evs. split; [|done]. by rewrite Hem. }
    destruct e; simpl; by rewrite ?app_nil_r.
Qed.

(** X16: [startCycle] for an agent that is not in the database is refused
    by the insert: it throws the error of SQLite, for the foreign key when
    the new identifier is free and for the key otherwise, and leaves no
    record, no flag, no event and no call behind. *)
Theorem startCycle_unknown_agent (fuel : nat) (config : CycleConfig) (w : World Σ) :
  Agent_t (database w) !! agentId config = None →
  ∃ w',
    startCycle fuel config w
    = Some (Threw (SqliteError
                     (if decide (CycleRecord_t (database w) !! uuid_of (uuids w) = None)
                      then ForeignKeyConstraint
                      else UniqueConstraint (lit "CycleRecord.id"))), w')
    ∧ database w' = database w ∧ stateFlags w' = stateFlags w
    ∧ emitted w' = emitted w ∧ calls w' = calls w.
Proof.
  intros Ha. unfold startCycle.
  unfold mbind at 1, M_bind at 1, uuidv4 at 1.
  unfold insert_CycleRecord, mbind, M_bind, db, constrain. simpl.
  rewrite Ha. rewrite (bool_decide_eq_false_2 (is_Some None)) by (by intros [? ?]).
  rewrite andb_false_r.
  destruct (decide (CycleRecord_t (database w) !! uuid_of (uuids w) = None)) as [Hfree|Hnot].
  - rewrite bool_decide_eq_true_2 by done. by eexists.
  - rewrite bool_decide_eq_false_2 by done. by eexists.
Qed.

End loop_properties.


Lemma optimization_is_applied_witness :
  ∃ st' w1,
    @cycle_iteration unit (FailingLLM None) MockAgentApi (lit "cycle-1")
      (sample_config (Finite (9 # 10)) 2) initial_state
      (started_world () (Finite (9 # 10)) 2 [])
    = (Returned (NextIteration st'), w1)
    ∧ ∃ opt,
        OptimizationRecord_t (database w1) !! uuid_of 4 = Some opt
        ∧ opt_originalPrompt opt = lit "Be nice"
        ∧ opt_status opt = accepted
        ∧ Agent_t (database w1) !! lit "agent-1"
          = Some {| currentPrompt := opt_revisedPrompt opt |}.
Proof.
  destruct (@cycle_iteration unit (FailingLLM None) MockAgentApi (lit "cycle-1")
              (sample_config (Finite (9 # 10)) 2) initial_state
              (started_world () (Finite (9 # 10)) 2 []))
    as [[[st'|]|e] w1] eqn:Hiter; [|vm_compute in Hiter; discriminate..].
  assert (Hids : ls_optimizationIds st' = [uuid_of 4]).
  { vm_compute in Hiter. injection Hiter as <- _. reflexivity. }
  destruct (@optimization_is_applied unit (FailingLLM None) MockAgentApi
              (lit "cycle-1") (sample_config (Finite (9 # 10)) 2) initial_state st'
              (started_world () (Finite (9 # 10)) 2 []) w1 Hiter)
    as (testRunId & optimizationId & run & opt & w2 & found & read_again & Hrun & _
        & Hopts & _ & _ & _ & Hagain & _ & Hopt & _ & _ & Horig & Hacc & Hagent).
  { rewrite Hids. discriminate. }
  rewrite Hids in Hopts. injection Hopts as <-.
  vm_compute in Hrun. injection Hrun as _ <-.
  vm_compute in Hagain. injection Hagain as <-.
  exists st', w1. split; [reflexivity|]. exists opt.
  split; [exact Hopt|]. split; [rewrite Horig; reflexivity|].
  split; [exact Hacc|exact Hagent].
Defined.

Lemma optimizer_called_iff_failures_witness :
  ∃ st' w1,
    @cycle_iteration unit MockLLMService MockAgentApi (lit "cycle-1")
      (sample_config (Finite 2) 2) initial_state
      (started_world () (Finite 2) 2 [])
    = (Returned (NextIteration st'), w1)
    ∧ calls w1 = [Call_executeTestRun]
    ∧ Agent_t (database w1) !! lit "agent-1"
      = Some {| currentPrompt := lit "Be nice" |}.
Proof.
  destruct (@cycle_iteration unit MockLLMService MockAgentApi (lit "cycle-1")
              (sample_config (Finite 2) 2) initial_state
              (started_world () (Finite 2) 2 []))
    as [[[st'|]|e] w1] eqn:Hiter; [|vm_compute in Hiter; discriminate..].
  destruct (@optimizer_called_iff_failures unit MockLLMService MockAgentApi
              (lit "cycle-1") (sample_config (Finite 2) 2) initial_state st'
              (started_world () (Finite 2) 2 []) w1 Hiter)
    as (testRunId & w2 & _ & _ & Hquiet).
  destruct Hquiet as (Hcalls & _ & _ & Hagents & _).
  { vm_compute in Hiter. injection Hiter as _ <-. simpl.
    intros Hin. apply elem_of_cons in Hin as [Hin|Hin]; [discriminate|].
    by apply elem_of_nil in Hin. }
  exists st', w1. split; [reflexivity|]. split; [exact Hcalls|].
  rewrite Hagents. reflexivity.
Defined.

(** A client that is down: the first test run throws while evaluating, the
    error escapes the loop, and the record of the cycle stays [running]. *)
Lemma startCycle_outcomes_witness :
  ∃ w',
    @startCycle unit ThrowingLLM MockAgentApi 3 (sample_config (Finite (9 # 10)) 3)
      (sample_world () [])
    = Some (Returned (uuid_of 0), w')
    ∧ cyc_status <$> cycle_record (uuid_of 0) w' = Some running
    ∧ last (emitted w') = Some (uuid_of 0, error (Some (lit "LLM unavailable"))).
Proof.
  destruct (@startCycle unit ThrowingLLM MockAgentApi 3
              (sample_config (Finite (9 # 10)) 3) (sample_world () []))
    as [[res w']|] eqn:Hstart; [|vm_compute in Hstart; discriminate].
  destruct (@startCycle_outcomes unit ThrowingLLM MockAgentApi 3
              (sample_config (Finite (9 # 10)) 3) (sample_world () []) w' res
              {| currentPrompt := lit "Be nice" |}
              ltac:(vm_compute; reflexivity) ltac:(vm_compute; reflexivity) Hstart)
    as (-> & Hend).
  exists w'. split; [reflexivity|].
  destruct (@runCycleLoop unit ThrowingLLM MockAgentApi 3 _ _ _)
    as [[[[]|e] w1]|] eqn:Hloop in Hend; [vm_compute in Hloop; discriminate| |done].
  destruct Hend as (Hrec & _ & _ & Hem).
  change (uuid_of (uuids (sample_world () []))) with (uuid_of 0) in Hrec, Hem.
  rewrite Hrec, Hem. split; [reflexivity|].
  vm_compute in Hloop. injection Hloop as <- _. apply last_snoc.
Defined.

Lemma startCycle_unknown_agent_witness :
  ∃ w',
    @startCycle unit MockLLMService MockAgentApi 3
      {| agentId := lit "nobody"; testSuiteId := lit "suite-1";
         targetThreshold := Finite (9 # 10); maxCycles := 3 |}
      (sample_world () [])
    = Some (Threw (ErrorObject (lit "FOREIGN KEY constraint failed")), w')
    ∧ database w' = sample_database ∧ stateFlags w' = ∅.
Proof.
  destruct (@startCycle_unknown_agent unit MockLLMService MockAgentApi 3
              {| agentId := lit "nobody"; testSuiteId := lit "suite-1";
                 targetThreshold := Finite (9 # 10); maxCycles := 3 |}
              (sample_world () []) ltac:(vm_compute; reflexivity))
    as (w' & Hstart & Hdb & Hflags & _).
  exists w'. split; [exact Hstart|]. split; [exact Hdb|exact Hflags].
Defined.

(** ** What a test run stores *)

Section stored_results.
Context {Σ : Type} `{!LLMService Σ} `{!AgentApi Σ}.
#[local] Existing Instance same_runs_preorder.

#[local] Instance same_tables_preorder : PreOrder (@same_tables Σ).
Proof.
  split.
  - by intros w.
  - intros w1 w2 w3 [Hd1 Hu1] [Hd2 Hu2]. split; congruence.
Qed.

Lemma await_same_tables {A} (call : M Σ A) : preserves same_tables (await call).
Proof. intros w. apply await_database. Qed.

Lemma executeTestCase_same_tables tc prompt :
  preserves same_tables (executeTestCase tc prompt).
Proof.
  unfold executeTestCase. pose proof @await_same_tables. preserves_auto.
Qed.

Lemma evaluateAllCriteria_same_tables rs cs :
  preserves same_tables (evaluateAllCriteria rs cs).
Proof.
  unfold evaluateAllCriteria, evaluateCriterion.
  pose proof @await_same_tables. preserves_auto.
Qed.

Lemma executeTestCase_returned (tc : TestCase) (prompt : jsstring) (w w' : World Σ)
  (r : TestCaseResult) :
  executeTestCase tc prompt w = (Returned r, w') →
  testCaseId r = tc_id tc ∧ criterionResults r = [].
Proof.
  unfold executeTestCase, try_catch. rewrite bind_run.
  destruct (foldM _ [] (userInputSequence tc) w) as [[rs|e] w1].
  - by intros [= <- <-].
  - destruct e; intros [= <- <-]; done.
Qed.

(** The rows stored for the criterion results of one test case. *)
Lemma insert_criterion_rows (resultId : jsstring) (crs : list CriterionResult) :
  ∀ (w w' : World Σ) (u : unit),
  foldM (λ _ cr,
           id_ ← uuidv4;
           insert_CriterionResult id_ resultId (criterionId cr) (passed cr)
             (explanation cr))
        () crs w = (Returned u, w') →
  ∃ rows,
    CriterionResult_t (database w') = CriterionResult_t (database w) ++ rows
    ∧ Forall2 stored_as crs rows
    ∧ Forall (λ c, crr_testCaseResultId c = resultId) rows
    ∧ TestCaseResult_t (database w') = TestCaseResult_t (database w)
    ∧ TestCase_t (database w') = TestCase_t (database w).
Proof.
  induction crs as [|cr crs IH]; intros w w' u; simpl.
  { intros [= _ <-]. exists []. by rewrite app_nil_r. }
  intros Hrun. apply bind_returned in Hrun as ([] & w1 & Hstep & Hrun).
  apply bind_returned in Hstep as (i & w2 & Hid & Hins).
  unfold uuidv4 in Hid. simplify_eq/=.
  unfold insert_CriterionResult in Hins.
  apply bind_returned in Hins as (d & w3 & Hdb & Hins).
  unfold db in Hdb. simplify_eq/=.
  destruct (explanation cr) as [text|] eqn:Hex; [|done].
  apply bind_returned in Hins as ([] & w4 & Hc & Hins).
  apply constrain_returned in Hc as [_ ->].
  unfold write_db, modify_state in Hins. simplify_eq/=.
  destruct (IH _ _ _ Hrun) as (rows & Hrows & Hmirror & Hids & Hcases & Htc).
  simpl in Hrows, Hcases, Htc.
  eexists (_ :: rows). rewrite Hrows, <- app_assoc.
  split; [done|]. split; [by constructor|]. split; [by constructor|]. done.
Qed.

(** One pass through the body of the loop over the test cases. *)
Lemma executeTestRun_case_returned (testRunId prompt : jsstring)
  (acc acc' : list TestCaseResult) (tc : TestCase) (w w' : World Σ) :
  executeTestRun_case testRunId prompt acc tc w = (Returned acc', w') →
  ∃ r row rows,
    acc' = acc ++ [r]
    ∧ result_of tc r
    ∧ Forall evaluated (criterionResults r)
    ∧ TestCaseResult_t (database w') = TestCaseResult_t (database w) ++ [row]
    ∧ case_stored_as testRunId r row
    ∧ CriterionResult_t (database w') = CriterionResult_t (database w) ++ rows
    ∧ Forall2 stored_as (criterionResults r) rows
    ∧ Forall (λ c, crr_testCaseResultId c = tcr_id row) rows
    ∧ TestCase_t (database w') = TestCase_t (database w).
Proof.
  unfold executeTestRun_case. intros Hrun.
  apply bind_returned in Hrun as (r0 & w1 & Hcase & Hrun).
  pose proof (executeTestCase_same_tables tc prompt w) as [Hd1 _].
  rewrite Hcase in Hd1. simpl in Hd1.
  apply executeTestCase_returned in Hcase as (Hid & Hnone).
  apply bind_returned in Hrun as (r & w2 & Heval & Hrun).
  assert (Hr : database w2 = database w1 ∧ result_of tc r
               ∧ Forall evaluated (criterionResults r)).
  { unfold result_of. destruct (status r0) eqn:Hst.
    - apply bind_returned in Heval as (results & w3 & Hall & [= <- <-]).
      pose proof (evaluateAllCriteria_same_tables (agentResponses r0)
                    (successCriteria tc) w1) as [Hd2 _].
      rewrite Hall in Hd2. simpl in Hd2.
      unfold evaluateAllCriteria in Hall.
      apply evaluateAllCriteria_loop in Hall as (new & -> & Hnew). simpl.
      rewrite ?Hst. split; [done|]. split.
      + split; [done|]. by rewrite (Forall2_length _ _ _ Hnew).
      + clear -Hnew. induction Hnew as [|c cr cs crs (wa & wb & Hc) _ IH];
          constructor; [|done].
        by exists (agentResponses r0), c, wa, wb.
    - injection Heval as <- <-. rewrite ?Hst, ?Hnone. done. }
  destruct Hr as (Hd2 & Hshape & Hprov). clear Heval.
  apply bind_returned in Hrun as (resultId & w3 & Hu & Hrun).
  unfold uuidv4 in Hu. simplify_eq/=.
  apply bind_returned in Hrun as ([] & w4 & Hins & Hrun).
  unfold insert_TestCaseResult in Hins.
  apply bind_returned in Hins as (d & w5 & Hdb & Hins).
  unfold db in Hdb. simplify_eq/=.
  apply bind_returned in Hins as ([] & w6 & Hc & Hins).
  apply constrain_returned in Hc as [_ ->].
  unfold write_db, modify_state in Hins. simplify_eq/=.
  apply bind_returned in Hrun as ([] & w7 & Hrows & [= <- <-]).
  apply insert_criterion_rows in Hrows as (rows & Hcrit & Hmirror & Hids & Hcases & Htc).
  simpl in Hcrit, Hcases, Htc.
  eexists r, _, rows. rewrite Hcases, Hcrit, Htc, Hd2, Hd1.
  split; [done|]. split; [done|]. split; [done|]. split; [reflexivity|].
  split.
  { destruct Hshape as [Hrid _]. by repeat split. }
  repeat (split; [done|]). done.
Qed.

(** The loop over the test cases of the suite. *)
Lemma executeTestRun_cases_returned (testRunId prompt : jsstring)
  (tcs : list TestCase) :
  ∀ (acc results : list TestCaseResult) (w w' : World Σ),
  foldM (executeTestRun_case testRunId prompt) acc tcs w = (Returned results, w') →
  ∃ new cases rows,
    results = acc ++ new
    ∧ Forall2 result_of tcs new
    ∧ Forall evaluated (new ≫= criterionResults)
    ∧ TestCaseResult_t (database w') = TestCaseResult_t (database w) ++ cases
    ∧ Forall2 (case_stored_as testRunId) new cases
    ∧ CriterionResult_t (database w') = CriterionResult_t (database w) ++ rows
    ∧ Forall2 stored_as (new ≫= criterionResults) rows
    ∧ Forall (λ c, crr_testCaseResultId c ∈ tcr_id <$> cases) rows
    ∧ TestCase_t (database w') = TestCase_t (database w).
Proof.
  induction tcs as [|tc tcs IH]; intros acc results w w'; simpl.
  { intros [= <- <-]. exists [], [], []. rewrite !app_nil_r.
    split; [done|]. split; [constructor|]. split; [constructor|].
    split; [done|]. split; [constructor|]. split; [done|].
    split; [constructor|]. split; [constructor|]. done. }
  intros Hrun. apply bind_returned in Hrun as (acc1 & w1 & Hcase & Hrun).
  apply executeTestRun_case_returned in Hcase
    as (r & row & rows1 & -> & Hshape & Hprov1 & Hcases1 & Hcase1 & Hcrit1
        & Hmirror1 & Hids1 & Htc1).
  destruct (IH _ _ _ _ Hrun)
    as (new & cases & rows & -> & Hnew & Hprov & Hcases & Hrows & Hcrit & Hmirror
        & Hids & Htc).
  exists (r :: new), (row :: cases), (rows1 ++ rows).
  rewrite Hcases, Hcases1, Hcrit, Hcrit1, Htc, Htc1, <- !app_assoc, bind_cons.
  split; [done|]. split; [by constructor|]. split; [by apply Forall_app|].
  split; [done|]. split; [by constructor|]. split; [done|].
  split; [by apply Forall2_app|]. split; [|done].
  apply Forall_app. split.
  - eapply Forall_impl; [exact Hids1|]. intros c ->. rewrite fmap_cons.
    apply elem_of_cons. by left.
  - eapply Forall_impl; [exact Hids|]. intros c Hc. rewrite fmap_cons.
    apply elem_of_cons. by right.
Qed.

Lemma stored_counts (crs : list CriterionResult) (rows : list CriterionResultRow) :
  Forall2 stored_as crs rows →
  length rows = length crs
  ∧ length (filter (λ c, crr_passed c = true) rows) = countPassed crs.
Proof.
  induction 1 as [|cr row crs rows (_ & Hpassed & _) _ [IH1 IH2]]; [done|].
  rewrite filter_cons. simpl. rewrite IH1. split; [done|].
  rewrite Hpassed. destruct (passed cr); simpl; by rewrite IH2.
Qed.

Lemma countPassed_app (l1 l2 : list CriterionResult) :
  countPassed (l1 ++ l2) = (countPassed l1 + countPassed l2)%nat.
Proof. induction l1 as [|c l1 IH]; simpl; [done|]. destruct (passed c); simpl; lia. Qed.

Lemma completed_counts_all (tcs : list TestCase) (results : list TestCaseResult) :
  Forall2 result_of tcs results →
  completedCriteria results = length (results ≫= criterionResults)
  ∧ completedPassed results = countPassed (results ≫= criterionResults).
Proof.
  induction 1 as [|tc r tcs results [_ Hshape] _ [IH1 IH2]]; [done|].
  rewrite bind_cons, length_app, countPassed_app. simpl. destruct (status r).
  - by rewrite IH1, IH2.
  - rewrite Hshape. simpl. by rewrite IH1, IH2.
Qed.

(** What a returned [executeTestRun] has done, results and rows. *)
Lemma executeTestRun_rows (config : CycleConfig) (w w' : World Σ)
  (testRunId : jsstring) :
  executeTestRun config w = (Returned testRunId, w') →
  ∃ results cases rows run,
    Forall2 result_of (getTestCases (testSuiteId config) (database w)) results
    ∧ Forall evaluated (results ≫= criterionResults)
    ∧ TestCaseResult_t (database w') = TestCaseResult_t (database w) ++ cases
    ∧ Forall2 (case_stored_as testRunId) results cases
    ∧ CriterionResult_t (database w') = CriterionResult_t (database w) ++ rows
    ∧ Forall2 stored_as (results ≫= criterionResults) rows
    ∧ Forall (λ c, crr_testCaseResultId c ∈ tcr_id <$> cases) rows
    ∧ TestCase_t (database w') = TestCase_t (database w)
    ∧ TestRun_t (database w') !! testRunId = Some run
    ∧ tr_status run = run_completed
    ∧ overallPassRate run = Some (calculatePassRate results)
    ∧ calculatePassRate results = rows_pass_rate rows.
Proof.
  unfold executeTestRun. intros H.
  apply bind_returned in H as (i & w1 & Hid & H).
  unfold uuidv4 in Hid. simplify_eq/=.
  apply bind_returned in H as (d & w2 & Hdb & H).
  unfold db in Hdb. simplify_eq/=.
  apply bind_returned in H as (prompt & w2 & Hp & H).
  destruct (Agent_t (database w) !! agentId config) as [a|] eqn:Ha; [|done].
  unfold mret, M_ret in Hp. simplify_eq/=.
  apply bind_returned in H as ([] & w3 & Hins & H).
  unfold insert_TestRun in Hins.
  apply bind_returned in Hins as (d & w4 & Hdb & Hins).
  unfold db in Hdb. simplify_eq/=.
  apply bind_returned in Hins as ([] & w5 & Hc & Hins).
  apply constrain_returned in Hc as [_ ->].
  unfold write_db, modify_state in Hins. simplify_eq/=.
  apply bind_returned in H as (d' & w4 & Hdb & H).
  unfold db in Hdb. simplify_eq/=.
  apply bind_returned in H as (results & w5 & Hfold & H).
  apply bind_returned in H as ([] & w6 & Hdone & H).
  unfold complete_TestRun, write_db, modify_state in Hdone. simplify_eq/=.
  unfold mret, M_ret in H. simplify_eq/=.
  match type of Hfold with
  | foldM ?f ?b ?l ?w0 = _ =>
      pose proof (preserves_foldM same_runs f l
                    (executeTestRun_case_same_runs _ _) b w0) as Hsame
  end.
  rewrite Hfold in Hsame. destruct Hsame as (Hruns & _). simpl in Hruns.
  apply executeTestRun_cases_returned in Hfold
    as (new & cases & rows & Hres & Hnew & Hprov & Hcases & Hrows & Hcrit & Hmirror
        & Hids & Htc).
  simpl in Hres, Hcases, Hcrit, Htc. subst results.
  change (getTestCases (testSuiteId config) _)
    with (getTestCases (testSuiteId config) (database w)) in Hnew.
  eexists new, cases, rows, _. simpl.
  do 8 (split; [done|]). split.
  { rewrite lookup_alter_eq, Hruns. simpl. by rewrite lookup_insert_eq. }
  split; [done|]. split; [done|].
  rewrite calculatePassRate_counts. unfold rows_pass_rate.
  destruct (completed_counts_all _ _ Hnew) as [-> ->].
  destruct (stored_counts _ _ Hmirror) as [<- <-].
  destruct (decide (length rows = 0%nat)) as [|Hn]; [done|].
  by rewrite number_div_counts.
Qed.

Lemma evaluated_explained (cr : CriterionResult) (row : CriterionResultRow) :
  evaluated cr → stored_as cr row → crr_passed row = false →
  crr_explanation row ≠ [] ∧ ¬ whitespace_only (crr_explanation row).
Proof.
  intros (rs & c & wa & wb & Heval) (_ & Hpassed & Hex) Hfailed.
  rewrite Hpassed in Hfailed.
  pose proof (evaluateCriterion_explained _ _ _ _ _ Heval Hfailed) as Hblank.
  rewrite Hex in Hblank. simpl in Hblank.
  apply orb_false_iff in Hblank as [Hne Htrim].
  apply bool_decide_eq_false in Hne, Htrim. split; [done|]. by rewrite <- trim_empty.
Qed.

(** X17: what a returned [executeTestRun] has stored. It appended one
    [TestCaseResult] row per test case of the suite, in the order of the
    suite, each tagged with the run and its test case; it appended criterion
    result rows that belong to those rows, as many as the criteria of the
    test cases that completed, and every row among them that did not pass
    carries an explanation that is not blank; it left the test cases alone;
    and the [overallPassRate] it stored with status [completed] is the share
    of passed rows among the criterion rows it appended, or 0 if it appended
    none. *)
Theorem executeTestRun_stores_results (config : CycleConfig) (w w' : World Σ)
  (testRunId : jsstring) :
  executeTestRun config w = (Returned testRunId, w') →
  ∃ cases rows run,
    TestCaseResult_t (database w') = TestCaseResult_t (database w) ++ cases
    ∧ CriterionResult_t (database w') = CriterionResult_t (database w) ++ rows
    ∧ TestCase_t (database w') = TestCase_t (database w)
    ∧ tcr_testCaseId <$> cases
      = tc_id <$> getTestCases (testSuiteId config) (database w)
    ∧ Forall (λ row, tcr_testRunId row = testRunId) cases
    ∧ Forall (λ c, crr_testCaseResultId c ∈ tcr_id <$> cases) rows
    ∧ length rows
      = sum_list ((λ p, match tcr_status p.2 with
                        | case_completed => length (successCriteria p.1)
                        | case_error => 0%nat
                        end)
                  <$> zip (getTestCases (testSuiteId config) (database w)) cases)
    ∧ Forall (λ c, crr_passed c = false →
                   crr_explanation c ≠ [] ∧ ¬ whitespace_only (crr_explanation c))
             rows
    ∧ TestRun_t (database w') !! testRunId = Some run
    ∧ tr_status run = run_completed
    ∧ overallPassRate run = Some (rows_pass_rate rows).
Proof.
  intros Hrun.
  apply executeTestRun_rows in Hrun
    as (results & cases & rows & run & Hnew & Hprov & Hcases & Hrows & Hcrit & Hmirror
        & Hids & Htc & Hrun & Hst & Hrate & Heq).
  exists cases, rows, run.
  split; [done|]. split; [done|]. split; [done|]. split.
  { clear -Hnew Hrows. revert cases Hrows.
    induction Hnew as [|tc r tcs new [Hid _] _ IH]; intros cases Hrows.
    - by apply Forall2_nil_inv_l in Hrows as ->.
    - apply Forall2_cons_inv_l in Hrows as (row & cases' & (_ & Hc & _) & Hrows & ->).
      by rewrite !fmap_cons, (IH _ Hrows), Hc, Hid. }
  split.
  { clear -Hrows. induction Hrows as [|r row new cases (Hrun & _) _ IH];
      by constructor. }
  split; [done|]. split.
  { destruct (stored_counts _ _ Hmirror) as [-> _].
    clear -Hnew Hrows. revert cases Hrows.
    induction Hnew as [|tc r tcs new [_ Hshape] _ IH]; intros cases Hrows.
    - by apply Forall2_nil_inv_l in Hrows as ->.
    - apply Forall2_cons_inv_l in Hrows as (row & cases' & (_ & _ & Hst) & Hrows & ->).
      rewrite bind_cons, length_app, (IH _ Hrows). simpl. rewrite Hst.
      destruct (status r); by rewrite Hshape. }
  split.
  { clear -Hprov Hmirror. revert Hprov.
    induction Hmirror as [|cr row crs rows Hstored _ IH]; intros Hprov;
      [constructor|].
    apply Forall_cons in Hprov as [Hcr Hprov]. constructor; [|by apply IH].
    by apply (evaluated_explained cr). }
  split; [done|]. split; [done|]. by rewrite Hrate, Heq.
Qed.

End stored_results.

Lemma executeTestRun_stores_results_witness :
  ∃ w' cases rows run,
    @executeTestRun unit (FailingLLM None) MockAgentApi
      (sample_config (Finite (9 # 10)) 2) (sample_world () [])
    = (Returned (uuid_of 0), w')
    ∧ TestCaseResult_t (database w') = cases
    ∧ CriterionResult_t (database w') = rows
    ∧ tcr_testCaseId <$> cases = [lit "tc-1"]
    ∧ length rows = 2%nat
    ∧ Forall (λ c, crr_passed c = false →
                   crr_explanation c ≠ [] ∧ ¬ whitespace_only (crr_explanation c))
             rows
    ∧ TestRun_t (database w') !! uuid_of 0 = Some run
    ∧ overallPassRate run = Some (rows_pass_rate rows).
Proof.
  destruct (@executeTestRun unit (FailingLLM None) MockAgentApi
              (sample_config (Finite (9 # 10)) 2) (sample_world () []))
    as [[testRunId|e] w'] eqn:Hrun; [|vm_compute in Hrun; discriminate].
  assert (testRunId = uuid_of 0) as ->.
  { vm_compute in Hrun. injection Hrun as <- _. reflexivity. }
  destruct (@executeTestRun_stores_results unit (FailingLLM None) MockAgentApi
              (sample_config (Finite (9 # 10)) 2) (sample_world () []) w'
              (uuid_of 0) Hrun)
    as (cases & rows & run & Hcases & Hrows & _ & Hids & _ & _ & Hlen & Hexpl & Hrow
        & _ & Hrate).
  simpl in Hcases, Hrows.
  exists w', cases, rows, run. split; [reflexivity|].
  split; [exact Hcases|]. split; [exact Hrows|]. split; [exact Hids|].
  split.
  { rewrite Hlen. vm_compute in Hrun. injection Hrun as <-.
    simpl in Hcases. subst cases. reflexivity. }
  split; [exact Hexpl|]. split; [exact Hrow|exact Hrate].
Defined.

(** ** The mock client *)

Section mock_client.
Context `{!AgentApi unit}.
#[local] Existing Instance MockLLMService.

Lemma mock_evaluated_passes (cr : CriterionResult) :
  @evaluated unit MockLLMService cr → passed cr = true.
Proof.
  intros (rs & c & wa & wb & Heval). unfold evaluateCriterion in Heval.
  cbv zeta in Heval. rewrite bind_run in Heval. unfold await in Heval.
  simpl in Heval. unfold mret, M_ret in Heval. simpl in Heval.
  by injection Heval as <- _.
Qed.

Lemma number_ge_full_marks (n : nat) (T : number) :
  n ≠ 0%nat → number_ge (Finite 1) T = true →
  number_ge (number_div (number_of_nat n) (number_of_nat n)) T = true.
Proof.
  intros Hn HT. rewrite number_div_counts by done.
  destruct T as [t| | |]; try done. simpl in *.
  apply Qle_bool_iff. apply Qle_bool_iff in HT.
  eapply Qle_trans; [exact HT|].
  apply Qle_shift_div_l; [unfold Qlt; simpl; lia|].
  rewrite Qmult_1_l. apply Qle_refl.
Qed.

(** X18: with [MockLLMService], which passes every criterion, a test run
    that stores at least one criterion row has pass rate 1. So for every
    threshold that 1 reaches, the iteration that makes such a run ends the
    cycle: the record is persisted as [completed] with the count of that
    iteration, the only call is the test run, and neither the optimizer nor
    the agent's prompt is touched. *)
Theorem mock_cycle_completes_at_once (fuel : nat) (cycleId : jsstring)
  (config : CycleConfig) (st : LoopState) (w w2 : World unit)
  (testRunId : jsstring) (record : CycleRecord) :
  ls_cycleCount st < maxCycles config →
  running_flag cycleId w →
  cycle_record cycleId w = Some record →
  @executeTestRun unit MockLLMService _ config
    (entering cycleId (ls_cycleCount st + 1) w) = (Returned testRunId, w2) →
  CriterionResult_t (database w2) ≠ CriterionResult_t (database w) →
  number_ge (Finite 1) (targetThreshold config) = true →
  ∃ w' rate,
    @cycle_loop unit MockLLMService _ (S fuel) cycleId config st w
    = Some (Returned (), w')
    ∧ cycle_record cycleId w'
      = Some (persisted (ls_cycleCount st + 1) rate completed
                (ls_testRunIds st ++ [testRunId]) (ls_optimizationIds st) record)
    ∧ number_ge rate (Finite 1) = true
    ∧ calls w' = calls w ++ [Call_executeTestRun]
    ∧ Agent_t (database w') = Agent_t (database w)
    ∧ OptimizationRecord_t (database w') = OptimizationRecord_t (database w).
Proof.
  intros Hlt [Hc Hp] Hrec Hrun Hrows HT.
  rewrite cycle_loop_step, cycle_iteration_eq by done. cbv zeta.
  rewrite !decide_False by done.
  destruct (executeTestRun_steady config (entering cycleId (ls_cycleCount st + 1) w))
    as (served & (Hr & _) & Hem & Hcalls).
  rewrite Hrun in Hr, Hem, Hcalls |- *. simpl in Hr, Hem, Hcalls.
  pose proof Hrun as Hfresh.
  apply executeTestRun_fresh in Hfresh as (_ & _ & _ & Hagents & Hopts & _).
  apply executeTestRun_rows in Hrun
    as (results & cases & rows & run & Hnew & Hprov & _ & _ & Hcrit & Hmirror
        & _ & _ & Hrow & _ & Hrate & Heq).
  simpl in Hcrit, Hagents, Hopts.
  assert (Hall : length (filter (λ c, crr_passed c = true) rows) = length rows).
  { destruct (stored_counts _ _ Hmirror) as [-> ->].
    apply countPassed_all. eapply Forall_impl; [exact Hprov|].
    apply mock_evaluated_passes. }
  assert (Hsome : length rows ≠ 0%nat).
  { intros Hnil. apply Hrows. rewrite Hcrit.
    destruct rows; [by rewrite app_nil_r|done]. }
  assert (Hmeasured : measured testRunId w2
                      = number_div (number_of_nat (length rows))
                          (number_of_nat (length rows))).
  { unfold measured. rewrite Hrow. simpl. rewrite Hrate. simpl. rewrite Heq.
    unfold rows_pass_rate. by rewrite decide_False, Hall by done. }
  rewrite Hmeasured, number_ge_full_marks by done.
  eexists _, _. split; [reflexivity|].
  rewrite cycle_record_finishing. unfold cycle_record in *. simpl.
  rewrite Hr, Hrec, Hcalls. split; [done|]. split.
  { by apply number_ge_full_marks. }
  done.
Qed.

End mock_client.

Lemma mock_cycle_completes_at_once_witness :
  ∃ w' rate,
    @cycle_loop unit MockLLMService MockAgentApi 1 (lit "cycle-1")
      (sample_config (Finite (9 # 10)) 3) initial_state
      (started_world () (Finite (9 # 10)) 3 [])
    = Some (Returned (), w')
    ∧ cycle_record (lit "cycle-1") w'
      = Some (persisted 1 rate completed [uuid_of 0] []
                (sample_cycle_record (Finite (9 # 10)) 3))
    ∧ number_ge rate (Finite 1) = true
    ∧ calls w' = [Call_executeTestRun].
Proof.
  pose (w1 := @entering unit (lit "cycle-1") 1
                (started_world () (Finite (9 # 10)) 3 [])).
  destruct (@mock_cycle_completes_at_once MockAgentApi 0 (lit "cycle-1")
              (sample_config (Finite (9 # 10)) 3) initial_state
              (started_world () (Finite (9 # 10)) 3 [])
              (@executeTestRun unit MockLLMService MockAgentApi
                 (sample_config (Finite (9 # 10)) 3) w1).2
              (uuid_of 0) (sample_cycle_record (Finite (9 # 10)) 3))
    as (w' & rate & Hloop & Hrec & Hrate & Hcalls & _).
  - simpl. lia.
  - split; by vm_compute.
  - by vm_compute.
  - vm_compute. reflexivity.
  - vm_compute. discriminate.
  - reflexivity.
  - exists w', rate. split; [exact Hloop|]. split; [exact Hrec|].
    split; [exact Hrate|exact Hcalls].
Defined.

(** ** The routes *)

Section route_properties.
Context {Σ : Type} `{!LLMService Σ} `{!AgentApi Σ}.

(** X19: an optimization is applied exactly once. For a record with status
    [generated] the route answers 200, sets the agent's prompt to the
    record's revised prompt and the record's status to [accepted], touching
    no other agent and no other record; asked again, it answers 400
    [INVALID_TRANSITION] and changes nothing. The same refusal meets every
    record that is not [generated], such as the ones the cycle loop has
    accepted itself; an unknown id is answered with 404. *)
Theorem post_apply_accepts_once (id_ : jsstring) (w : World Σ) :
  match OptimizationRecord_t (database w) !! id_ with
  | None =>
      post_apply id_ w
      = (Returned (errorResponse 404 (lit "OPTIMIZATION_NOT_FOUND")
                     (lit "Optimization record '" ++ id_ ++ lit "' not found") false),
         w)
  | Some record =>
      if decide (opt_status record = generated) then
        ∃ w1,
          post_apply id_ w
          = (Returned {| statusCode := 200;
                         body := AppliedJson id_ accepted (opt_agentId record) |}, w1)
          ∧ Agent_t (database w1)
            = alter (λ _, {| currentPrompt := opt_revisedPrompt record |})
                (opt_agentId record) (Agent_t (database w))
          ∧ OptimizationRecord_t (database w1)
            = <[id_ := {| opt_testRunId := opt_testRunId record;
                          opt_agentId := opt_agentId record;
                          opt_originalPrompt := opt_originalPrompt record;
                          opt_revisedPrompt := opt_revisedPrompt record;
                          opt_changes := opt_changes record;
                          opt_status := accepted |}]>
                (OptimizationRecord_t (database w))
          ∧ post_apply id_ w1
            = (Returned (errorResponse 400 (lit "INVALID_TRANSITION")
                           (transition_error_message
                              (InvalidOptimizationTransition accepted accepted))
                           false), w1)
      else
        post_apply id_ w
        = (Returned (errorResponse 400 (lit "INVALID_TRANSITION")
                       (transition_error_message
                          (InvalidOptimizationTransition (opt_status record) accepted))
                       false), w)
  end.
Proof.
  unfold post_apply, try_catch. rewrite bind_run. unfold db. cbn beta iota.
  destruct (OptimizationRecord_t (database w) !! id_) as [record|] eqn:Hrec; [|done].
  case_decide as Hst.
  - rewrite Hst. simpl. eexists. split; [reflexivity|]. simpl.
    split; [done|]. split.
    { apply map_eq. intros other. destruct (decide (other = id_)) as [->|Hne].
      - by rewrite lookup_alter_eq, lookup_insert_eq, Hrec.
      - by rewrite lookup_alter_ne, lookup_insert_ne. }
    rewrite bind_run. unfold db. simpl.
    by rewrite lookup_alter_eq, Hrec.
  - by destruct (opt_status record).
Qed.

(** X20: the cancel route answers before anything is persisted. For a
    cycle whose stored status is [running] or [paused] it answers 200 with
    status [cancelled] and sets the flag, but writes nothing to the
    database: the stored status is what it was. For a cycle that is
    [completed] or [cancelled] it answers 500 [CYCLE_CANCEL_FAILED], marked
    retryable, with the message of the refused transition, and changes
    nothing, so that a retry is answered in the same way; an unknown id is
    answered with 404. *)
Theorem post_cancel_outcomes (id_ : jsstring) (w : World Σ) :
  match cycle_record id_ w with
  | None =>
      post_cancel id_ w
      = (Returned (errorResponse 404 (lit "CYCLE_NOT_FOUND")
                     (lit "Cycle '" ++ id_ ++ lit "' not found") false), w)
  | Some record =>
      if cycle_edge (cyc_status record) cancelled then
        post_cancel id_ w
        = (Returned {| statusCode := 200; body := CycleStatusJson id_ cancelled |},
           set_stateFlags (<[id_ := cancelled]> (stateFlags w)) w)
        ∧ (cyc_status record = running ∨ cyc_status record = paused)
      else
        post_cancel id_ w
        = (Returned (errorResponse 500 (lit "CYCLE_CANCEL_FAILED")
                       (lit "Failed to cancel cycle: "
                        ++ transition_error_message
                             (InvalidCycleTransition (cyc_status record) cancelled))
                       true), w)
        ∧ (cyc_status record = completed ∨ cyc_status record = cancelled)
  end.
Proof.
  unfold post_cancel, try_catch, cycle_record. rewrite bind_run. unfold db.
  cbn beta iota.
  destruct (CycleRecord_t (database w) !! id_) as [record|] eqn:Hrec; [|done].
  rewrite bind_run. unfold cancelCycle. rewrite bind_run. unfold db.
  cbn beta iota. rewrite Hrec.
  destruct (cyc_status record); simpl; split; try done; auto.
Qed.

Lemma optimizePrompt_threw (testRunId agentId_ originalPrompt_ : jsstring)
  (failures passes : list CriterionResult) (w w' : World Σ) (e : thrown) :
  optimizePrompt testRunId agentId_ originalPrompt_ failures passes w = (Threw e, w') →
  database w' = database w.
Proof.
  unfold optimizePrompt. rewrite bind_run.
  pose proof (await_database (llm_optimizePrompt originalPrompt_ failures passes) w)
    as [Hd _].
  destruct (await _ w) as [[result|e'] w1]; simpl in Hd; [|by intros [= _ <-]].
  rewrite bind_run. unfold uuidv4 at 1. rewrite bind_run.
  unfold insert_OptimizationRecord. rewrite bind_run. unfold db.
  rewrite bind_run. unfold constrain.
  destruct (_ && _); simpl; [done|]. by intros [= _ <-].
Qed.

(** X21: the optimize route. A missing or empty parameter is answered with
    400, an unknown test run or agent with 404, a run without a failed
    criterion among its completed test cases with 400 [NO_FAILURES]; in all
    these cases the model client is not called and nothing changes. Otherwise
    the optimizer is called with the agent's current prompt: if it returns,
    the answer is 201 with the record, which has been stored with status
    [generated] and whose diff is empty exactly when the revision equals the
    original, and the agent's prompt is not changed; if it throws an [Error],
    the answer is 500 [OPTIMIZATION_FAILED], marked retryable, and the
    database is as before. *)
Theorem post_optimize_outcomes (testRunId agentId_ : option jsstring) (w : World Σ) :
  match testRunId, agentId_ with
  | Some t, Some a =>
      if bool_decide (t = []) || bool_decide (a = []) then
        post_optimize testRunId agentId_ w
        = (Returned (errorResponse 400 (lit "INVALID_INPUT")
                       (lit "testRunId and agentId are required") false), w)
      else
        match TestRun_t (database w) !! t, Agent_t (database w) !! a with
        | None, _ =>
            post_optimize testRunId agentId_ w
            = (Returned (errorResponse 404 (lit "TEST_RUN_NOT_FOUND")
                           (lit "Test run '" ++ t ++ lit "' not found") false), w)
        | Some _, None =>
            post_optimize testRunId agentId_ w
            = (Returned (errorResponse 404 (lit "AGENT_NOT_FOUND")
                           (lit "Agent '" ++ a ++ lit "' not found") false), w)
        | Some _, Some agent =>
            if decide ((getResultsForRun t (database w)).1 = []) then
              post_optimize testRunId agentId_ w
              = (Returned (errorResponse 400 (lit "NO_FAILURES")
                             (lit "No failed criteria to optimize against") false), w)
            else
              match optimizePrompt t a (currentPrompt agent)
                      (getResultsForRun t (database w)).1
                      (getResultsForRun t (database w)).2 w with
              | (Returned record, w') =>
                  post_optimize testRunId agentId_ w
                  = (Returned {| statusCode := 201;
                                 body := OptimizationJson record
                                           (diff_of (originalPrompt record)
                                              (revisedPrompt record)) |}, w')
                  ∧ originalPrompt record = currentPrompt agent
                  ∧ (diff_of (originalPrompt record) (revisedPrompt record) = []
                     ↔ revisedPrompt record = originalPrompt record)
                  ∧ (∃ row, OptimizationRecord_t (database w') !! sor_id record
                            = Some row
                            ∧ opt_status row = generated
                            ∧ opt_revisedPrompt row = revisedPrompt record)
                  ∧ Agent_t (database w') = Agent_t (database w)
              | (Threw e, w') =>
                  database w' = database w
                  ∧ ∀ message_, e = ErrorObject message_ →
                      post_optimize testRunId agentId_ w
                      = (Returned (errorResponse 500 (lit "OPTIMIZATION_FAILED")
                                     (lit "Optimization failed: " ++ message_) true),
                         w')
              end
        end
  | _, _ =>
      post_optimize testRunId agentId_ w
      = (Returned (errorResponse 400 (lit "INVALID_INPUT")
                     (lit "testRunId and agentId are required") false), w)
  end.
Proof.
  unfold post_optimize, try_catch.
  destruct testRunId as [t|], agentId_ as [a|]; try done.
  destruct (bool_decide (t = []) || bool_decide (a = [])); [done|].
  rewrite bind_run. unfold db. cbn beta iota.
  destruct (TestRun_t (database w) !! t) as [run|]; [|done].
  destruct (Agent_t (database w) !! a) as [agent|]; [|done].
  destruct (getResultsForRun t (database w)) as [failures passes]. simpl.
  case_decide as Hnone.
  { rewrite Hnone. done. }
  rewrite bool_decide_eq_false_2 by (by destruct failures).
  rewrite bind_run.
  destruct (optimizePrompt t a (currentPrompt agent) failures passes w)
    as [[record|e] w'] eqn:Hopt.
  - split; [done|].
    pose proof Hopt as Hfresh.
    apply optimizePrompt_fresh in Hfresh as (_ & Hrows & _ & Hagents & Horig & _).
    apply optimizePrompt_returned in Hopt as (_ & row & Hrow & Hst & Hrev).
    split; [done|]. split.
    { unfold diff_of.
      destruct (computeDiff_terminates (originalPrompt record) (revisedPrompt record))
        as [changes Hrun].
      rewrite Hrun. simpl. unfold computeDiff in Hrun.
      destruct (decide (originalPrompt record = revisedPrompt record)) as [Heq|Hne].
      - injection Hrun as <-. by split.
      - split; [|by intros Heq; destruct Hne].
        intros ->. exfalso.
        destruct (computeDiff_sides (diff_fuel (originalPrompt record)
                                       (revisedPrompt record))
                    (originalPrompt record) (revisedPrompt record) [] Hne)
          as [Hos Hrs].
        { unfold computeDiff. by rewrite decide_False. }
        by destruct (split_lines_nonempty (originalPrompt record)). }
    split; [by exists row|done].
  - split; [by eapply optimizePrompt_threw|]. by intros message_ ->.
Qed.

End route_properties.

(** ** Before/after comparison *)

Lemma firstMap_of_snoc (rs : list RunCriterion) (r : RunCriterion) :
  firstMap_of (rs ++ [r]) = <[rc_criterionId r := rc_passed r]> (firstMap_of rs).
Proof. unfold firstMap_of. by rewrite foldl_app. Qed.

Lemma firstMap_lookup (firstResults : list RunCriterion) (criterionId_ : jsstring) :
  firstMap_of firstResults !! criterionId_ = first_verdict firstResults criterionId_.
Proof.
  unfold first_verdict.
  induction firstResults as [|r rs IH] using rev_ind; [done|].
  rewrite firstMap_of_snoc, filter_app, filter_cons, filter_nil.
  destruct (decide (rc_criterionId r = criterionId_)) as [<-|Hne].
  - by rewrite lookup_insert_eq, last_snoc.
  - by rewrite lookup_insert_ne, app_nil_r.
Qed.

Lemma computeChanges_loop (firstMap : gmap jsstring bool) (lastResults : list RunCriterion) :
  ∀ improvements regressions,
  foldl (λ '(improvements, regressions) r,
           match firstMap !! rc_criterionId r with
           | None => (improvements, regressions)
           | Some prev =>
               if negb prev && rc_passed r then
                 (improvements ++ [improvement_of r], regressions)
               else if prev && negb (rc_passed r) then
                 (improvements, regressions ++ [regression_of r])
               else (improvements, regressions)
           end)
        (improvements, regressions) lastResults
  = (improvements
     ++ (improvement_of
         <$> filter (λ r, firstMap !! rc_criterionId r = Some false
                          ∧ rc_passed r = true) lastResults),
     regressions
     ++ (regression_of
         <$> filter (λ r, firstMap !! rc_criterionId r = Some true
                          ∧ rc_passed r = false) lastResults)).
Proof.
  induction lastResults as [|r rs IH]; intros improvements regressions; simpl.
  { by rewrite !app_nil_r. }
  rewrite !filter_cons.
  destruct (firstMap !! rc_criterionId r) as [[]|] eqn:Hprev;
    destruct (rc_passed r) eqn:Hpassed; simpl; rewrite IH;
    repeat case_decide; try naive_solver;
    by rewrite ?fmap_cons, <- ?app_assoc.
Qed.

(** With at least two runs, the two lists by a filter over the results of
    the last run. *)
Lemma computeChanges_eq (firstRun lastRun : jsstring) (between : list jsstring)
  (d : Database) :
  computeChanges (firstRun :: between ++ [lastRun]) d
  = (improvement_of
     <$> filter (λ r, first_verdict (getCriterionResultsForRun firstRun d)
                        (rc_criterionId r) = Some false
                      ∧ rc_passed r = true) (getCriterionResultsForRun lastRun d),
     regression_of
     <$> filter (λ r, first_verdict (getCriterionResultsForRun firstRun d)
                        (rc_criterionId r) = Some true
                      ∧ rc_passed r = false) (getCriterionResultsForRun lastRun d)).
Proof.
  unfold computeChanges.
  rewrite bool_decide_eq_false_2 by (simpl; rewrite length_app; simpl; lia).
  cbv zeta. rewrite computeChanges_loop. simpl.
  replace (length (between ++ [lastRun]) - 0)%nat with (S (length between))
    by (rewrite length_app; simpl; lia).
  simpl. rewrite lookup_app_r by lia. rewrite Nat.sub_diag. simpl.
  f_equal; f_equal; apply list_filter_iff; intros r; by rewrite firstMap_lookup.
Qed.

(** X22: [computeChanges] compares the first run with the last one only.
    With fewer than two runs it reports nothing. Otherwise the improvements
    are, in the order of the last run's results, exactly those results that
    passed while the first run's verdict on the same criterion (its last
    result for that criterion) was a failure, and the regressions exactly
    those that failed while the first run's verdict was a pass; a criterion
    the first run has no result for is never reported, and the runs in
    between play no part. *)
Theorem computeChanges_first_against_last (testRuns : list jsstring) (d : Database) :
  ((length testRuns < 2)%nat → computeChanges testRuns d = ([], []))
  ∧ ∀ firstRun between lastRun,
      testRuns = firstRun :: between ++ [lastRun] →
      let firstResults := getCriterionResultsForRun firstRun d in
      let lastResults := getCriterionResultsForRun lastRun d in
      computeChanges testRuns d
      = (improvement_of
         <$> filter (λ r, first_verdict firstResults (rc_criterionId r) = Some false
                          ∧ rc_passed r = true) lastResults,
         regression_of
         <$> filter (λ r, first_verdict firstResults (rc_criterionId r) = Some true
                          ∧ rc_passed r = false) lastResults).
Proof.
  split.
  { intros Hlt. unfold computeChanges. by rewrite bool_decide_eq_true_2. }
  intros firstRun between lastRun -> firstResults lastResults.
  apply computeChanges_eq.
Qed.

Lemma NoDup_fmap_inj {A B} (f : A → B) (l : list A) (x y : A) :
  NoDup (f <$> l) → x ∈ l → y ∈ l → f x = f y → x = y.
Proof.
  induction l as [|a l IH]; intros Hnd Hx Hy Heq.
  { by apply elem_of_nil in Hx. }
  rewrite fmap_cons in Hnd. apply NoDup_cons in Hnd as [Ha Hnd].
  apply elem_of_cons in Hx as [->|Hx]; apply elem_of_cons in Hy as [->|Hy].
  - done.
  - exfalso. apply Ha. rewrite Heq. by apply list_elem_of_fmap_2.
  - exfalso. apply Ha. rewrite <- Heq. by apply list_elem_of_fmap_2.
  - by apply IH.
Qed.

Lemma first_verdict_unique (results : list RunCriterion) (criterionId_ : jsstring)
  (b : bool) :
  NoDup (rc_criterionId <$> results) →
  first_verdict results criterionId_ = Some b
  ↔ ∃ r, r ∈ results ∧ rc_criterionId r = criterionId_ ∧ rc_passed r = b.
Proof.
  intros Hnd. unfold first_verdict. split.
  - destruct (last _) as [r|] eqn:Hlast; [|done]. intros [= <-].
    apply last_Some_elem_of, list_elem_of_filter in Hlast as [Hid Hr].
    by exists r.
  - intros (r & Hr & Hid & Hp).
    assert (Hin : r ∈ filter (λ r, rc_criterionId r = criterionId_) results).
    { by apply list_elem_of_filter. }
    destruct (last (filter (λ r, rc_criterionId r = criterionId_) results))
      as [r'|] eqn:Hlast.
    + apply last_Some_elem_of, list_elem_of_filter in Hlast as [Hid' Hr'].
      assert (r' = r) as -> by (eapply NoDup_fmap_inj; [done..|congruence]).
      simpl. by rewrite Hp.
    + apply last_None in Hlast. rewrite Hlast in Hin. by apply elem_of_nil in Hin.
Qed.

(** X23: when no criterion has two results within a run, the comparison is
    symmetric: the criteria reported as improvements from run [a] to run
    [b] are exactly those reported as regressions from [b] to [a], and the
    other way round. *)
Theorem computeChanges_swap (a b : jsstring) (d : Database) (criterionId_ : jsstring) :
  NoDup (rc_criterionId <$> getCriterionResultsForRun a d) →
  NoDup (rc_criterionId <$> getCriterionResultsForRun b d) →
  (criterionId_ ∈ cc_criterionId <$> (computeChanges [a; b] d).1
   ↔ criterionId_ ∈ cc_criterionId <$> (computeChanges [b; a] d).2)
  ∧ (criterionId_ ∈ cc_criterionId <$> (computeChanges [a; b] d).2
     ↔ criterionId_ ∈ cc_criterionId <$> (computeChanges [b; a] d).1).
Proof.
  intros Ha Hb.
  change (computeChanges [a; b] d) with (computeChanges (a :: [] ++ [b]) d).
  change (computeChanges [b; a] d) with (computeChanges (b :: [] ++ [a]) d).
  rewrite (computeChanges_eq a b [] d), (computeChanges_eq b a [] d).
  cbn [fst snd].
  rewrite !list_elem_of_fmap.
  assert (Hchange : ∀ (first last : jsstring) (p q : bool) (change : RunCriterion → CriterionChange),
            (∀ r, cc_criterionId (change r) = rc_criterionId r) →
            NoDup (rc_criterionId <$> getCriterionResultsForRun first d) →
            (∃ c, criterionId_ = cc_criterionId c
                  ∧ c ∈ change
                        <$> filter (λ r, first_verdict (getCriterionResultsForRun first d)
                                           (rc_criterionId r) = Some p
                                         ∧ rc_passed r = q)
                              (getCriterionResultsForRun last d))
            ↔ (∃ rf rl, rf ∈ getCriterionResultsForRun first d
                        ∧ rl ∈ getCriterionResultsForRun last d
                        ∧ rc_criterionId rf = criterionId_
                        ∧ rc_criterionId rl = criterionId_
                        ∧ rc_passed rf = p ∧ rc_passed rl = q)).
  { intros first last p q change Hid Hnd. split.
    - intros (c & -> & Hc). apply list_elem_of_fmap in Hc as (rl & -> & Hrl).
      apply list_elem_of_filter in Hrl as [[Hv Hq] Hrl].
      apply first_verdict_unique in Hv as (rf & Hrf & Hidf & Hp); [|done].
      exists rf, rl. rewrite Hid. by repeat split.
    - intros (rf & rl & Hrf & Hrl & Hidf & Hidl & Hp & Hq).
      exists (change rl). rewrite Hid. split; [done|].
      apply list_elem_of_fmap_2, list_elem_of_filter. split; [|done].
      split; [|done]. apply first_verdict_unique; [done|].
      exists rf. split; [done|]. by rewrite Hidl. }
  rewrite (Hchange a b false true improvement_of) by done.
  rewrite (Hchange b a true false regression_of) by done.
  rewrite (Hchange a b true false regression_of) by done.
  rewrite (Hchange b a false true improvement_of) by done.
  split; split; intros (r1 & r2 & ? & ? & ? & ? & ? & ?); exists r2, r1; by repeat split.
Qed.

Lemma computeChanges_swap_witness :
  let d := comparison_database in
  cc_criterionId <$> (computeChanges [lit "run-a"; lit "run-b"] d).1 = [lit "sc-1-1"]
  ∧ (lit "sc-1-1" ∈ cc_criterionId <$> (computeChanges [lit "run-a"; lit "run-b"] d).1
     ↔ lit "sc-1-1" ∈ cc_criterionId <$> (computeChanges [lit "run-b"; lit "run-a"] d).2)
  ∧ (lit "sc-1-1" ∈ cc_criterionId <$> (computeChanges [lit "run-a"; lit "run-b"] d).2
     ↔ lit "sc-1-1" ∈ cc_criterionId <$> (computeChanges [lit "run-b"; lit "run-a"] d).1).
Proof.
  split; [vm_compute; reflexivity|].
  apply (computeChanges_swap (lit "run-a") (lit "run-b") comparison_database
           (lit "sc-1-1")).
  - apply (bool_decide_unpack _). by vm_compute.
  - apply (bool_decide_unpack _). by vm_compute.
Defined.

Lemma computeChanges_first_against_last_witness :
  computeChanges [lit "run-a"; lit "run-x"; lit "run-b"] comparison_database
  = ([ {| cc_criterionId := lit "sc-1-1"; cc_description := lit "Greets the caller";
          previousPassed := false; currentPassed := true |} ],
     [ {| cc_criterionId := lit "sc-1-2"; cc_description := lit "Asks for the name";
          previousPassed := true; currentPassed := false |} ]).
Proof.
  destruct (computeChanges_first_against_last
              [lit "run-a"; lit "run-x"; lit "run-b"] comparison_database) as [_ Hchanges].
  rewrite (Hchanges (lit "run-a") [lit "run-x"] (lit "run-b") eq_refl).
  vm_compute. reflexivity.
Defined.

(** ** Reading an optimization back; the executor's own agent *)

Section read_back.
Context {Σ : Type} `{!LLMService Σ} `{!AgentApi Σ}.

(** X24: an optimization record read back with [getOptimizationRecord]
    right after [optimizePrompt] returned it is the returned record, except
    that its [targetedFailures] are empty: the failures the client said it
    targeted are returned to the caller once and not stored. So the two
    agree exactly when the client named no targeted failure. *)
Theorem getOptimizationRecord_after_optimizePrompt
  (testRunId agentId_ originalPrompt_ : jsstring)
  (failures passes : list CriterionResult) (w w' : World Σ)
  (record : StoredOptimizationRecord) :
  optimizePrompt testRunId agentId_ originalPrompt_ failures passes w
  = (Returned record, w') →
  getOptimizationRecord (sor_id record) (database w) = None
  ∧ getOptimizationRecord (sor_id record) (database w')
    = Some {| sor_id := sor_id record; sor_testRunId := sor_testRunId record;
              sor_agentId := sor_agentId record;
              originalPrompt := originalPrompt record;
              revisedPrompt := revisedPrompt record; changes := changes record;
              targetedFailures := []; sor_status := sor_status record |}
  ∧ (getOptimizationRecord (sor_id record) (database w') = Some record
     ↔ targetedFailures record = []).
Proof.
  intros Hopt. pose proof Hopt as Hfresh.
  apply optimizePrompt_fresh in Hfresh as (Hnone & Hrows & _ & _ & Horig & Hrun & Hst).
  assert (Hagent : sor_agentId record = agentId_).
  { unfold optimizePrompt in Hopt.
    apply bind_returned in Hopt as (result & w1 & _ & Hopt).
    apply bind_returned in Hopt as (i & w2 & _ & Hopt).
    apply bind_returned in Hopt as (u & w3 & _ & [= <- _]). done. }
  unfold getOptimizationRecord. rewrite Hnone, Hrows, lookup_insert_eq. simpl.
  unfold mapRow. simpl. rewrite Horig, Hrun, Hst, Hagent.
  split; [done|]. split; [done|]. split.
  - intros [= Heq]. destruct record. simpl in *. by inversion Heq.
  - intros Hnil. destruct record. simpl in *. by subst.
Qed.

End read_back.

Section shipped_agent.
Context `{!LLMService unit}.
#[local] Existing Instance MockAgentApi.

Lemma await_shipped (input : UserInput) (agentPrompt : jsstring) (w : World unit) :
  ∃ w1, await (simulateAgentResponse (ui_utterance input) agentPrompt (ui_turn input)) w
        = (Returned (mock_response input), w1).
Proof. eexists. reflexivity. Qed.

Lemma mock_responses (agentPrompt : jsstring) (inputs : list UserInput) :
  ∀ (acc : list AgentResponse) (w : World unit),
  ∃ w',
    foldM (λ agentResponses_ input,
             response ← await (simulateAgentResponse (ui_utterance input)
                                 agentPrompt (ui_turn input));
             mret (agentResponses_ ++ [response]))
          acc inputs w
    = (Returned (acc ++ (mock_response <$> inputs)), w').
Proof.
  induction inputs as [|input inputs IH]; intros acc w.
  { exists w. rewrite fmap_nil, app_nil_r. reflexivity. }
  cbn [foldM]. rewrite !bind_run.
  destruct (await_shipped input agentPrompt w) as (w1 & ->).
  destruct (IH (acc ++ [mock_response input]) w1) as (w' & Hrun).
  exists w'. rewrite <- app_assoc in Hrun. exact Hrun.
Qed.

(** X25: with the agent the executor ships ([simulateAgentResponse], which
    answers every utterance from a template), [executeTestCase] always
    returns a [completed] result: one response per user input, carrying the
    turn of the input and the templated text, no error message and never
    status [error]. The responses do not depend on the agent's prompt: two
    prompts give the same result for the same test case. *)
Theorem executeTestCase_with_shipped_agent (testCase : TestCase)
  (agentPrompt otherPrompt : jsstring) (w : World unit) :
  (executeTestCase testCase agentPrompt w).1
  = Returned {| testCaseId := tc_id testCase;
                agentResponses := mock_response <$> userInputSequence testCase;
                criterionResults := []; status := case_completed;
                errorMessage := None |}
  ∧ (executeTestCase testCase otherPrompt w).1
    = (executeTestCase testCase agentPrompt w).1.
Proof.
  assert (Hrun : ∀ prompt,
    (executeTestCase testCase prompt w).1
    = Returned {| testCaseId := tc_id testCase;
                  agentResponses := mock_response <$> userInputSequence testCase;
                  criterionResults := []; status := case_completed;
                  errorMessage := None |}).
  { intros prompt. unfold executeTestCase, try_catch. rewrite bind_run.
    destruct (mock_responses prompt (userInputSequence testCase) [] w) as (w' & ->).
    done. }
  split; [apply Hrun|]. by rewrite !Hrun.
Qed.

End shipped_agent.

Lemma getOptimizationRecord_after_optimizePrompt_witness :
  ∃ record w',
    @optimizePrompt unit (FailingLLM None) (lit "run-1") (lit "agent-1") (lit "Be nice")
      [sample_failure] [] (world_after_run ())
    = (Returned record, w')
    ∧ getOptimizationRecord (sor_id record) (database w') = Some record.
Proof.
  destruct (@optimizePrompt unit (FailingLLM None) (lit "run-1") (lit "agent-1")
              (lit "Be nice") [sample_failure] [] (world_after_run ()))
    as [[record|e] w'] eqn:Hopt; [|vm_compute in Hopt; discriminate].
  destruct (@getOptimizationRecord_after_optimizePrompt unit (FailingLLM None)
              (lit "run-1") (lit "agent-1") (lit "Be nice") [sample_failure] []
              (world_after_run ()) w' record Hopt) as (_ & _ & Hsame).
  exists record, w'. split; [reflexivity|]. apply Hsame.
  vm_compute in Hopt. injection Hopt as <- _. reflexivity.
Defined.

(** ** Starting a cycle over HTTP *)

Section cycle_routes.
Context {Σ : Type} `{!LLMService Σ} `{!AgentApi Σ}.
#[local] Existing Instance same_runs_preorder.

Lemma startCycle_returns_id (fuel : nat) (config : CycleConfig) (w : World Σ)
  (a : Agent) :
  Agent_t (database w) !! agentId config = Some a →
  CycleRecord_t (database w) !! uuid_of (uuids w) = None →
  (Z.to_nat (maxCycles config) ≤ fuel)%nat →
  ∃ w' record,
    startCycle fuel config w = Some (Returned (uuid_of (uuids w)), w')
    ∧ cycle_record (uuid_of (uuids w)) w' = Some record
    ∧ cyc_agentId record = agentId config
    ∧ cyc_targetThreshold record = targetThreshold config
    ∧ cyc_maxCycles record = maxCycles config.
Proof.
  intros Ha Hfresh Hfuel. unfold startCycle.
  unfold mbind at 1, M_bind at 1, uuidv4 at 1.
  unfold insert_CycleRecord, mbind, M_bind, db, constrain. simpl.
  rewrite Hfresh, Ha. rewrite !bool_decide_eq_true_2 by done. simpl.
  unfold write_db, set_flag, modify_state. simpl.
  set (record0 := {| cyc_agentId := agentId config; cycleCount := 0;
                     startingPassRate := Finite 0; endingPassRate := Finite 0;
                     cyc_targetThreshold := targetThreshold config;
                     cyc_maxCycles := maxCycles config; cyc_status := running;
                     testRunIds := []; optimizationIds := [] |}).
  set (w0 := set_stateFlags _ _).
  assert (Hrec0 : cycle_record (uuid_of (uuids w)) w0 = Some record0).
  { unfold cycle_record. simpl. by rewrite lookup_insert_eq. }
  unfold runCycleLoop.
  destruct (cycle_loop_terminates (uuid_of (uuids w)) config fuel
              {| ls_cycleCount := 0; ls_currentPassRate := Finite 0;
                 ls_testRunIds := []; ls_optimizationIds := [] |} w0)
    as (res & w1 & Hloop).
  { simpl. by rewrite Z.sub_0_r. }
  rewrite Hloop. destruct res as [[]|e].
  - apply cycle_loop_record in Hloop
      as (st_end & s & shown & w2 & -> & Hrec2 & _ & Hs & _);
      [|apply loop_invariant_initial].
    eexists _, _. split; [done|]. split.
    { rewrite cycle_record_finishing. unfold cycle_record in *.
      by rewrite Hrec2, Hrec0. }
    done.
  - apply cycle_loop_threw in Hloop as (Hrec & evs & Hem & Hnone).
    eexists _, record0. split; [done|]. split; [|done].
    unfold cycle_record in *. destruct e; simpl; by rewrite Hrec.
Qed.

(** X26: the route that starts a cycle. Without an agent id or a suite id
    (absent or empty) it answers 400; for an unknown agent, and then for an
    unknown suite, 404; none of these writes anything. Otherwise, when the
    next identifier is free and the loop is given the time for its cap, it
    answers 201 with the identifier of a new cycle record and status
    [running], and never 500. The record holds the threshold and the cap of
    the request, or 0.9 and 5 where the request gave none; a cap of 0 is a
    cap, not a missing value. *)
Theorem post_cycles_outcomes (fuel : nat) (agentId_ testSuiteId_ : option jsstring)
  (targetThreshold_ : option number) (maxCycles_ : option Z) (w : World Σ) :
  let invalid := errorResponse 400 (lit "INVALID_INPUT")
                   (lit "agentId and testSuiteId are required") false in
  match agentId_, testSuiteId_ with
  | Some a, Some s =>
      if decide (a = [] ∨ s = []) then
        post_cycles fuel agentId_ testSuiteId_ targetThreshold_ maxCycles_ w
        = Some (Returned invalid, w)
      else if decide (Agent_t (database w) !! a = None) then
        post_cycles fuel agentId_ testSuiteId_ targetThreshold_ maxCycles_ w
        = Some (Returned (errorResponse 404 (lit "AGENT_NOT_FOUND")
                            (lit "Agent '" ++ a ++ lit "' not found") false), w)
      else if decide (s ∈ TestSuite_t (database w)) then
        cycle_record (uuid_of (uuids w)) w = None →
        (Z.to_nat (default 5%Z maxCycles_) ≤ fuel)%nat →
        ∃ w' record,
          post_cycles fuel agentId_ testSuiteId_ targetThreshold_ maxCycles_ w
          = Some (Returned {| statusCode := 201;
                              body := CycleStatusJson (uuid_of (uuids w)) running |}, w')
          ∧ cycle_record (uuid_of (uuids w)) w' = Some record
          ∧ cyc_agentId record = a
          ∧ cyc_targetThreshold record = default (Finite (9 # 10)) targetThreshold_
          ∧ cyc_maxCycles record = default 5 maxCycles_
      else
        post_cycles fuel agentId_ testSuiteId_ targetThreshold_ maxCycles_ w
        = Some (Returned (errorResponse 404 (lit "TEST_SUITE_NOT_FOUND")
                            (lit "Test suite '" ++ s ++ lit "' not found") false), w)
  | _, _ =>
      post_cycles fuel agentId_ testSuiteId_ targetThreshold_ maxCycles_ w
      = Some (Returned invalid, w)
  end.
Proof.
  intros invalid. destruct agentId_ as [a|], testSuiteId_ as [s|]; try done.
  unfold post_cycles.
  destruct (decide (a = [] ∨ s = [])) as [Hempty|Hfull].
  { destruct Hempty as [-> | ->]; [done|].
    by rewrite (bool_decide_eq_true_2 ([] = [])), orb_true_r. }
  rewrite !bool_decide_eq_false_2 by tauto. cbn [orb].
  destruct (decide (Agent_t (database w) !! a = None)) as [Hnone|Hsome].
  { by rewrite Hnone. }
  destruct (Agent_t (database w) !! a) as [agent|] eqn:Hagent; [|done].
  destruct (decide (s ∈ TestSuite_t (database w))) as [Hin|Hout].
  2: { by rewrite bool_decide_eq_false_2. }
  rewrite bool_decide_eq_true_2 by done.
  intros Hfresh Hfuel.
  destruct (startCycle_returns_id fuel
              {| agentId := a; testSuiteId := s;
                 targetThreshold := default (Finite (9 # 10)) targetThreshold_;
                 maxCycles := default 5 maxCycles_ |} w agent Hagent Hfresh Hfuel)
    as (w' & record & -> & Hrec & ? & ? & ?).
  by exists w', record.
Qed.

End cycle_routes.

(** A request that names the agent and the suite only: the cycle is started
    with the default threshold and cap. *)
Lemma post_cycles_outcomes_witness :
  ∃ w' record,
    @post_cycles unit (FailingLLM None) MockAgentApi 5
      (Some (lit "agent-1")) (Some (lit "suite-1")) None None (sample_world () [])
    = Some (Returned {| statusCode := 201;
                        body := CycleStatusJson (uuid_of 0) running |}, w')
    ∧ cycle_record (uuid_of 0) w' = Some record
    ∧ cyc_targetThreshold record = Finite (9 # 10)
    ∧ cyc_maxCycles record = 5.
Proof.
  pose proof (@post_cycles_outcomes unit (FailingLLM None) MockAgentApi 5
                (Some (lit "agent-1")) (Some (lit "suite-1")) None None
                (sample_world () [])) as Hroute.
  cbv beta iota zeta in Hroute.
  destruct (decide (lit "agent-1" = [] ∨ lit "suite-1" = [])) as [[Hempty|Hempty]|_];
    [discriminate Hempty..|].
  destruct (decide (Agent_t (database (sample_world () [])) !! lit "agent-1" = None))
    as [Hnone|_]; [vm_compute in Hnone; discriminate Hnone|].
  destruct (decide (lit "suite-1" ∈ TestSuite_t (database (sample_world () []))))
    as [_|Hout]; [|exfalso; apply Hout; apply list_elem_of_singleton; reflexivity].
  destruct Hroute as (w' & record & Hpost & Hrec & _ & Hthreshold & Hcap);
    [reflexivity|simpl; lia|].
  exists w', record. split; [exact Hpost|]. split; [exact Hrec|].
  split; [exact Hthreshold|exact Hcap].
Defined.

(** ** Reading the results of a run *)

Lemma split_rows (rows : list CriterionResultRow) :
  ∀ failures passes : list CriterionResult,
  foldl (λ '(failures, passes) r,
           let result := {| criterionId := crr_criterionId r;
                            passed := crr_passed r;
                            explanation := Some (crr_explanation r) |} in
           if passed result then (failures, passes ++ [result])
           else (failures ++ [result], passes))
        (failures, passes) rows
  = (failures ++ (row_result <$> filter (λ r, crr_passed r = false) rows),
     passes ++ (row_result <$> filter (λ r, crr_passed r = true) rows)).
Proof.
  induction rows as [|r rows IH]; intros failures passes.
  { by rewrite !filter_nil, !fmap_nil, !app_nil_r. }
  cbn [foldl]. rewrite !filter_cons. cbn [passed].
  destruct (crr_passed r) eqn:Hp.
  - rewrite IH. rewrite decide_False, decide_True by done.
    rewrite fmap_cons, <- app_assoc. by replace (row_result r) with
      {| criterionId := crr_criterionId r; passed := true;
         explanation := Some (crr_explanation r) |}
      by (unfold row_result; by rewrite Hp).
  - rewrite IH. rewrite decide_True, decide_False by done.
    rewrite fmap_cons, <- app_assoc. by replace (row_result r) with
      {| criterionId := crr_criterionId r; passed := false;
         explanation := Some (crr_explanation r) |}
      by (unfold row_result; by rewrite Hp).
Qed.

(** X27: [getResultsForRun] splits the stored verdicts of a run. A
    criterion result is among the failures exactly when it is built from a
    criterion row that did not pass and belongs to a [completed] result of
    this run, and among the passes exactly when that row passed; so every
    failure has [passed] false, every pass has it true, both carry their
    explanation, and rows of other runs or of results with status [error]
    appear in neither. *)
Theorem getResultsForRun_splits_completed (testRunId : jsstring) (d : Database)
  (cr : CriterionResult) :
  (cr ∈ (getResultsForRun testRunId d).1
   ↔ ∃ r, selected_for testRunId d r ∧ crr_passed r = false ∧ cr = row_result r)
  ∧ (cr ∈ (getResultsForRun testRunId d).2
     ↔ ∃ r, selected_for testRunId d r ∧ crr_passed r = true ∧ cr = row_result r)
  ∧ (cr ∈ (getResultsForRun testRunId d).1 → passed cr = false)
  ∧ (cr ∈ (getResultsForRun testRunId d).2 → passed cr = true)
  ∧ (cr ∈ (getResultsForRun testRunId d).1 ++ (getResultsForRun testRunId d).2 →
     explanation cr ≠ None).
Proof.
  unfold getResultsForRun. rewrite split_rows. cbn [fst snd app].
  set (rows := _ ≫= _).
  assert (Hsel : ∀ r, r ∈ rows ↔ selected_for testRunId d r).
  { intros r. unfold rows, selected_for. rewrite list_elem_of_bind. split.
    - intros (r' & Hin & Hr'). apply list_elem_of_bind in Hin as (tcr & Hin & Htcr).
      apply list_elem_of_singleton in Hin as ->.
      apply list_elem_of_filter in Htcr as [(? & ? & ?) ?].
      split; [done|]. by exists tcr.
    - intros (Hr & tcr & Htcr & ? & ? & ?). exists r. split; [|done].
      apply list_elem_of_bind. exists tcr. split; [by apply list_elem_of_singleton|].
      by apply list_elem_of_filter. }
  assert (Hfail : cr ∈ row_result <$> filter (λ r, crr_passed r = false) rows
                  ↔ ∃ r, selected_for testRunId d r ∧ crr_passed r = false
                         ∧ cr = row_result r).
  { rewrite list_elem_of_fmap. split.
    - intros (r & -> & Hin). apply list_elem_of_filter in Hin as [? Hin].
      exists r. by rewrite <- Hsel.
    - intros (r & Hin & ? & ->). exists r. split; [done|].
      apply list_elem_of_filter. by rewrite Hsel. }
  assert (Hpass : cr ∈ row_result <$> filter (λ r, crr_passed r = true) rows
                  ↔ ∃ r, selected_for testRunId d r ∧ crr_passed r = true
                         ∧ cr = row_result r).
  { rewrite list_elem_of_fmap. split.
    - intros (r & -> & Hin). apply list_elem_of_filter in Hin as [? Hin].
      exists r. by rewrite <- Hsel.
    - intros (r & Hin & ? & ->). exists r. split; [done|].
      apply list_elem_of_filter. by rewrite Hsel. }
  split; [exact Hfail|]. split; [exact Hpass|]. split; [|split].
  - rewrite Hfail. by intros (r & _ & ? & ->).
  - rewrite Hpass. by intros (r & _ & ? & ->).
  - rewrite elem_of_app, Hfail, Hpass. by intros [(r & _ & _ & ->)|(r & _ & _ & ->)].
Qed.

(** ** Event listeners *)

Section listeners.
Context {L : Type} `{EqDecision L}.

Lemma calls_to_count (cycleId : jsstring) (listener : L) (ls : gmap jsstring (list L)) :
  calls_to cycleId listener ls
  = length (filter (λ l, l = listener) (default [] (ls !! cycleId))).
Proof.
  unfold calls_to, emit_calls.
  induction (default [] (ls !! cycleId)) as [|l rest IH]; [done|].
  rewrite fmap_cons, !filter_cons. simpl.
  destruct (decide (l = listener)); simpl; by rewrite IH.
Qed.

Lemma calls_to_register (cycleId : jsstring) (listener : L) (ls : gmap jsstring (list L))
  (r : Registration) :
  calls_to cycleId listener (register ls r)
  = if decide (r = Added cycleId listener) then S (calls_to cycleId listener ls)
    else if decide (r = Removed cycleId listener) then 0%nat
    else calls_to cycleId listener ls.
Proof.
  rewrite !calls_to_count.
  destruct r as [c l|c l]; cbn [register]; unfold addEventListener, removeEventListener;
    cbn zeta.
  - destruct (decide (c = cycleId)) as [->|Hc].
    + rewrite lookup_insert_eq.
      match goal with |- context [default [] (Some ?x)] =>
        change (default [] (Some x)) with x end. rewrite filter_app, length_app.
      rewrite filter_cons, filter_nil.
      destruct (decide (l = listener)) as [->|Hl].
      * rewrite decide_True by done. simpl. lia.
      * rewrite decide_False by congruence. simpl. lia.
    + rewrite lookup_insert_ne by done. by rewrite decide_False by congruence.
  - rewrite (decide_False (P := Removed c l = Added cycleId listener)) by done.
    destruct (decide (c = cycleId)) as [->|Hc].
    + rewrite lookup_insert_eq.
      match goal with |- context [default [] (Some ?x)] =>
        change (default [] (Some x)) with x end.
      destruct (decide (l = listener)) as [->|Hl].
      * rewrite decide_True by done.
        induction (default [] (ls !! cycleId)) as [|x rest IH]; [done|].
        rewrite filter_cons. destruct (decide (x ≠ listener)) as [Hx|Hx].
        -- rewrite filter_cons, decide_False by done. exact IH.
        -- exact IH.
      * rewrite decide_False by congruence.
        induction (default [] (ls !! cycleId)) as [|x rest IH]; [done|].
        rewrite !filter_cons. destruct (decide (x ≠ l)) as [Hx|Hx].
        -- rewrite filter_cons. destruct (decide (x = listener)); simpl; by rewrite IH.
        -- apply dec_stable in Hx as ->. by rewrite decide_False by done.
    + rewrite lookup_insert_ne by done. by rewrite decide_False by congruence.
Qed.

(** X28: how often a listener is called. After any history of
    [addEventListener] and [removeEventListener] calls, [emit] calls a
    listener for an event of a cycle once for every time it was added for
    that cycle since it was last removed for it: a listener added twice is
    called twice for each event, and a single removal takes out all of its
    registrations. Registrations of other listeners or for other cycles do
    not change the count. *)
Theorem listener_called_once_per_registration (cycleId : jsstring) (listener : L)
  (before after : list Registration) (ls : gmap jsstring (list L)) :
  Removed cycleId listener ∉ after →
  calls_to cycleId listener
    (foldl register ls (before ++ Removed cycleId listener :: after))
  = length (filter (λ r, r = Added cycleId listener) after)
  ∧ calls_to cycleId listener (foldl register ls after)
    = (calls_to cycleId listener ls
       + length (filter (λ r, r = Added cycleId listener) after))%nat.
Proof.
  intros Hafter.
  assert (Hcount : ∀ ls0,
    calls_to cycleId listener (foldl register ls0 after)
    = (calls_to cycleId listener ls0
       + length (filter (λ r, r = Added cycleId listener) after))%nat).
  { clear before ls. induction after as [|r after IH]; intros ls0.
    { simpl. lia. }
    apply not_elem_of_cons in Hafter as [Hr Hafter].
    cbn [foldl]. rewrite (IH Hafter), calls_to_register, filter_cons.
    destruct (decide (r = Added cycleId listener)); simpl; [lia|].
    by rewrite decide_False by done. }
  split; [|apply Hcount].
  rewrite foldl_app. cbn [foldl]. rewrite Hcount, calls_to_register.
  rewrite decide_False by done. by rewrite decide_True by done.
Qed.

End listeners.

(** A listener added twice and removed once is not called any more; added
    again, it is called once. *)
Lemma listener_called_once_per_registration_witness :
  calls_to (lit "cycle-1") 7%nat
    (foldl register (∅ : gmap jsstring (list nat))
       ([Added (lit "cycle-1") 7%nat; Added (lit "cycle-1") 7%nat]
        ++ Removed (lit "cycle-1") 7%nat
           :: [Added (lit "cycle-1") 8%nat; Added (lit "cycle-1") 7%nat]))
  = 1%nat.
Proof.
  refine (proj1 (listener_called_once_per_registration (lit "cycle-1") 7%nat
                   [Added (lit "cycle-1") 7%nat; Added (lit "cycle-1") 7%nat]
                   [Added (lit "cycle-1") 8%nat; Added (lit "cycle-1") 7%nat] ∅ _)).
  apply (bool_decide_unpack _). by vm_compute.
Defined.

(** ** Validating generated test cases *)

Lemma blank_has_text (field : option jsstring) :
  blank_explanation field = false ↔ has_text field.
Proof.
  unfold has_text. destruct field as [s|]; simpl.
  - rewrite orb_false_iff, !bool_decide_eq_false, trim_empty. split.
    + intros [_ Hws]. by exists s.
    + intros (s' & [= <-] & Hws). split; [|done].
      intros ->. apply Hws. constructor.
  - split; [done|]. by intros (s & ? & _).
Qed.

Lemma includes_spec (array : list jsstring) (field : option jsstring) :
  includes array field = true ↔ ∃ s, field = Some s ∧ s ∈ array.
Proof.
  destruct field as [s|]; simpl.
  - rewrite bool_decide_eq_true. split; [by exists s|]. by intros (s' & [= <-] & ?).
  - split; [done|]. by intros (s & ? & _).
Qed.

Lemma for_of_ok {A} (body : A → thrown + unit) (l : list A) :
  for_of body l = inr () ↔ Forall (λ x, body x = inr ()) l.
Proof.
  induction l as [|x l IH]; simpl.
  { split; [constructor|done]. }
  rewrite Forall_cons. destruct (body x) as [e|[]].
  - split; [done|]. by intros [? _].
  - rewrite IH. tauto.
Qed.

Lemma some_spec {A} (p : A → bool) (l : list A) :
  some p l = true ↔ ∃ x, x ∈ l ∧ p x = true.
Proof.
  unfold some. induction l as [|x l IH]; simpl.
  { split; [done|]. intros (x & Hin & _). by apply elem_of_nil in Hin. }
  rewrite orb_true_iff, IH. split.
  - intros [Hx|(y & Hin & Hy)].
    + exists x. split; [left|done].
    + exists y. split; [by right|done].
  - intros (y & Hin & Hy). apply elem_of_cons in Hin as [->|Hin]; [by left|].
    right. by exists y.
Qed.

Lemma validate_criterion_ok (sc : GeneratedCriterion) :
  validate_criterion sc = inr () ↔ valid_criterion sc.
Proof.
  unfold validate_criterion, valid_criterion.
  rewrite <- includes_spec, <- blank_has_text.
  destruct (includes VALID_CATEGORIES (gen_category sc)); simpl.
  - destruct (blank_explanation (gen_evaluationPrompt sc)).
    + split; [done|]. by intros [_ ?].
    + done.
  - split; [done|]. by intros [? _].
Qed.

Lemma validate_test_case_ok (tc : GeneratedTestCase) :
  validate_test_case tc = inr () ↔ valid_test_case tc.
Proof.
  unfold validate_test_case, valid_test_case.
  rewrite <- includes_spec, <- blank_has_text.
  destruct (blank_explanation (gen_scenarioDescription tc)).
  { split; [done|]. by intros [? _]. }
  destruct (includes VALID_SCENARIO_TYPES (gen_scenarioType tc)); simpl.
  2: { split; [done|]. by intros (_ & ? & _). }
  destruct (gen_userInputSequence tc) as [[|input inputs]|].
  1, 3: split; [done|]; by intros (_ & _ & (? & [= <-] & ?) & _).
  destruct (gen_successCriteria tc) as [[|sc criteria]|].
  1, 3: split; [done|]; by intros (_ & _ & _ & (? & [= <-] & ? & _)).
  rewrite for_of_ok. split.
  - intros Hall. split; [done|]. split; [done|]. split; [by eexists|].
    eexists. split; [done|]. split; [done|].
    eapply Forall_impl; [exact Hall|]. intros x. apply validate_criterion_ok.
  - intros (_ & _ & _ & (? & [= <-] & _ & Hall)).
    eapply Forall_impl; [exact Hall|]. intros x. apply validate_criterion_ok.
Qed.

(** X29: [validateAndNormalize] accepts exactly the well-formed suites and
    hands them back untouched. It returns when, and only when, it was given
    an array of at least five test cases, among them a happy-path and an
    adversarial one, in which every case has a description that is not
    blank, one of the two scenario types, at least one user input and at
    least one criterion, and every criterion has one of the three categories
    and an evaluation prompt that is not blank; what it returns is its
    argument. In every other case it throws an [Error] with a message; for
    fewer than five cases, or something that is not an array, the message
    names the number of cases it got, 0 for what is not an array. *)
Theorem validateAndNormalize_accepts_valid_suites
  (testCases : option (list GeneratedTestCase)) :
  (∀ out,
     validateAndNormalize testCases = inr out
     ↔ testCases = Some out ∧ (5 ≤ length out)%nat
       ∧ (∃ tc, tc ∈ out ∧ gen_scenarioType tc = Some (lit "happy-path"))
       ∧ (∃ tc, tc ∈ out ∧ gen_scenarioType tc = Some (lit "adversarial"))
       ∧ Forall valid_test_case out)
  ∧ (∀ e, validateAndNormalize testCases = inl e → ∃ message, e = ErrorObject message)
  ∧ ((default 0%nat (length <$> testCases) < 5)%nat →
     validateAndNormalize testCases
     = inl (ErrorObject (lit "Test generation must produce at least 5 test cases, got "
                         ++ decimal (default 0%nat (length <$> testCases))))).
Proof.
  assert (Herr : ∀ tcs e, for_of validate_test_case tcs = inl e →
                          ∃ message, e = ErrorObject message).
  { induction tcs as [|tc tcs IH]; intros e; simpl; [done|].
    destruct (validate_test_case tc) as [e'|[]] eqn:Htc; [|apply IH].
    intros [= <-]. unfold validate_test_case in Htc.
    repeat (case_match; try done); try (injection Htc as <-; by eexists).
    all: match goal with H : for_of validate_criterion ?l = _ |- _ =>
           clear -H; revert H; generalize l end.
    all: intros l; induction l as [|sc l IHl]; simpl; [done|].
    all: destruct (validate_criterion sc) as [e0|[]] eqn:Hsc; [|apply IHl].
    all: intros [= <-]; unfold validate_criterion in Hsc.
    all: repeat (case_match; try done); injection Hsc as <-; by eexists. }
  destruct testCases as [tcs|].
  2: { split; [|split]; [by split; [|intros [? _]]|intros e [= <-]; by eexists|].
       intros _. vm_compute. reflexivity. }
  unfold validateAndNormalize, MIN_TEST_CASES.
  change (default 0%nat (length <$> Some tcs)) with (length tcs).
  destruct (decide (length tcs < 5)%nat) as [Hfew|Henough].
  { rewrite bool_decide_eq_true_2 by done.
    split; [|split]; [|intros e [= <-]; by eexists|].
    - intros out. split; [done|]. intros ([= <-] & ? & _). lia.
    - intros _. rewrite !app_assoc. by do 3 f_equal. }
  rewrite bool_decide_eq_false_2 by done. cbn zeta.
  set (happy := some _ tcs). set (adversarial := some _ tcs).
  assert (Hhappy : happy = true
                   ↔ ∃ tc, tc ∈ tcs ∧ gen_scenarioType tc = Some (lit "happy-path")).
  { unfold happy. rewrite some_spec. by setoid_rewrite bool_decide_eq_true. }
  assert (Hadv : adversarial = true
                 ↔ ∃ tc, tc ∈ tcs ∧ gen_scenarioType tc = Some (lit "adversarial")).
  { unfold adversarial. rewrite some_spec. by setoid_rewrite bool_decide_eq_true. }
  split; [|split]; [|..|lia].
  - intros out. split.
    + intros Hret.
      destruct happy, adversarial; cbn [negb orb] in Hret; try done.
      destruct (for_of validate_test_case tcs) as [e|[]] eqn:Hall; [done|].
      injection Hret as <-. apply for_of_ok in Hall.
      split; [done|]. split; [lia|]. split; [by apply Hhappy|].
      split; [by apply Hadv|].
      eapply Forall_impl; [exact Hall|]. intros x. apply validate_test_case_ok.
    + intros ([= <-] & _ & Hh & Ha & Hvalid).
      apply Hhappy in Hh. apply Hadv in Ha. rewrite Hh, Ha. cbn [negb orb].
      assert (for_of validate_test_case tcs = inr ()) as ->; [|done].
      apply for_of_ok. eapply Forall_impl; [exact Hvalid|].
      intros x. apply validate_test_case_ok.
  - intros e. destruct happy, adversarial; cbn [negb orb];
      try (intros [= <-]; by eexists).
    destruct (for_of validate_test_case tcs) as [e'|[]] eqn:Hall; [|done].
    intros [= <-]. by eapply Herr.
Qed.

(** The sample suite is handed back as it is; four of its five cases are
    refused, and the message gives their number. *)
Lemma validateAndNormalize_accepts_valid_suites_witness :
  validateAndNormalize (Some generated_suite) = inr generated_suite
  ∧ validateAndNormalize (Some (take 4 generated_suite))
    = inl (ErrorObject
             (lit "Test generation must produce at least 5 test cases, got 4")).
Proof.
  split.
  - apply (proj1 (validateAndNormalize_accepts_valid_suites (Some generated_suite))).
    split; [reflexivity|]. split; [simpl; lia|]. split.
    { exists (generated_case (lit "Books a table") (lit "happy-path")).
      split; [left|reflexivity]. }
    split.
    { exists (generated_case (lit "Insults the agent") (lit "adversarial")).
      split; [do 3 right; left|reflexivity]. }
    apply Forall_forall. intros tc Htc.
    apply validate_test_case_ok.
    repeat (apply elem_of_cons in Htc as [->|Htc]; [by vm_compute|]).
    by apply elem_of_nil in Htc.
  - apply (proj2 (proj2 (validateAndNormalize_accepts_valid_suites
                           (Some (take 4 generated_suite))))).
    simpl. lia.
Defined.

(** ** The cap and cancellation, as the code has them *)

Lemma last_stop_cancel (cycleId : jsstring) (before after : list Request) :
  PauseRequest cycleId ∉ after →
  last_stop cycleId (before ++ CancelRequest cycleId :: after) = Some cancelled.
Proof.
  intros Hafter. unfold last_stop. rewrite foldl_app. cbn [foldl].
  unfold stop_step at 2. rewrite decide_True by done.
  clear before. induction after as [|r after IH]; [done|].
  apply not_elem_of_cons in Hafter as [Hr Hafter]. cbn [foldl].
  destruct r as [id_|id_|id_]; unfold stop_step at 2.
  - destruct (decide (id_ = cycleId)); by apply IH.
  - rewrite decide_False by congruence. by apply IH.
  - by apply IH.
Qed.

Section cap_and_cancellation.
Context {Σ : Type} `{!LLMService Σ} `{!AgentApi Σ}.


(** C3, as the code has it: a cancel request that is served at an await of
    an iteration of a running cycle, and is not followed by a pause request
    in that iteration, does not interrupt it; what the loop persists depends
    on how the iteration ends.

    - The iteration goes on to the next check: its test run is persisted as
      [completed] with its pass rate, which is below the threshold, and the
      optimization it made, if any, is persisted and accepted; until then
      the record of the cycle is untouched. The flag reads [cancelled], and
      the check at the top of the loop persists [cancelled] with the
      counters of the iteration; but if the iteration was the last one
      allowed, the loop is left without that check and persists
      [completed].
    - The iteration meets the threshold: the loop ends there and persists
      [completed], with the test run of the iteration.
    - An error escapes the iteration: the loop ends there and the record of
      the cycle is as it was, [running]. *)
Theorem cancel_takes_effect_between_iterations (fuel : nat) (cycleId : jsstring)
  (config : CycleConfig) (st : LoopState) (w w1 : World Σ) (res : outcome LoopStep)
  (record : CycleRecord) (served : list (list Request)) (before after : list Request) :
  ls_cycleCount st < maxCycles config →
  cycle_record cycleId w = Some record →
  cyc_status record = running →
  running_flag cycleId w →
  cycle_iteration cycleId config st w = (res, w1) →
  inbox w = served ++ inbox w1 →
  concat served = before ++ CancelRequest cycleId :: after →
  PauseRequest cycleId ∉ after →
  match res with
  | Returned (NextIteration st') =>
      ∃ w' testRunId row opts,
        cycle_loop (S (S fuel)) cycleId config st w = Some (Returned (), w')
        ∧ ls_cycleCount st' = ls_cycleCount st + 1
        ∧ ls_testRunIds st' = ls_testRunIds st ++ [testRunId]
        ∧ ls_optimizationIds st' = ls_optimizationIds st ++ opts
        ∧ number_ge (ls_currentPassRate st') (targetThreshold config) = false
        ∧ cycle_record cycleId w1 = Some record
        ∧ TestRun_t (database w') !! testRunId = Some row
        ∧ tr_status row = run_completed
        ∧ overallPassRate row = Some (ls_currentPassRate st')
        ∧ Forall (λ o, ∃ orow, OptimizationRecord_t (database w') !! o = Some orow
                               ∧ opt_status orow = accepted) opts
        ∧ stateFlags w' !! cycleId = Some cancelled
        ∧ cycle_record cycleId w'
          = Some (persisted (ls_cycleCount st') (ls_currentPassRate st')
                    (if bool_decide (ls_cycleCount st' < maxCycles config)
                     then cancelled else completed)
                    (ls_testRunIds st') (ls_optimizationIds st') record)
  | Returned ReturnFromLoop =>
      ∃ testRunId row rate,
        cycle_loop (S fuel) cycleId config st w = Some (Returned (), w1)
        ∧ number_ge rate (targetThreshold config) = true
        ∧ TestRun_t (database w1) !! testRunId = Some row
        ∧ tr_status row = run_completed
        ∧ overallPassRate row = Some rate
        ∧ cycle_record cycleId w1
          = Some (persisted (ls_cycleCount st + 1) rate completed
                    (ls_testRunIds st ++ [testRunId]) (ls_optimizationIds st) record)
  | Threw e =>
      cycle_loop (S fuel) cycleId config st w = Some (Threw e, w1)
      ∧ cycle_record cycleId w1 = Some record
  end.
Proof.
  intros Hlt Hrec Hst Hrunning Hiter Hinbox Hserved Hafter.
  destruct res as [[st'|]|e].
  - (* on to the next check *)
    rewrite cycle_loop_step, Hiter by done.
    apply iteration_next in Hiter
      as (_ & served' & testRunId & opts & row & Hsteady & -> & Hbelow & _ & _ & _ & _
          & Hrow & Hdone & (results & Hrate) & Hopts).
    destruct Hsteady as (Hr & Hi & Hf).
    assert (served' = served) as ->.
    { eapply app_inv_tail. by rewrite <- Hi, <- Hinbox. }
    assert (Hflag : stateFlags w1 !! cycleId = Some cancelled).
    { pose proof (flag_after_requests cycleId _ record (stateFlags w !! cycleId)
                    (concat served) Hrec Hst (stateFlags w) None eq_refl) as Hview.
      rewrite <- Hf in Hview. fold (last_stop cycleId (concat served)) in Hview.
      by rewrite Hserved, last_stop_cancel in Hview. }
    assert (Hmeasured : overallPassRate row = Some (measured testRunId w1)).
    { unfold measured. rewrite Hrow. simpl. by rewrite Hrate. }
    cbn [ls_cycleCount ls_currentPassRate ls_testRunIds ls_optimizationIds].
    destruct (decide (ls_cycleCount st + 1 < maxCycles config)) as [Hnext|Hlast].
    + rewrite cycle_loop_step, cycle_iteration_eq by done. cbv zeta.
      rewrite decide_True by done.
      cbn [ls_cycleCount ls_currentPassRate ls_testRunIds ls_optimizationIds].
      eexists _, testRunId, row, opts. split; [reflexivity|].
      rewrite cycle_record_finishing. unfold cycle_record in *.
      rewrite Hr, Hrec, bool_decide_eq_true_2 by done.
      repeat (split; [done|]). done.
    + rewrite cycle_loop_at_cap by done.
      cbn [ls_cycleCount ls_currentPassRate ls_testRunIds ls_optimizationIds].
      eexists _, testRunId, row, opts. split; [reflexivity|].
      rewrite cycle_record_finishing. unfold cycle_record in *.
      rewrite Hr, Hrec, bool_decide_eq_false_2 by done.
      repeat (split; [done|]). done.
  - (* the threshold is met *)
    rewrite cycle_loop_step, Hiter by done.
    apply iteration_returns in Hiter
      as [(s & Hs & Hflag & _)
         |(testRunId & a & results & w2 & _ & _ & Hrow & _ & _ & _ & Hkept & _ & Hmet & ->)].
    { destruct Hrunning as [Hc Hp]. by destruct Hs as [-> | ->]. }
    eexists testRunId, _, (calculatePassRate results).
    split; [done|]. split; [done|]. split; [exact Hrow|]. split; [done|].
    split; [done|].
    rewrite cycle_record_finishing. unfold cycle_record in *. simpl.
    by rewrite Hkept, Hrec.
  - (* an error escapes *)
    rewrite cycle_loop_step, Hiter by done. split; [done|].
    apply iteration_threw in Hiter as [Hkept _].
    unfold cycle_record in *. by rewrite Hkept.
Qed.

End cap_and_cancellation.



Example optimizer_failure_run :
  cycle_outcome (lit "cycle-1")
    (@runCycleLoop unit BrokenOptimizerLLM MockAgentApi 3 (lit "cycle-1")
       (sample_config (Finite (9 # 10)) 3)
       (started_world () (Finite (9 # 10)) 3 []))
  = Some (Threw (ErrorObject (lit "LLM unavailable")), Some running, Some running,
          Some 0,
          [(lit "cycle-1", cycle_start 1);
           (lit "cycle-1", test_run_complete 1 (Finite (0 # 2)))],
          [Call_executeTestRun; Call_optimizePrompt]).
Proof. vm_compute. reflexivity. Qed.

(** A cancel request served during the first of two allowed iterations:
    the iteration ends with its test run and its optimization persisted, and
    the next check persists [cancelled]. *)
Lemma cancel_takes_effect_between_iterations_witness :
  let config := sample_config (Finite (9 # 10)) 2 in
  let w := started_world () (Finite (9 # 10)) 2 [[CancelRequest (lit "cycle-1")]] in
  let st := {| ls_cycleCount := 0; ls_currentPassRate := Finite 0;
               ls_testRunIds := []; ls_optimizationIds := [] |} in
  ∃ w',
    @cycle_loop unit (FailingLLM None) MockAgentApi 2 (lit "cycle-1") config st w
    = Some (Returned (), w')
    ∧ cyc_status <$> cycle_record (lit "cycle-1") w' = Some cancelled
    ∧ cycleCount <$> cycle_record (lit "cycle-1") w' = Some 1
    ∧ tr_status <$> TestRun_t (database w') !! uuid_of 0 = Some run_completed.
Proof.
  intros config w st.
  destruct (@cycle_iteration unit (FailingLLM None) MockAgentApi (lit "cycle-1")
              config st w) as [[[st'|]|e] w1] eqn:Hiter;
    [|vm_compute in Hiter; discriminate..].
  destruct (@cancel_takes_effect_between_iterations unit (FailingLLM None)
              MockAgentApi 0 (lit "cycle-1") config st w w1 (Returned (NextIteration st'))
              (sample_cycle_record (Finite (9 # 10)) 2)
              [[CancelRequest (lit "cycle-1")]] [] [])
    as (w' & testRunId & row & opts & Hloop & Hcount & Hruns & _ & _ & _ & Hrow & Hdone
        & _ & _ & _ & Hrec).
  - simpl. lia.
  - by vm_compute.
  - reflexivity.
  - split; by vm_compute.
  - exact Hiter.
  - vm_compute in Hiter. injection Hiter as <- <-. reflexivity.
  - reflexivity.
  - intros Hin. by apply elem_of_nil in Hin.
  - exists w'. split; [exact Hloop|]. rewrite Hrec. simpl.
    rewrite Hcount. simpl. split; [done|]. split; [done|].
    vm_compute in Hiter. injection Hiter as <- <-. simpl in Hruns.
    assert (testRunId = uuid_of 0) as -> by (injection Hruns as <-; reflexivity).
    by rewrite Hrow, <- Hdone.
Defined.
